(** * Design-token build orchestration: file discovery, token inspection
      and the per-file build loop.

    The development embeds [discover] (file classification and the
    file-name transforms) and [transform] (token walks, name transform,
    per-file processing and the run loop), both from the TypeScript
    sources and from the compiled [dist/transform.js].  It goes on with
    [unzip] (the archive extractor), the summary of [logger] and the
    command-line run of [index].

    Strings are sequences of 8-bit code units: the Latin-1 range of
    JavaScript's UTF-16 code units.  Built-ins of the host platform that
    the program only calls (path joining, file reading, JSON parsing, the
    Style Dictionary engine) are gathered in the [Host] interface.  A
    built-in returns or throws; a computation of the program returns,
    throws, or has the process end under it, which is what an engine
    failure that nothing handles does.  A directory listing can fail at
    any directory of the tree. *)

From Stdlib Require Import Ascii NArith DecimalString DecimalNat.
From stdpp Require Import base gmap strings list.

Set Default Proof Using "Type".

(* ================================================================== *)
(** * Part I: definitions                                              *)
(* ================================================================== *)

(** ** JavaScript string primitives *)

Module Js.

(** [s.endsWith(suffix)] *)
Fixpoint endsWith (s suffix : string) : bool :=
  String.eqb s suffix ||
  match s with
  | "" => false
  | String _ s' => endsWith s' suffix
  end.

(** [s.startsWith(prefix)] *)
Definition startsWith (s pre : string) : bool := String.prefix pre s.

(** [s.slice(1)] *)
Definition slice1 (s : string) : string :=
  match s with "" => "" | String _ s' => s' end.

(** A regular expression of the shape [/L$/], where the part before the
    end anchor matches exactly the strings accepted by [L]: the engine
    tries the start positions from left to right, and a position matches
    when the rest of the input, up to its end, is in [L]. *)
Fixpoint regex_test (L : string → bool) (s : string) : bool :=
  L s ||
  match s with
  | "" => false
  | String _ s' => regex_test L s'
  end.

(** [s.replace(/L$/, "")]: the leftmost match is removed; without a
    match the string is returned as it is. *)
Fixpoint regex_remove (L : string → bool) (s : string) : string :=
  if L s then ""
  else match s with
       | "" => ""
       | String c s' => String c (regex_remove L s')
       end.

(** The literal pattern [lit] (all its meta-characters escaped). *)
Definition literal (lit : string) : string → bool :=
  fun t => String.eqb t lit.

(** Code-unit classification for [\s], restricted to the 8-bit range:
    TAB, LF, VT, FF, CR, SPACE and NO-BREAK SPACE. *)
Definition is_whitespace (c : ascii) : bool :=
  let n := N_of_ascii c in
  (((9 <=? n) && (n <=? 13)) || (n =? 32) || (n =? 160))%N.

(** [toLowerCase] on one code unit of the 8-bit range: [A-Z] and the
    Latin-1 capitals U+00C0..U+00DE (except the multiplication sign
    U+00D7) move up by 32. *)
Definition toLowerCase_unit (c : ascii) : ascii :=
  let n := N_of_ascii c in
  if (((65 <=? n) && (n <=? 90)) ||
      ((192 <=? n) && (n <=? 222) && negb (n =? 215)))%N
  then ascii_of_N (n + 32) else c.

Fixpoint toLowerCase (s : string) : string :=
  match s with
  | "" => ""
  | String c s' => String (toLowerCase_unit c) (toLowerCase s')
  end.

(** [s.replace(/\s+/g, rep)]: every maximal run of whitespace is replaced
    by one copy of [rep].  [in_run] tells that the previous code unit was
    whitespace, that is, the run has been replaced already. *)
Fixpoint replace_ws_runs_from (in_run : bool) (rep : string) (s : string)
  : string :=
  match s with
  | "" => ""
  | String c s' =>
      if is_whitespace c then
        if in_run then replace_ws_runs_from true rep s'
        else rep +:+ replace_ws_runs_from true rep s'
      else String c (replace_ws_runs_from false rep s')
  end.

Definition replace_ws_runs (rep s : string) : string :=
  replace_ws_runs_from false rep s.

(** [segments.join(sep)] *)
Fixpoint join (sep : string) (segments : list string) : string :=
  match segments with
  | [] => ""
  | [x] => x
  | x :: rest => x +:+ sep +:+ join sep rest
  end.

(** [s] between two quotation marks (code unit 34). *)
Definition quoted (s : string) : string :=
  String "034" (s +:+ String "034" EmptyString).

(** [String(n)] for a natural number [n] (an array index, a length): its
    decimal numeral. *)
Definition number_to_string (i : nat) : string :=
  NilEmpty.string_of_uint (Nat.to_uint i).

End Js.

(** ** Thrown values and results *)

(** What a [throw] carries: an [Error] object (of some class, with its
    message) or any other value. *)
Inductive thrown : Type :=
| ThrownError (name message : string)
| ThrownOther.

Inductive result (A : Type) : Type :=
| Ok (a : A)
| Throw (e : thrown).
Arguments Ok {A} a.
Arguments Throw {A} e.

(** How a computation ends.  It settles, with a value or with an error
    that goes to the enclosing [catch]; or a promise that nobody awaits is
    rejected and Node ends the process on the unhandled rejection, with
    exit code 1: no [catch] and no [finally] block runs any more. *)
Inductive completion (A : Type) : Type :=
| Settled (r : result A)
| Unhandled (e : thrown).
Arguments Settled {A} r.
Arguments Unhandled {A} e.

(** A result stands for the computation that settles with it; a pair takes
    its type from where it stands, so this holds inside pairs as well. *)
Coercion Settled : result >-> completion.
Arguments pair {A B}%_type_scope & a b.

Definition is_ok {A} (c : completion A) : bool :=
  match c with Settled (Ok _) => true | _ => false end.

(** ** Paths *)

Module Path.

(** POSIX [path.basename(p)]: trailing slashes are dropped and the part
    after the last remaining slash is returned; [last] is the last
    complete non-empty component seen so far and [cur] the component
    being read. *)
Fixpoint basename_from (last cur : string) (p : string) : string :=
  match p with
  | "" => if String.eqb cur "" then last else cur
  | String c p' =>
      if Ascii.eqb c "/"
      then basename_from (if String.eqb cur "" then last else cur) "" p'
      else basename_from last (cur +:+ String c "") p'
  end.

Definition basename (p : string) : string := basename_from "" "" p.

End Path.

(** ** Parsed JSON values *)

(** The value [JSON.parse] returns.  An object is the list of its own
    properties in enumeration order (the order of [Object.values] and
    [Object.entries]); a number keeps its literal, which no code here
    inspects. *)
#[local] Unset Elimination Schemes.
Inductive json : Type :=
| JNull
| JBool (b : bool)
| JNum (literal : string)
| JStr (s : string)
| JArr (items : list json)
| JObj (props : list (string * json)).
#[local] Set Elimination Schemes.

Module Json.

(** [value && typeof value === "object"]: objects and arrays pass,
    [null] is falsy and the other values are primitives. *)
Definition is_object (value : json) : bool :=
  match value with
  | JArr _ | JObj _ => true
  | _ => false
  end.

(** [key in obj] on own properties: the keys of an object, the indices
    and [length] of an array.  Inherited properties are left out; this is
    exact for the two keys the program tests, ["$value"] and ["value"],
    which neither [Object.prototype] nor [Array.prototype] defines. *)
Definition has_key (key : string) (obj : json) : bool :=
  match obj with
  | JObj props => existsb (fun kv => String.eqb (fst kv) key) props
  | JArr items =>
      existsb (fun i => String.eqb (Js.number_to_string i) key)
              (seq 0 (length items))
      || String.eqb key "length"
  | _ => false
  end.

(** [Object.entries(v)] for a value other than [null]: the properties of
    an object, the indexed items of an array; a primitive has no entry
    that is an object (the entries of a string are its one-unit
    strings). *)
Definition entries (v : json) : list (string * json) :=
  match v with
  | JObj props => props
  | JArr items => imap (fun i item => (Js.number_to_string i, item)) items
  | JStr s =>
      imap (fun i c => (Js.number_to_string i, JStr (String c "")))
           (String.list_ascii_of_string s)
  | _ => []
  end.

(** [Object.values(v)] *)
Definition values (v : json) : list json := (entries v).*2.

(** [Object.values(null)] and [Object.entries(null)] throw; every other
    value is coerced to an object. *)
Definition require_object_coercible (v : json) : result unit :=
  match v with
  | JNull =>
      Throw (ThrownError "TypeError"
                         "Cannot convert undefined or null to object")
  | _ => Ok tt
  end.

(** Keys of every object pairwise distinct, as in any value built by
    [JSON.parse]. *)
Fixpoint distinct_keys (v : json) : Prop :=
  match v with
  | JObj props =>
      NoDup props.*1 ∧
      (fix all (l : list (string * json)) : Prop :=
         match l with
         | [] => True
         | kv :: rest => distinct_keys (snd kv) ∧ all rest
         end) props
  | JArr items =>
      (fix all (l : list json) : Prop :=
         match l with
         | [] => True
         | item :: rest => distinct_keys item ∧ all rest
         end) items
  | _ => True
  end.

(** No object key below [v] contains the unit [sep]. *)
Fixpoint keys_avoid (sep : ascii) (v : json) : Prop :=
  match v with
  | JObj props =>
      (fix all (l : list (string * json)) : Prop :=
         match l with
         | [] => True
         | kv :: rest =>
             (sep ∉ String.list_ascii_of_string (fst kv)) ∧
             keys_avoid sep (snd kv) ∧ all rest
         end) props
  | JArr items =>
      (fix all (l : list json) : Prop :=
         match l with
         | [] => True
         | item :: rest => keys_avoid sep item ∧ all rest
         end) items
  | _ => True
  end.

End Json.

(** ** Token walks of [transform] *)

(** The three walks take the parsed content of a file, of TypeScript type
    [Record<string, unknown>].  Their first step is [Object.values] or
    [Object.entries], which throws on [null]: that case is
    [Json.require_object_coercible], checked where [processTokenFile] first
    hands the content to a walk.  The recursive calls are made on objects
    and arrays only. *)

Module Tokens.
Import Json.

(** The test of [hasLegacyTokenFormat] on one object: it has a [value]
    key and no [$value] key. *)
Definition legacy_shape (obj : json) : bool :=
  has_key "value" obj && negb (has_key "$value" obj).

(** [hasLegacyTokenFormat(tokens)]: the loop over [Object.values(tokens)]
    returns [true] at the first value that is an object in the legacy
    shape or has such an object below it. *)
Fixpoint hasLegacyTokenFormat (tokens : json) : bool :=
  match tokens with
  | JObj props =>
      (fix loop (l : list (string * json)) : bool :=
         match l with
         | [] => false
         | kv :: rest =>
             let value := snd kv in
             if is_object value then
               if legacy_shape value then true
               else if hasLegacyTokenFormat value then true
               else loop rest
             else loop rest
         end) props
  | JArr items =>
      (fix loop (l : list json) : bool :=
         match l with
         | [] => false
         | value :: rest =>
             if is_object value then
               if legacy_shape value then true
               else if hasLegacyTokenFormat value then true
               else loop rest
             else loop rest
         end) items
  | _ => false
  end.

(** [countTokens(tokens, count)] *)
Fixpoint countTokens (tokens : json) (count : nat) : nat :=
  match tokens with
  | JObj props =>
      (fix loop (l : list (string * json)) (count : nat) : nat :=
         match l with
         | [] => count
         | kv :: rest =>
             let value := snd kv in
             loop rest
               (if is_object value then
                  if has_key "$value" value then S count
                  else countTokens value count
                else count)
         end) props count
  | JArr items =>
      (fix loop (l : list json) (count : nat) : nat :=
         match l with
         | [] => count
         | value :: rest =>
             loop rest
               (if is_object value then
                  if has_key "$value" value then S count
                  else countTokens value count
                else count)
         end) items count
  | _ => count
  end.

(** [extractTokenPaths(tokens, currentPath, paths)]; the set [paths] is
    updated in place by the source and threaded through here. *)
Fixpoint extractTokenPaths (tokens : json) (currentPath : list string)
         (paths : gset string) : gset string :=
  match tokens with
  | JObj props =>
      (fix loop (l : list (string * json)) (paths : gset string)
         : gset string :=
         match l with
         | [] => paths
         | kv :: rest =>
             let key := fst kv in
             let value := snd kv in
             loop rest
               (if is_object value then
                  let newPath := currentPath ++ [key] in
                  if has_key "$value" value
                  then paths ∪ {[ Js.join "." newPath ]}
                  else extractTokenPaths value newPath paths
                else paths)
         end) props paths
  | JArr items =>
      (fix loop (l : list json) (i : nat) (paths : gset string)
         : gset string :=
         match l with
         | [] => paths
         | value :: rest =>
             let key := Js.number_to_string i in
             loop rest (S i)
               (if is_object value then
                  let newPath := currentPath ++ [key] in
                  if has_key "$value" value
                  then paths ∪ {[ Js.join "." newPath ]}
                  else extractTokenPaths value newPath paths
                else paths)
         end) items 0 paths
  | _ => paths
  end.

(** The body of the loop of [hasLegacyTokenFormat]: the loop returns
    [true] at an entry for which this holds. *)
Definition legacy_step (kv : string * json) : bool :=
  let value := snd kv in
  is_object value && (legacy_shape value || hasLegacyTokenFormat value).

(** The body of the loop of [countTokens]. *)
Definition count_step (count : nat) (kv : string * json) : nat :=
  let value := snd kv in
  if is_object value then
    if has_key "$value" value then S count else countTokens value count
  else count.

(** The body of the loop of [extractTokenPaths]. *)
Definition paths_step (currentPath : list string) (paths : gset string)
           (kv : string * json) : gset string :=
  let value := snd kv in
  if is_object value then
    let newPath := currentPath ++ [fst kv] in
    if has_key "$value" value then paths ∪ {[ Js.join "." newPath ]}
    else extractTokenPaths value newPath paths
  else paths.

(** The walk of the specification's "Count" paragraph, on a node: an
    object with a [$value] key counts one and is not entered, any other
    object is entered without being counted, an array or a primitive value
    is neither counted nor entered. *)
Fixpoint countTokens_spec (node : json) : nat :=
  match node with
  | JObj props =>
      if has_key "$value" node then 1
      else (fix sum (l : list (string * json)) : nat :=
              match l with
              | [] => 0
              | kv :: rest => countTokens_spec (snd kv) + sum rest
              end) props
  | _ => 0
  end.

End Tokens.

(** ** The Style Dictionary interface *)

(** A token as the engine hands it to transforms and filters. *)
Record token : Type := Token { path : list string }.

Record file_config : Type := FileConfig {
  destination : string;
  format : string;
  outputReferences : bool;
  selector : string;
  filter : token → bool
}.

Record platform_config : Type := PlatformConfig {
  transformGroup : string;
  transforms : list string;
  buildPath : string;
  files : list file_config
}.

Record sd_config : Type := SdConfig {
  source : list string;
  css : platform_config;
  log_verbosity : string;
  log_warnings : string
}.

(** ** The host platform *)

(** One entry of a directory listing ([fs.Dirent]), with what lies below
    it: a regular file; a directory, either with the entries that
    [readdirSync] lists for it or with the error that [readdirSync] throws
    for it; or anything else (a link, a socket). *)
#[local] Unset Elimination Schemes.
Inductive dirent : Type :=
| RegularFile (name : string)
| Directory (name : string) (entries : list dirent)
| Unreadable (name : string) (error : thrown)
| OtherEntry (name : string).
#[local] Set Elimination Schemes.

(** What the file system holds at a path. *)
Inductive fsnode : Type :=
| NotFound
| NotDirectory
| DirectoryOf (entries : list dirent).

Inductive log_level : Type := INFO | SUCCESS | WARN | ERROR | DEBUG.

(** The built-ins the program calls: [path], [os], [fs], [JSON] and the
    engine.  [World] is the state they act on.  [sd_build] stands for
    [new StyleDictionary(config)] followed by [await
    sd.buildAllPlatforms()]: the build is done, or it is rejected and the
    awaiting caller gets the error, or the loading of the sources, which
    the constructor starts and the program does not await, fails and ends
    the process. *)
Class Host : Type := {
  World : Type;
  path_join : string → string → string;
  path_resolve : string → string;
  path_relative : string → string → string;
  os_homedir : string;
  fs_lookup : string → World → fsnode;
  fs_mkdirSync : string → World → result unit * World;
  fs_readFileSync : string → World → result string;
  JSON_parse : string → result json;
  sd_registerTransform : string → (token → string) → World → World;
  sd_build : sd_config → World → completion unit * World
}.

(** ** Computations: state, exceptions and the console *)

Section Computation.
Context {host : Host}.

(** The state of a run: the world, the console lines written through
    [logger], and a record of the engine invocations made so far. *)
Record run_state : Type := RunState {
  world : World;
  console : list (log_level * string);
  engine_calls : list sd_config
}.

Definition M (A : Type) : Type := run_state → completion A * run_state.

Definition ret {A} (a : A) : M A := fun st => (Ok a, st).

Definition throw {A} (e : thrown) : M A := fun st => (Throw e, st).

Definition bind {A B} (m : M A) (k : A → M B) : M B :=
  fun st =>
    match m st with
    | (Settled (Ok a), st') => k a st'
    | (Settled (Throw e), st') => (Throw e, st')
    | (Unhandled e, st') => (Unhandled e, st')
    end.

(** [try { m } catch (error) { handler(error) }] *)
Definition try_catch {A} (m : M A) (handler : thrown → M A) : M A :=
  fun st =>
    match m st with
    | (Settled (Ok a), st') => (Ok a, st')
    | (Settled (Throw e), st') => handler e st'
    | (Unhandled e, st') => (Unhandled e, st')
    end.

Definition lift {A} (r : result A) : M A := fun st => (Settled r, st).

Definition read_world {A} (f : World → A) : M A :=
  fun st => (Ok (f (world st)), st).

Definition update_world (f : World → World) : M unit :=
  fun st => (Ok tt, RunState (f (world st)) (console st) (engine_calls st)).

(** A call of one of the [logger] methods. *)
Definition logger (level : log_level) (message : string) : M unit :=
  fun st =>
    (Ok tt,
     RunState (world st) (console st ++ [(level, message)])
              (engine_calls st)).

(** [fs.existsSync(p)] *)
Definition existsSync (p : string) : M bool :=
  read_world (fun w =>
    match fs_lookup p w with NotFound => false | _ => true end).

(** [fs.readdirSync(p, { withFileTypes: true })] *)
Definition readdirSync (p : string) : M (list dirent) :=
  fun st =>
    match fs_lookup p (world st) with
    | NotFound =>
        (Throw (ThrownError "Error"
                  ("ENOENT: no such file or directory, scandir '"
                   +:+ p +:+ "'")), st)
    | NotDirectory =>
        (Throw (ThrownError "Error"
                  ("ENOTDIR: not a directory, scandir '" +:+ p +:+ "'")),
         st)
    | DirectoryOf entries => (Ok entries, st)
    end.

(** [for (const x of xs) { s = body(x, s) }], with the variables the
    body assigns gathered in [s]. *)
Fixpoint for_of {A S} (xs : list A) (body : A → S → M S) (s : S) : M S :=
  match xs with
  | [] => ret s
  | x :: rest => bind (body x s) (for_of rest body)
  end.

End Computation.

Notation "'let*' x ':=' m 'in' k" := (bind m (fun x => k))
  (at level 10, x name, m at level 100, k at level 200,
   format "'[v' 'let*'  x  ':='  m  'in' '/' k ']'").
Notation "'run' m 'in' k" := (bind m (fun _ => k))
  (at level 10, m at level 100, k at level 200,
   format "'[v' 'run'  m  'in' '/' k ']'").

(** ** [discover]: file classification and file-name transforms *)

Module Discover.

(** [/\.inp\.json$/], [/\.ref\.inp\.json$/], [/\.theme\.inp\.json$/] *)
Definition OUTPUT_PATTERN : string → bool := Js.literal ".inp.json".
Definition REFERENCE_PATTERN : string → bool := Js.literal ".ref.inp.json".
Definition THEME_PATTERN : string → bool := Js.literal ".theme.inp.json".

(** [/\.(theme\.)?inp\.json$/], the pattern of [getOutputFileName]. *)
Definition OUTPUT_NAME_PATTERN : string → bool :=
  fun t => String.eqb t ".theme.inp.json" || String.eqb t ".inp.json".

Record DiscoveredFiles : Type := {
  outputFiles : list string;
  themeFiles : list string;
  referenceFiles : list string;
  allFiles : list string
}.

(** [getOutputFileName(inputPath)] *)
Definition getOutputFileName (inputPath : string) : string :=
  let basename := Path.basename inputPath in
  let name := Js.regex_remove OUTPUT_NAME_PATTERN basename in
  name +:+ ".vars.gen.css".

(** [getThemeName(inputPath)] *)
Definition getThemeName (inputPath : string) : string :=
  let basename := Path.basename inputPath in
  Js.regex_remove THEME_PATTERN basename.

(** [isThemeFile(inputPath)] *)
Definition isThemeFile (inputPath : string) : bool :=
  Js.regex_test THEME_PATTERN (Path.basename inputPath).

Section WithHost.
Context {host : Host}.

(** [getRelativePath(filePath, extractedDir)] *)
Definition getRelativePath (filePath extractedDir : string) : string :=
  path_relative extractedDir filePath.

(** The body of the loop of [findFilesRecursive(dir, files)] for one
    entry; a directory is listed and walked in turn, and an error of
    [readdirSync] ends the walk. *)
Fixpoint visit_entry (dir : string) (entry : dirent)
         (files : list string) : result (list string) :=
  match entry with
  | RegularFile name => Ok (files ++ [path_join dir name])
  | Directory name entries =>
      let fullPath := path_join dir name in
      (fix loop (es : list dirent) (files : list string)
         : result (list string) :=
         match es with
         | [] => Ok files
         | e :: rest =>
             match visit_entry fullPath e files with
             | Ok files => loop rest files
             | Throw error => Throw error
             end
         end) entries files
  | Unreadable _ error => Throw error
  | OtherEntry _ => Ok files
  end.

(** [findFilesRecursive(dir, files)], [entries] being the listing of
    [dir]. *)
Fixpoint findFilesRecursive (dir : string) (entries : list dirent)
         (files : list string) : result (list string) :=
  match entries with
  | [] => Ok files
  | entry :: rest =>
      match visit_entry dir entry files with
      | Ok files => findFilesRecursive dir rest files
      | Throw error => Throw error
      end
  end.

(** The three arrays filled by the categorisation loop. *)
Record buckets : Type := Buckets {
  b_reference : list string;
  b_theme : list string;
  b_output : list string
}.

(** The body of the categorisation loop of [discoverTokenFiles]. *)
Definition categorize (file : string) (b : buckets) : M buckets :=
  let fileName := Path.basename file in
  if Js.regex_test REFERENCE_PATTERN fileName then
    run logger DEBUG ("Reference file: " +:+ file) in
    ret (Buckets (b_reference b ++ [file]) (b_theme b) (b_output b))
  else if Js.regex_test THEME_PATTERN fileName then
    run logger DEBUG ("Theme file: " +:+ file) in
    ret (Buckets (b_reference b) (b_theme b ++ [file]) (b_output b))
  else if Js.regex_test OUTPUT_PATTERN fileName then
    run logger DEBUG ("Output file: " +:+ file) in
    ret (Buckets (b_reference b) (b_theme b) (b_output b ++ [file]))
  else ret b.

(** [discoverTokenFiles(extractedDir)] *)
Definition discoverTokenFiles (extractedDir : string)
  : M DiscoveredFiles :=
  run logger DEBUG ("Discovering token files in: " +:+ extractedDir) in
  let* present := existsSync extractedDir in
  if negb present then
    throw (ThrownError "Error"
             ("Directory does not exist: " +:+ extractedDir))
  else
  let* entries := readdirSync extractedDir in
  let* allFoundFiles := lift (findFilesRecursive extractedDir entries []) in
  run logger DEBUG
        ("Found " +:+ Js.number_to_string (length allFoundFiles)
         +:+ " total files") in
  let* b := for_of allFoundFiles categorize (Buckets [] [] []) in
  let referenceFiles := b_reference b in
  let themeFiles := b_theme b in
  let outputFiles := b_output b in
  let totalTokenFiles :=
    length referenceFiles + length themeFiles + length outputFiles in
  if totalTokenFiles =? 0 then
    throw (ThrownError "Error"
             ("No token files found. Token files must have .inp.json, "
              +:+ ".theme.inp.json, or .ref.inp.json extension."))
  else
  let totalOutputFiles := length outputFiles + length themeFiles in
  run (if totalOutputFiles =? 0
       then logger WARN
              ("No output files found. Only reference files "
               +:+ "(*.ref.inp.json) were discovered.")
       else ret tt) in
  run logger INFO
        ("Found " +:+ Js.number_to_string totalTokenFiles
         +:+ " token files ("
         +:+ Js.number_to_string (length referenceFiles)
         +:+ " reference-only, "
         +:+ Js.number_to_string (length themeFiles)
         +:+ " themes, "
         +:+ Js.number_to_string (length outputFiles)
         +:+ " standard)") in
  run for_of referenceFiles
        (fun file (_ : unit) =>
           let relativePath := path_relative extractedDir file in
           logger INFO ("Loading reference: " +:+ relativePath))
        tt in
  ret {| outputFiles := outputFiles;
         themeFiles := themeFiles;
         referenceFiles := referenceFiles;
         allFiles := referenceFiles ++ themeFiles ++ outputFiles |}.

End WithHost.

End Discover.

(** ** [transform]: validation, per-file processing and the run loop *)

Module Transform.
Import Discover Tokens.

Definition CUSTOM_NAME_TRANSFORM : string := "name/kebab-with-spaces".

(** The per-segment step of the name transform:
    [String(segment).toLowerCase().replace(/\s+/g, "-")]. *)
Definition transformSegment (segment : string) : string :=
  Js.replace_ws_runs "-" (Js.toLowerCase segment).

(** The transform registered under [CUSTOM_NAME_TRANSFORM].  The engine
    sets the path of every token it hands over, so the default of
    [token.path || []] is not modelled. *)
Definition customNameTransform (t : token) : string :=
  let pathSegments := path t in
  let transformedSegments := map transformSegment pathSegments in
  Js.join "-" transformedSegments.

(** The message of the error thrown by [validateDTCGFormat]. *)
Definition formatErrorMessage (fileName : string) : string :=
  "Token file " +:+ Js.quoted fileName +:+ " is not in W3C DTCG format. "
  +:+ "Found legacy format using " +:+ Js.quoted "value" +:+ " and "
  +:+ Js.quoted "type" +:+ " properties. "
  +:+ "Please use " +:+ Js.quoted "$value" +:+ " and "
  +:+ Js.quoted "$type" +:+ " properties instead. "
  +:+ "See: https://tr.designtokens.org/format/".

(** [validateDTCGFormat(tokens, fileName)]; the first thing the call
    does with [tokens] is [Object.values(tokens)]. *)
Definition validateDTCGFormat (tokens : json) (fileName : string)
  : result unit :=
  match Json.require_object_coercible tokens with
  | Throw e => Throw e
  | Ok _ =>
      if hasLegacyTokenFormat tokens
      then Throw (ThrownError "Error" (formatErrorMessage fileName))
      else Ok tt
  end.

Record TransformResult : Type := {
  outputPath : string;
  tokenCount : nat;
  inputPath : string
}.

Record ProcessingStats : Type := {
  tokensProcessed : nat;
  tokensSkipped : nat;
  outputTokenCounts : gmap string nat
}.

(** The filter of the output file: membership of the dot-joined path. *)
Definition pathFilter (tokenPathsInFile : gset string) (t : token) : bool :=
  let tokenPath := Js.join "." (path t) in
  bool_decide (tokenPath ∈ tokenPathsInFile).

(** The configuration object handed to [new StyleDictionary]. *)
Definition styleDictionaryConfig (allSourceFiles : list string)
           (outputDir outputFileName selector : string)
           (tokenPathsInFile : gset string) : sd_config :=
  {| source := allSourceFiles;
     css := {| transformGroup := "css";
               transforms := [CUSTOM_NAME_TRANSFORM; "size/px"; "color/css"];
               buildPath := if Js.endsWith outputDir "/" then outputDir
                            else outputDir +:+ "/";
               files := [ {| destination := outputFileName;
                             format := "css/variables";
                             outputReferences := true;
                             selector := selector;
                             filter := pathFilter tokenPathsInFile |} ] |};
     log_verbosity := "silent";
     log_warnings := "disabled" |}.

(** The message the [catch] blocks print:
    [error instanceof Error ? error.message : "Unknown error"]. *)
Definition errorMessage (error : thrown) : string :=
  match error with
  | ThrownError _ message => message
  | ThrownOther => "Unknown error"
  end.

Section WithHost.
Context {host : Host}.

(** [registerCustomTransforms()] *)
Definition registerCustomTransforms : M unit :=
  run update_world
        (sd_registerTransform CUSTOM_NAME_TRANSFORM customNameTransform) in
  logger DEBUG "Registered custom name transform".

(** [resolveOutputDir(outputDir)] *)
Definition resolveOutputDir (outputDir : string) : string :=
  if Js.startsWith outputDir "~"
  then path_join os_homedir (Js.slice1 outputDir)
  else path_resolve outputDir.

(** [fs.mkdirSync(p, { recursive: true })] *)
Definition mkdirSync (p : string) : M unit :=
  fun st =>
    let (r, w) := fs_mkdirSync p (world st) in
    (r, RunState w (console st) (engine_calls st)).

(** [fs.readFileSync(p, "utf-8")] *)
Definition readFileSync (p : string) : M string :=
  fun st => (fs_readFileSync p (world st), st).

(** [new StyleDictionary(config)] followed by [await
    sd.buildAllPlatforms()]: one invocation of the engine, noted in
    [engine_calls].  A rejected build is thrown to the caller; a failure
    that the engine leaves unhandled ends the process. *)
Definition buildAllPlatforms (config : sd_config) : M unit :=
  fun st =>
    let (r, w) := sd_build config (world st) in
    (r, RunState w (console st) (engine_calls st ++ [config])).

(** [processTokenFile(inputFile, allSourceFiles, outputDir, selector)]
    of the TypeScript source. *)
Definition processTokenFile (inputFile : string)
           (allSourceFiles : list string) (outputDir selector : string)
  : M TransformResult :=
  let outputFileName := getOutputFileName inputFile in
  let outputPath := path_join outputDir outputFileName in
  let inputFileName := Path.basename inputFile in
  run logger INFO
        ("Processing: " +:+ inputFileName +:+ " -> " +:+ outputFileName) in
  let* text := readFileSync inputFile in
  let* inputContent := lift (JSON_parse text) in
  run lift (validateDTCGFormat inputContent inputFileName) in
  let tokenCount := countTokens inputContent 0 in
  let tokenPathsInFile := extractTokenPaths inputContent [] ∅ in
  run buildAllPlatforms
        (styleDictionaryConfig allSourceFiles outputDir outputFileName
                               selector tokenPathsInFile) in
  run logger DEBUG
        ("Generated: " +:+ outputPath +:+ " with "
         +:+ Js.number_to_string tokenCount +:+ " tokens") in
  ret {| outputPath := outputPath;
         tokenCount := tokenCount;
         inputPath := inputFile |}.

(** The variables [results] and [stats] of [transformTokens]. *)
Definition accumulator : Type := list TransformResult * ProcessingStats.

(** The statements after a successful [processTokenFile]. *)
Definition recordResult (r : TransformResult) (acc : accumulator)
  : accumulator :=
  let (results, stats) := acc in
  (results ++ [r],
   {| tokensProcessed := tokensProcessed stats + tokenCount r;
      tokensSkipped := tokensSkipped stats;
      outputTokenCounts :=
        <[outputPath r := tokenCount r]> (outputTokenCounts stats) |}).

(** The [catch] block of both loops. *)
Definition recordFailure (inputFile : string) (error : thrown)
           (acc : accumulator) : M accumulator :=
  let (results, stats) := acc in
  run logger ERROR
        ("Failed to process " +:+ Path.basename inputFile +:+ ": "
         +:+ errorMessage error) in
  ret (results,
       {| tokensProcessed := tokensProcessed stats;
          tokensSkipped := S (tokensSkipped stats);
          outputTokenCounts := outputTokenCounts stats |}).

(** The body of the loop over [outputFiles]. *)
Definition processOutputFile (allFiles : list string)
           (resolvedOutputDir : string) (inputFile : string)
           (acc : accumulator) : M accumulator :=
  try_catch
    (let* r := processTokenFile inputFile allFiles resolvedOutputDir
                                ":root" in
     ret (recordResult r acc))
    (fun error => recordFailure inputFile error acc).

(** The selector of a theme file. *)
Definition themeSelector (inputFile : string) : string :=
  let themeName := getThemeName inputFile in
  "[data-mantine-color-scheme='" +:+ themeName +:+ "']".

(** The body of the loop over [themeFiles]. *)
Definition processThemeFile (allFiles : list string)
           (resolvedOutputDir : string) (inputFile : string)
           (acc : accumulator) : M accumulator :=
  try_catch
    (let selector := themeSelector inputFile in
     let* r := processTokenFile inputFile allFiles resolvedOutputDir
                                selector in
     ret (recordResult r acc))
    (fun error => recordFailure inputFile error acc).

(** [transformTokens(discoveredFiles, outputDir)] *)
Definition transformTokens (discoveredFiles : DiscoveredFiles)
           (outputDir : string) : M accumulator :=
  run registerCustomTransforms in
  let resolvedOutputDir := resolveOutputDir outputDir in
  let* present := existsSync resolvedOutputDir in
  run (if negb present then
         run mkdirSync resolvedOutputDir in
         logger DEBUG ("Created output directory: " +:+ resolvedOutputDir)
       else ret tt) in
  let results : list TransformResult := [] in
  let stats := {| tokensProcessed := 0;
                  tokensSkipped := 0;
                  outputTokenCounts := ∅ |} in
  let* acc := for_of (outputFiles discoveredFiles)
                     (processOutputFile (allFiles discoveredFiles)
                                        resolvedOutputDir)
                     (results, stats) in
  for_of (themeFiles discoveredFiles)
         (processThemeFile (allFiles discoveredFiles) resolvedOutputDir)
         acc.

End WithHost.

(** The compiled module [dist/transform.js].  Its name transform, token
    walks and run loop read as the ones above; its [processTokenFile]
    differs. *)
Module Dist.
Section WithHost.
Context {host : Host}.

(** [processTokenFile] of [dist/transform.js]; [countTokens] is the
    first call that applies [Object.values] to the parsed content. *)
Definition processTokenFile (inputFile : string)
           (allSourceFiles : list string) (outputDir selector : string)
  : M TransformResult :=
  let outputFileName := getOutputFileName inputFile in
  let outputPath := path_join outputDir outputFileName in
  let inputFileName := Path.basename inputFile in
  run logger INFO
        ("Processing: " +:+ inputFileName +:+ " -> "
         +:+ outputFileName) in
  let* text := readFileSync inputFile in
  let* inputContent := lift (JSON_parse text) in
  run lift (Json.require_object_coercible inputContent) in
  let tokenCount := countTokens inputContent 0 in
  let tokenPathsInFile := extractTokenPaths inputContent [] ∅ in
  run buildAllPlatforms
        (styleDictionaryConfig allSourceFiles outputDir outputFileName
                               selector tokenPathsInFile) in
  run logger DEBUG
        ("Generated: " +:+ outputPath +:+ " with "
         +:+ Js.number_to_string tokenCount +:+ " tokens") in
  ret {| outputPath := outputPath;
         tokenCount := tokenCount;
         inputPath := inputFile |}.

End WithHost.
End Dist.

End Transform.

(** ** A small concrete host, for running the definitions *)

Module Demo.

(** Regular files with their text, and directories with their listing. *)
Record demo_world : Type := DemoWorld {
  texts : gmap string string;
  listings : gmap string (list dirent)
}.

Definition lookup (p : string) (w : demo_world) : fsnode :=
  match listings w !! p with
  | Some entries => DirectoryOf entries
  | None => match texts w !! p with
            | Some _ => NotDirectory
            | None => NotFound
            end
  end.

Definition read (p : string) (w : demo_world) : result string :=
  match texts w !! p with
  | Some text => Ok text
  | None =>
      Throw (ThrownError "Error"
               ("ENOENT: no such file or directory, open '" +:+ p +:+ "'"))
  end.

(** Sample documents. *)
Definition leaf (v : string) : json := JObj [("$value", JStr v)].

(** [core]: one token at [mantine.primary.color.0]. *)
Definition doc_core : json :=
  JObj [("mantine",
         JObj [("primary",
                JObj [("color", JObj [("0", leaf "{color.primary}")])])])].

(** [legacy]: a token written with [value] in place of [$value]. *)
Definition doc_legacy : json :=
  JObj [("color", JObj [("primary", JObj [("value", JStr "#fff")])])].

(** [flat]: the document itself is written as a legacy token. *)
Definition doc_flat : json := JObj [("value", JStr "#fff")].

(** [dark]: two tokens. *)
Definition doc_dark : json :=
  JObj [("color", JObj [("bg", leaf "#000"); ("fg", leaf "#fff")])].

(** The parser of the demonstration host knows the sample documents by
    the text that stands for them. *)
Definition parse (text : string) : result json :=
  if String.eqb text "core" then Ok doc_core
  else if String.eqb text "legacy" then Ok doc_legacy
  else if String.eqb text "dark" then Ok doc_dark
  else if String.eqb text "flat" then Ok doc_flat
  else if String.eqb text "null" then Ok JNull
  else Throw (ThrownError "SyntaxError" "Unexpected token in JSON").

(** An engine that builds every configuration it is given, but fails on
    an empty source list. *)
Definition build (config : sd_config) (w : demo_world)
  : completion unit * demo_world :=
  match source config with
  | [] => (Throw (ThrownError "Error" "No sources"), w)
  | _ => (Ok tt, w)
  end.

Definition mkdir (p : string) (w : demo_world) : result unit * demo_world :=
  (Ok tt, DemoWorld (texts w) (<[p := []]> (listings w))).

Definition demo_host : Host :=
  Build_Host demo_world
             (fun dir name => dir +:+ "/" +:+ name)
             (fun p => p)
             (fun _ target => target)
             "/home/user"
             lookup mkdir read parse
             (fun _ _ w => w)
             build.

(** An extracted archive with a reference file, two output files (one of
    them in the legacy format) and a theme file. *)
Definition archive : demo_world :=
  DemoWorld
    (list_to_map [("/x/primitive.ref.inp.json", "dark");
                  ("/x/core.inp.json", "core");
                  ("/x/old.inp.json", "legacy");
                  ("/x/flat.inp.json", "flat");
                  ("/x/themes/dark.theme.inp.json", "dark");
                  ("/x/README.md", "text")])
    (list_to_map [("/x", [RegularFile "primitive.ref.inp.json";
                          RegularFile "core.inp.json";
                          RegularFile "old.inp.json";
                          RegularFile "flat.inp.json";
                          Directory "themes"
                            [RegularFile "dark.theme.inp.json"];
                          RegularFile "README.md"]);
                  ("/out", [])]).

Definition start (w : demo_world) : @run_state demo_host :=
  @RunState demo_host w [] [].

(** The state in which the archive has just been extracted. *)
Definition extracted : @run_state demo_host := start archive.

(** Three tokens at depths one, two and three, one of them in an
    array. *)
Definition doc_three : json :=
  JObj [("a", leaf "1");
        ("b", JObj [("c", leaf "2");
                    ("d", JArr [JStr "x"; leaf "3"])])].

(** What discovery returns for the archive. *)
Definition discovered : Discover.DiscoveredFiles :=
  {| Discover.outputFiles :=
       ["/x/core.inp.json"; "/x/old.inp.json"; "/x/flat.inp.json"];
     Discover.themeFiles := ["/x/themes/dark.theme.inp.json"];
     Discover.referenceFiles := ["/x/primitive.ref.inp.json"];
     Discover.allFiles :=
       ["/x/primitive.ref.inp.json"; "/x/themes/dark.theme.inp.json";
        "/x/core.inp.json"; "/x/old.inp.json"; "/x/flat.inp.json"] |}.

(** The variables of [transformTokens] before the first file. *)
Definition fresh : Transform.accumulator :=
  ([], {| Transform.tokensProcessed := 0;
          Transform.tokensSkipped := 0;
          Transform.outputTokenCounts := ∅ |}).

End Demo.

(** ** Notions used in the statements *)

Module Spec.
Import Discover Tokens.

(** The code units of a string. *)
Abbreviation units := String.list_ascii_of_string.

(** The bucket a file name falls in, most specific suffix first. *)
Inductive bucket : Type := Reference | Theme | Output.

Definition bucket_of (fileName : string) : option bucket :=
  if Js.regex_test REFERENCE_PATTERN fileName then Some Reference
  else if Js.regex_test THEME_PATTERN fileName then Some Theme
  else if Js.regex_test OUTPUT_PATTERN fileName then Some Output
  else None.

Definition in_bucket (b : bucket) (file : string) : bool :=
  match bucket_of (Path.basename file), b with
  | Some Reference, Reference | Some Theme, Theme | Some Output, Output =>
      true
  | _, _ => false
  end.

(** The record [discoverTokenFiles] builds from the files it found. *)
Definition classified (found : list string) : DiscoveredFiles :=
  {| outputFiles := List.filter (in_bucket Output) found;
     themeFiles := List.filter (in_bucket Theme) found;
     referenceFiles := List.filter (in_bucket Reference) found;
     allFiles := List.filter (in_bucket Reference) found
                 ++ List.filter (in_bucket Theme) found
                 ++ List.filter (in_bucket Output) found |}.

(** What a file holds once read and parsed. *)
Definition document_of {host : Host} (inputFile : string) (w : World)
  : result json :=
  match fs_readFileSync inputFile w with
  | Ok text => JSON_parse text
  | Throw e => Throw e
  end.

(** The world in which the loops of [transformTokens] start: the name
    transform has been registered. *)
Definition registered {host : Host} (w : World) : World :=
  sd_registerTransform Transform.CUSTOM_NAME_TRANSFORM
                       Transform.customNameTransform w.

(** The output directory is there or can be created. *)
Definition output_dir_ready {host : Host} (outputDir : string) (w : World)
  : Prop :=
  let resolved := Transform.resolveOutputDir outputDir in
  fs_lookup resolved (registered w) ≠ NotFound ∨
  is_ok (fst (fs_mkdirSync resolved (registered w))) = true.

(** The regular files found under a root directory: those of a walk that
    comes to its end. *)
Definition files_under {host : Host} (root : string) (w : World)
  : list string :=
  match fs_lookup root w with
  | DirectoryOf entries =>
      match findFilesRecursive root entries [] with
      | Ok files => files
      | Throw _ => []
      end
  | _ => []
  end.

(** The engine invocations made between two states. *)
Definition new_calls {host : Host} (before after : run_state)
  : list sd_config :=
  drop (length (engine_calls before)) (engine_calls after).

(** [obj] lies strictly below [doc]: it is reached from [doc] through
    one or more property or item steps. *)
Inductive below : json → json → Prop :=
| below_child doc key obj :
    (key, obj) ∈ Json.entries doc → below doc obj
| below_step doc key mid obj :
    (key, mid) ∈ Json.entries doc → below mid obj → below doc obj.

(** [obj] is in the tree of [doc]: the root or a value below it. *)
Definition in_tree (doc obj : json) : Prop := obj = doc ∨ below doc obj.

(** An object carrying a [value] key but no [$value] key. *)
Definition legacy_object (obj : json) : Prop :=
  Json.is_object obj = true ∧
  Json.has_key "value" obj = true ∧ Json.has_key "$value" obj = false.

(** The token nodes of a document, each with the keys leading to it:
    objects and arrays without a [$value] key are entered, an object
    with one is a token and is not entered. *)
Inductive token_at : json → list string → json → Prop :=
| token_here doc key obj :
    (key, obj) ∈ Json.entries doc →
    Json.is_object obj = true → Json.has_key "$value" obj = true →
    token_at doc [key] obj
| token_deeper doc key mid keys obj :
    (key, mid) ∈ Json.entries doc →
    Json.is_object mid = true → Json.has_key "$value" mid = false →
    token_at mid keys obj →
    token_at doc (key :: keys) obj.

(** The key lists of the token nodes, in the order of the walk. *)
Fixpoint token_keys (doc : json) : list (list string) :=
  match doc with
  | JObj props =>
      (fix each (l : list (string * json)) : list (list string) :=
         match l with
         | [] => []
         | kv :: rest =>
             let value := snd kv in
             (if Json.is_object value then
                if Json.has_key "$value" value then [[fst kv]]
                else map (cons (fst kv)) (token_keys value)
              else []) ++ each rest
         end) props
  | JArr items =>
      (fix each (l : list json) (i : nat) : list (list string) :=
         match l with
         | [] => []
         | value :: rest =>
             (if Json.is_object value then
                if Json.has_key "$value" value then [[Js.number_to_string i]]
                else map (cons (Js.number_to_string i)) (token_keys value)
              else []) ++ each rest (S i)
         end) items 0
  | _ => []
  end.

(** The token key lists found through one entry. *)
Definition keys_step (kv : string * json) : list (list string) :=
  let value := snd kv in
  if Json.is_object value then
    if Json.has_key "$value" value then [[fst kv]]
    else map (cons (fst kv)) (token_keys value)
  else [].

(** One turn of either loop of [transformTokens], with the selector that
    [sel] gives for the file. *)
Definition iteration {host : Host} (sel : string → string)
           (allFiles : list string) (resolvedOutputDir : string)
           (inputFile : string) (acc : Transform.accumulator)
  : M Transform.accumulator :=
  try_catch
    (let* r := Transform.processTokenFile inputFile allFiles
                 resolvedOutputDir (sel inputFile) in
     ret (Transform.recordResult r acc))
    (fun error => Transform.recordFailure inputFile error acc).

(** The variables after a turn whose file failed. *)
Definition skipped (acc : Transform.accumulator) : Transform.accumulator :=
  (fst acc,
   {| Transform.tokensProcessed := Transform.tokensProcessed (snd acc);
      Transform.tokensSkipped := S (Transform.tokensSkipped (snd acc));
      Transform.outputTokenCounts :=
        Transform.outputTokenCounts (snd acc) |}).

(** The sum of the token counts of a list of results. *)
Definition total_tokens (rs : list Transform.TransformResult) : nat :=
  foldr (fun r n => Transform.tokenCount r + n) 0 rs.

(** [error] is a failure that the engine leaves unhandled, for some
    configuration in some world. *)
Definition engine_ends {host : Host} (error : thrown) : Prop :=
  ∃ config w, fst (sd_build config w) = Unhandled error.

(** What holds of the variables when a loop over [files] is through:
    [new] are the results it has added, [calls] the invocations it has
    made. *)
Definition looped (files : list string) (acc acc' : Transform.accumulator)
           (new : list Transform.TransformResult) (calls : list sd_config)
  : Prop :=
  fst acc' = fst acc ++ new ∧
  Transform.tokensProcessed (snd acc')
  = Transform.tokensProcessed (snd acc) + total_tokens new ∧
  Transform.tokensSkipped (snd acc') + length new
  = Transform.tokensSkipped (snd acc) + length files ∧
  sublist (Transform.inputPath <$> new) files ∧
  length new ≤ length calls.

(** How a loop over [files] can end: it is through, or the process has
    ended in one of its engine invocations; it does not throw. *)
Definition loop_end {host : Host} (files : list string)
           (acc : Transform.accumulator) (calls : list sd_config)
           (c : completion Transform.accumulator) : Prop :=
  match c with
  | Settled (Ok acc') => ∃ new, looped files acc acc' new calls
  | Settled (Throw _) => False
  | Unhandled error => engine_ends error
  end.

(** What holds of the results and the statistics that a run returns. *)
Definition returned (d : DiscoveredFiles) (calls : list sd_config)
           (results : list Transform.TransformResult)
           (stats : Transform.ProcessingStats) : Prop :=
  Transform.tokensProcessed stats = total_tokens results ∧
  Transform.tokensSkipped stats + length results
  = length (outputFiles d) + length (themeFiles d) ∧
  sublist (Transform.inputPath <$> results) (outputFiles d ++ themeFiles d) ∧
  length results ≤ length calls.

End Spec.

(** ** More of JavaScript's string primitives *)

Module JsMore.

(** [s.includes(part)] *)
Fixpoint includes (s part : string) : bool :=
  String.prefix part s ||
  match s with
  | "" => false
  | String _ s' => includes s' part
  end.

(** The truth value of a string: the empty string is falsy. *)
Definition truthy (s : string) : bool := negb (String.eqb s "").

End JsMore.

(** ** [unzip]: the archive extractor *)

(** The further built-ins that [unzip] and [index] call: [os.tmpdir],
    [fs.statSync], [fs.mkdtempSync], [fs.rmSync], the archive library and
    the stack text of an error.  An [Archive] is what [new AdmZip(path)]
    holds once it has read the file. *)
Class System (host : Host) : Type := {
  Archive : Type;
  os_tmpdir : string;
  fs_statSync_isFile : string → World → result bool;
  fs_mkdtempSync : string → World → result string * World;
  fs_rmSync : string → World → result unit * World;
  AdmZip_new : string → World → result Archive;
  AdmZip_getEntries_length : Archive → result nat;
  AdmZip_extractAllTo : Archive → string → World → result unit * World;
  error_stack : thrown → option string
}.

Module Unzip.

Section WithHost.
Context {host : Host} {system : System host}.

(** [fs.statSync(p).isFile()] *)
Definition statSync_isFile (p : string) : M bool :=
  fun st => (fs_statSync_isFile p (world st), st).

(** [fs.mkdtempSync(prefix)] *)
Definition mkdtempSync (pre : string) : M string :=
  fun st =>
    let (r, w) := fs_mkdtempSync pre (world st) in
    (r, RunState w (console st) (engine_calls st)).

(** [fs.rmSync(p, { recursive: true, force: true })] *)
Definition rmSync (p : string) : M unit :=
  fun st =>
    let (r, w) := fs_rmSync p (world st) in
    (r, RunState w (console st) (engine_calls st)).

(** [new AdmZip(p)] *)
Definition newAdmZip (p : string) : M Archive :=
  fun st => (AdmZip_new p (world st), st).

(** [zip.extractAllTo(target, true)] *)
Definition extractAllTo (zip : Archive) (target : string) : M unit :=
  fun st =>
    let (r, w) := AdmZip_extractAllTo zip target (world st) in
    (r, RunState w (console st) (engine_calls st)).

(** The path that [extractZip] checks and opens. *)
Definition resolveZipPath (zipPath : string) : string :=
  if Js.startsWith zipPath "~"
  then path_join os_homedir (Js.slice1 zipPath)
  else path_resolve zipPath.

(** The error that the [catch] block of [extractZip] throws in place of
    the one it caught. *)
Definition extractionError (error : thrown) : thrown :=
  match error with
  | ThrownError _ message =>
      ThrownError "Error" ("Failed to extract zip file: " +:+ message)
  | ThrownOther =>
      ThrownError "Error" "Failed to extract zip file: Unknown error"
  end.

(** The [try] statement of [extractZip]: the archive at [resolvedPath]
    is opened and written out under [tempDir]; any failure removes
    [tempDir] and is thrown again as an extraction error. *)
Definition extraction (resolvedPath tempDir : string) : M string :=
  try_catch
    (run logger INFO ("Extracting: " +:+ resolvedPath) in
     let* zip := newAdmZip resolvedPath in
     let* entries_length := lift (AdmZip_getEntries_length zip) in
     if entries_length =? 0 then
       throw (ThrownError "Error" "Zip file is empty")
     else
     run logger DEBUG
           ("Found " +:+ Js.number_to_string entries_length
            +:+ " entries in zip") in
     run extractAllTo zip tempDir in
     run logger DEBUG ("Extraction complete to: " +:+ tempDir) in
     ret tempDir)
    (fun error =>
       run try_catch (rmSync tempDir) (fun _ => ret tt) in
       throw (extractionError error)).

(** [extractZip(zipPath)] *)
Definition extractZip (zipPath : string) : M string :=
  let resolvedPath := resolveZipPath zipPath in
  run logger DEBUG ("Resolved zip path: " +:+ resolvedPath) in
  let* present := existsSync resolvedPath in
  if negb present then
    throw (ThrownError "Error" ("Zip file not found: " +:+ resolvedPath))
  else
  let* isFile := statSync_isFile resolvedPath in
  if negb isFile then
    throw (ThrownError "Error" ("Path is not a file: " +:+ resolvedPath))
  else
  if negb (Js.endsWith (Js.toLowerCase resolvedPath) ".zip") then
    throw (ThrownError "Error"
             ("File does not have .zip extension: " +:+ resolvedPath))
  else
  let* tempDir := mkdtempSync (path_join os_tmpdir "design-tokens-") in
  run logger DEBUG ("Created temp directory: " +:+ tempDir) in
  extraction resolvedPath tempDir.

(** [cleanupTempDir(tempDir)] *)
Definition cleanupTempDir (tempDir : string) : M unit :=
  try_catch
    (let* present := existsSync tempDir in
     if present then
       run rmSync tempDir in
       logger DEBUG ("Cleaned up temp directory: " +:+ tempDir)
     else ret tt)
    (fun _ => logger WARN ("Failed to cleanup temp directory: " +:+ tempDir)).

End WithHost.

End Unzip.

(** How the extraction of the archive at [p] into [t] can fail from the
    world [w0]: with which error, and in which world. *)
Inductive extraction_failure {host : Host} {system : System host}
          (p t : string) (w0 : World) : thrown → World → Prop :=
| fails_opening cause :
    AdmZip_new p w0 = Throw cause →
    extraction_failure p t w0 cause w0
| fails_listing zip cause :
    AdmZip_new p w0 = Ok zip →
    AdmZip_getEntries_length zip = Throw cause →
    extraction_failure p t w0 cause w0
| fails_empty zip :
    AdmZip_new p w0 = Ok zip →
    AdmZip_getEntries_length zip = Ok 0 →
    extraction_failure p t w0 (ThrownError "Error" "Zip file is empty") w0
| fails_writing zip n cause w :
    AdmZip_new p w0 = Ok zip →
    AdmZip_getEntries_length zip = Ok n → 0 < n →
    AdmZip_extractAllTo zip t w0 = (Throw cause, w) →
    extraction_failure p t w0 cause w.

(** ** [logger]: the summary *)

Module Logger.

(** The argument of [logger.summary]; an output file is given by its path
    and its token count. *)
Record summary_data : Type := {
  referenceFiles : list string;
  inputFiles : list string;
  outputFiles : list (string * nat);
  tokensProcessed : nat;
  tokensSkipped : nat
}.

(** The lines that [logger.summary(data)] prints, one for each
    [console.log]; the colours are left out, so the two branches on
    [tokensSkipped] print the same text. *)
Definition summary (data : summary_data) : list string :=
  [""; "Summary:"]
  ++ (if 0 <? length (referenceFiles data)
      then "  Reference Files (no output):"
           :: map (fun file => "    - " +:+ file) (referenceFiles data)
      else [])
  ++ ["  Input Files:"]
  ++ map (fun file => "    - " +:+ file) (inputFiles data)
  ++ ["  Output Files:"]
  ++ map (fun o => "    - " +:+ fst o +:+ " ("
                   +:+ Js.number_to_string (snd o) +:+ " tokens)")
         (outputFiles data)
  ++ ["  Tokens Processed: " +:+ Js.number_to_string (tokensProcessed data)]
  ++ (if 0 <? tokensSkipped data
      then ["  Tokens Skipped: " +:+ Js.number_to_string (tokensSkipped data)]
      else ["  Tokens Skipped: " +:+ Js.number_to_string (tokensSkipped data)])
  ++ [""].

End Logger.

(** ** [index]: the command-line run *)

Module Cli.
Import Discover Transform Unzip.

Record CLIOptions : Type := {
  zipPath : string;
  outputDir : string
}.

(** How a run ends: [run] returns, or [process.exit(code)] ends the
    process on the spot. *)
Inductive outcome : Type :=
| Returned
| Exited (code : nat).

Section WithHost.
Context {host : Host} {system : System host}.

(** The state of a command-line run: the state of the computations above
    and the lines that [logger.newline], [logger.summary] and the details
    of [logger.error] write to the terminal without a level tag. *)
Record cli_state : Type := CliState {
  inner : run_state;
  terminal : list string
}.

Definition C (A : Type) : Type := cli_state → completion A * cli_state.

Definition cret {A} (a : A) : C A := fun s => (Ok a, s).

Definition cbind {A B} (m : C A) (k : A → C B) : C B :=
  fun s =>
    match m s with
    | (Settled (Ok a), s') => k a s'
    | (Settled (Throw e), s') => (Throw e, s')
    | (Unhandled e, s') => (Unhandled e, s')
    end.

(** A computation of the modules above, run in the command-line state. *)
Definition of_M {A} (m : M A) : C A :=
  fun s =>
    let (r, st) := m (inner s) in
    (r, CliState st (terminal s)).

(** [console.log(line)] and [console.error(line)] with a bare line. *)
Definition print (line : string) : C unit :=
  fun s => (Ok tt, CliState (inner s) (terminal s ++ [line])).

Definition print_all (lines : list string) : C unit :=
  fun s => (Ok tt, CliState (inner s) (terminal s ++ lines)).

End WithHost.

End Cli.

Notation "'let+' x ':=' m 'in' k" := (Cli.cbind m (fun x => k))
  (at level 10, x name, m at level 100, k at level 200,
   format "'[v' 'let+'  x  ':='  m  'in' '/' k ']'").
Notation "'then+' m 'in' k" := (Cli.cbind m (fun _ => k))
  (at level 10, m at level 100, k at level 200,
   format "'[v' 'then+'  m  'in' '/' k ']'").

Module Index.
Import Discover Transform Unzip Cli.

Section WithHost.
Context {host : Host} {system : System host}.

(** [logger.newline()] *)
Definition logger_newline : C unit := print "".

(** [logger.summary(data)] *)
Definition logger_summary (data : Logger.summary_data) : C unit :=
  print_all (Logger.summary data).

(** [logger.error(message, error)] with an [Error] object: the tagged
    line, the details and, when the error has one, its stack. *)
Definition logger_error_with (message : string) (error : thrown) : C unit :=
  then+ of_M (logger ERROR message) in
  then+ print ("  Details: " +:+ errorMessage error) in
  match error_stack error with
  | Some stack => print stack
  | None => cret tt
  end.

(** The object that [run] hands to [logger.summary]. *)
Definition summary_of (tempDir : string) (d : DiscoveredFiles)
           (results : list TransformResult) (stats : ProcessingStats)
  : Logger.summary_data :=
  {| Logger.referenceFiles :=
       map (fun f => getRelativePath f tempDir) (Discover.referenceFiles d);
     Logger.inputFiles :=
       map (fun f => getRelativePath f tempDir) (Discover.outputFiles d)
       ++ map (fun f => getRelativePath f tempDir) (themeFiles d);
     Logger.outputFiles :=
       map (fun r => (outputPath r, tokenCount r)) results;
     Logger.tokensProcessed := Transform.tokensProcessed stats;
     Logger.tokensSkipped := Transform.tokensSkipped stats |}.

(** The [try] block of [run(options)]; its value is [tempDir], which the
    [finally] block reads. *)
Definition try_block (options : CLIOptions) : C string :=
  let+ tempDir := of_M (extractZip (zipPath options)) in
  let+ discoveredFiles := of_M (discoverTokenFiles tempDir) in
  let totalFilesToProcess :=
    length (Discover.outputFiles discoveredFiles)
    + length (themeFiles discoveredFiles) in
  if totalFilesToProcess =? 0 then
    then+ of_M (logger WARN "No files to transform. Exiting.") in
    cret tempDir
  else
  let+ transformed :=
    of_M (transformTokens discoveredFiles (outputDir options)) in
  let results := fst transformed in
  let stats := snd transformed in
  then+ logger_newline in
  then+ logger_summary
          (summary_of tempDir discoveredFiles results stats) in
  then+ of_M (logger SUCCESS
                ("Generated " +:+ Js.number_to_string (length results)
                 +:+ " CSS file(s) in " +:+ outputDir options)) in
  cret tempDir.

(** The [catch] block of [run], up to its [process.exit(1)]. *)
Definition catch_block (error : thrown) : C unit :=
  match error with
  | ThrownError _ message =>
      then+ logger_error_with "Transformation failed" error in
      if JsMore.includes message "not found" then
        of_M (logger INFO "Hint: Check that the zip file path is correct")
      else if JsMore.includes message "No token files found" then
        of_M (logger INFO
                ("Hint: Token files must have .inp.json or "
                 +:+ ".ref.inp.json extension"))
      else if JsMore.includes message "Failed to extract" then
        of_M (logger INFO "Hint: Ensure the file is a valid zip archive")
      else cret tt
  | ThrownOther => of_M (logger ERROR "An unexpected error occurred")
  end.

(** The [finally] block of [run]. *)
Definition finally_block (tempDir : string) : C unit :=
  if JsMore.truthy tempDir then of_M (cleanupTempDir tempDir) else cret tt.

(** [run(options)] of [index] (the name [run] is taken by the notation
    for sequencing).  When the [try] block completes, with [tempDir]
    set by its first statement, the [finally] block runs and the function
    returns.  When it throws, the [catch] block runs up to
    [process.exit(1)], which ends the process there: the [finally] block
    is not reached.  When the process ends under the [try] block, neither
    block runs. *)
Definition runCli (options : CLIOptions) : C outcome :=
  fun s =>
    match try_block options s with
    | (Settled (Ok tempDir), s1) =>
        (then+ finally_block tempDir in cret Returned) s1
    | (Settled (Throw error), s1) =>
        (then+ catch_block error in cret (Exited 1)) s1
    | (Unhandled error, s1) => (Unhandled error, s1)
    end.

End WithHost.

End Index.

(** ** Further notions used in the statements *)

#[global] Instance log_level_eq_dec : EqDecision log_level.
Proof. solve_decision. Defined.

Module Notions.
Import Discover Tokens Transform.

(** [f] is the path of a regular file at some depth below the listing
    [entries] of [dir]: the directory names on the way and the file name
    are joined to [dir] one after the other. *)
Inductive reaches {host : Host} : string → list dirent → string → Prop :=
| reaches_file dir entries name :
    RegularFile name ∈ entries → reaches dir entries (path_join dir name)
| reaches_directory dir entries name below f :
    Directory name below ∈ entries →
    reaches (path_join dir name) below f →
    reaches dir entries f.

(** Some directory in or below the listing [entries] cannot be listed:
    [error] is what [readdirSync] throws for it. *)
Inductive blocked : list dirent → thrown → Prop :=
| blocked_here entries name error :
    Unreadable name error ∈ entries → blocked entries error
| blocked_below entries name below error :
    Directory name below ∈ entries →
    blocked below error →
    blocked entries error.

(** The error of the first directory, in the order of the walk, that
    cannot be listed. *)
Fixpoint unreadable_in (entry : dirent) : option thrown :=
  match entry with
  | Directory _ entries =>
      (fix first (es : list dirent) : option thrown :=
         match es with
         | [] => None
         | e :: rest =>
             match unreadable_in e with
             | Some error => Some error
             | None => first rest
             end
         end) entries
  | Unreadable _ error => Some error
  | _ => None
  end.

Fixpoint first_unreadable (entries : list dirent) : option thrown :=
  match entries with
  | [] => None
  | e :: rest =>
      match unreadable_in e with
      | Some error => Some error
      | None => first_unreadable rest
      end
  end.

(** The listing of a root directory; there is none for a path that is
    missing or is no directory. *)
Definition root_listing {host : Host} (root : string) (w : World)
  : list dirent :=
  match fs_lookup root w with
  | DirectoryOf entries => entries
  | _ => []
  end.

(** [f] is a regular file under the root, and [error] is the failure of
    some directory under the root to be listed. *)
Definition file_under {host : Host} (root : string) (w : World)
           (f : string) : Prop :=
  reaches root (root_listing root w) f.

Definition blocked_under {host : Host} (root : string) (w : World)
           (error : thrown) : Prop :=
  blocked (root_listing root w) error.

(** The base name of [f] matches one of the three patterns. *)
Definition token_file_name (f : string) : bool :=
  Js.regex_test REFERENCE_PATTERN (Path.basename f)
  || Js.regex_test THEME_PATTERN (Path.basename f)
  || Js.regex_test OUTPUT_PATTERN (Path.basename f).

(** The number of regular files in and below an entry. *)
Fixpoint regular_files (entry : dirent) : nat :=
  match entry with
  | RegularFile _ => 1
  | Directory _ entries =>
      (fix sum (es : list dirent) : nat :=
         match es with
         | [] => 0
         | e :: rest => regular_files e + sum rest
         end) entries
  | _ => 0
  end.

Definition regular_files_in (entries : list dirent) : nat :=
  foldr (fun e n => regular_files e + n) 0 entries.

(** The console lines written between two states, and the messages of
    those written at one level. *)
Definition new_lines {host : Host} (before after : run_state)
  : list (log_level * string) :=
  drop (length (console before)) (console after).

Definition at_level (level : log_level) (lines : list (log_level * string))
  : list string :=
  (List.filter (fun l => bool_decide (fst l = level)) lines).*2.

(** The map that [stats.outputTokenCounts.set] builds when it is applied
    for each result in turn. *)
Definition counts_of (results : list TransformResult) : gmap string nat :=
  fold_left (fun counts r => <[outputPath r := tokenCount r]> counts)
            results ∅.

(** What the walk of [findFilesRecursive] adds for one entry. *)
Definition visit_adds {host : Host} (f : string) (dir : string) (e : dirent) : Prop :=
  match e with
  | RegularFile name => f = path_join dir name
  | Directory name below => reaches (path_join dir name) below f
  | _ => False
  end.

(** The variables of [transformTokens] before the first file. *)
Definition no_results : accumulator :=
  ([], {| tokensProcessed := 0; tokensSkipped := 0;
          outputTokenCounts := ∅ |}).

End Notions.

(** ** Further sample worlds *)

Module Samples.

(** An archive in which an output file and a theme file share their
    stem. *)
Definition twins : Demo.demo_world :=
  Demo.DemoWorld
    (list_to_map [("/t/brand.inp.json", "core");
                  ("/t/themes/brand.theme.inp.json", "dark")])
    (list_to_map [("/t", [RegularFile "brand.inp.json";
                          Directory "themes"
                            [RegularFile "brand.theme.inp.json"];
                          OtherEntry "link.inp.json"]);
                  ("/out", [])]).

(** An archive that holds reference files only, and no output
    directory. *)
Definition references_only : Demo.demo_world :=
  Demo.DemoWorld
    (list_to_map [("/r/primitive.ref.inp.json", "dark");
                  ("/r/notes.txt", "text")])
    (list_to_map [("/r", [RegularFile "primitive.ref.inp.json";
                          RegularFile "notes.txt"])]).

(** A host on which no directory can be made. *)
Definition locked_host : Host :=
  Build_Host Demo.demo_world
             (fun dir name => dir +:+ "/" +:+ name)
             (fun p => p)
             (fun _ target => target)
             "/home/user"
             Demo.lookup
             (fun p w =>
                (Throw (ThrownError "Error"
                          ("EACCES: permission denied, mkdir '" +:+ p
                           +:+ "'")), w))
             Demo.read Demo.parse
             (fun _ _ w => w)
             Demo.build.

(** A directory with a token file and a sub-directory that cannot be
    listed. *)
Definition vault : Demo.demo_world :=
  Demo.DemoWorld
    (list_to_map [("/v/core.inp.json", "core")])
    (list_to_map
       [("/v", [RegularFile "core.inp.json";
                Unreadable "private"
                  (ThrownError "Error"
                     "EACCES: permission denied, scandir '/v/private'")])]).

(** An engine that loads every source when it is made, as Style
    Dictionary does: a source that cannot be read or parsed fails the
    loading, and nothing handles that failure. *)
Definition load (w : Demo.demo_world) (file : string) : result json :=
  match Demo.read file w with
  | Ok text => Demo.parse text
  | Throw error => Throw error
  end.

Fixpoint load_all (w : Demo.demo_world) (files : list string)
  : result unit :=
  match files with
  | [] => Ok tt
  | file :: rest =>
      match load w file with
      | Ok _ => load_all w rest
      | Throw error => Throw error
      end
  end.

Definition loading_build (config : sd_config) (w : Demo.demo_world)
  : completion unit * Demo.demo_world :=
  match load_all w (source config) with
  | Ok _ => (Settled (Ok tt), w)
  | Throw error => (Unhandled error, w)
  end.

Definition loading_host : Host :=
  Build_Host Demo.demo_world
             (fun dir name => dir +:+ "/" +:+ name)
             (fun p => p)
             (fun _ target => target)
             "/home/user"
             Demo.lookup Demo.mkdir Demo.read Demo.parse
             (fun _ _ w => w)
             loading_build.

(** An archive with a file that is not JSON beside a valid one, what
    discovery returns for it, and the state in which a run over it
    starts. *)
Definition mixed : Demo.demo_world :=
  Demo.DemoWorld
    (list_to_map [("/m/bad.inp.json", "{ not json");
                  ("/m/good.inp.json", "core")])
    (list_to_map [("/m", [RegularFile "bad.inp.json";
                          RegularFile "good.inp.json"]);
                  ("/out", [])]).

Definition mixed_found : Discover.DiscoveredFiles :=
  {| Discover.outputFiles := ["/m/bad.inp.json"; "/m/good.inp.json"];
     Discover.themeFiles := [];
     Discover.referenceFiles := [];
     Discover.allFiles := ["/m/bad.inp.json"; "/m/good.inp.json"] |}.

Definition mixed_start : @run_state loading_host :=
  @RunState loading_host mixed [] [].

(** What discovery returns for the two archives. *)
Definition twins_found : Discover.DiscoveredFiles :=
  {| Discover.outputFiles := ["/t/brand.inp.json"];
     Discover.themeFiles := ["/t/themes/brand.theme.inp.json"];
     Discover.referenceFiles := [];
     Discover.allFiles :=
       ["/t/themes/brand.theme.inp.json"; "/t/brand.inp.json"] |}.

Definition references_found : Discover.DiscoveredFiles :=
  {| Discover.outputFiles := [];
     Discover.themeFiles := [];
     Discover.referenceFiles := ["/r/primitive.ref.inp.json"];
     Discover.allFiles := ["/r/primitive.ref.inp.json"] |}.

(** What a run over the sample archive returns: [old.inp.json] is
    skipped. *)
Definition archive_results : list Transform.TransformResult :=
  [ {| Transform.outputPath := "/out/core.vars.gen.css";
       Transform.tokenCount := 1;
       Transform.inputPath := "/x/core.inp.json" |};
    {| Transform.outputPath := "/out/flat.vars.gen.css";
       Transform.tokenCount := 0;
       Transform.inputPath := "/x/flat.inp.json" |};
    {| Transform.outputPath := "/out/dark.vars.gen.css";
       Transform.tokenCount := 2;
       Transform.inputPath := "/x/themes/dark.theme.inp.json" |} ].

Definition archive_stats : Transform.ProcessingStats :=
  {| Transform.tokensProcessed := 3;
     Transform.tokensSkipped := 1;
     Transform.outputTokenCounts :=
       <["/out/dark.vars.gen.css" := 2]>
         (<["/out/flat.vars.gen.css" := 0]>
            {[ "/out/core.vars.gen.css" := 1 ]}) |}.

(** What a run over the archive of twins returns. *)
Definition twins_results : list Transform.TransformResult :=
  [ {| Transform.outputPath := "/out/brand.vars.gen.css";
       Transform.tokenCount := 1;
       Transform.inputPath := "/t/brand.inp.json" |};
    {| Transform.outputPath := "/out/brand.vars.gen.css";
       Transform.tokenCount := 2;
       Transform.inputPath := "/t/themes/brand.theme.inp.json" |} ].

Definition twins_stats : Transform.ProcessingStats :=
  {| Transform.tokensProcessed := 3;
     Transform.tokensSkipped := 0;
     Transform.outputTokenCounts := {[ "/out/brand.vars.gen.css" := 2 ]} |}.

(** The state in which a run starts on the locked host. *)
Definition locked_start : @run_state locked_host :=
  @RunState locked_host references_only [] [].

(** A document in the W3C format whose one token has a composite value:
    a dimension given by a number and a unit. *)
Definition doc_dimension : json :=
  JObj [("space",
         JObj [("small",
                JObj [("$type", JStr "dimension");
                      ("$value", JObj [("value", JNum "16");
                                       ("unit", JStr "px")])])])].

End Samples.

(** ** A small concrete system, for running the command-line definitions *)

Module Desk.

(** An archive is the list of its files, each with its text. *)
Definition archive : Type := list (string * string).

(** The archives of the demonstration, known by the text of the file
    that stands for them. *)
Definition contents (text : string) : option archive :=
  if String.eqb text "zip:tokens"
  then Some [("primitive.ref.inp.json", "dark"); ("core.inp.json", "core")]
  else if String.eqb text "zip:references"
  then Some [("primitive.ref.inp.json", "dark")]
  else if String.eqb text "zip:notes" then Some [("README.md", "text")]
  else if String.eqb text "zip:empty" then Some []
  else if String.eqb text "zip:mixed"
  then Some [("bad.inp.json", "{ not json"); ("good.inp.json", "core")]
  else None.

Definition open (p : string) (w : Demo.demo_world) : result archive :=
  match Demo.texts w !! p with
  | Some text =>
      match contents text with
      | Some a => Ok a
      | None =>
          Throw (ThrownError "Error"
                   "Invalid or unsupported zip format. No END header found")
      end
  | None => Throw (ThrownError "Error" "Invalid filename")
  end.

Definition isFile (p : string) (w : Demo.demo_world) : result bool :=
  match Demo.lookup p w with
  | NotFound =>
      Throw (ThrownError "Error"
               ("ENOENT: no such file or directory, stat '" +:+ p +:+ "'"))
  | NotDirectory => Ok true
  | DirectoryOf _ => Ok false
  end.

Definition mkdtemp (pre : string) (w : Demo.demo_world)
  : result string * Demo.demo_world :=
  let t := pre +:+ "a1b2c3" in
  (Ok t, Demo.DemoWorld (Demo.texts w) (<[t := []]> (Demo.listings w))).

(** Removal of a directory with the files directly in it. *)
Definition rm (p : string) (w : Demo.demo_world)
  : result unit * Demo.demo_world :=
  (Ok tt,
   Demo.DemoWorld
     (match Demo.listings w !! p with
      | Some entries =>
          foldr (fun e texts =>
                   match e with
                   | RegularFile name => delete (p +:+ "/" +:+ name) texts
                   | _ => texts
                   end) (Demo.texts w) entries
      | None => Demo.texts w
      end)
     (delete p (Demo.listings w))).

Definition extractAll (a : archive) (target : string) (w : Demo.demo_world)
  : result unit * Demo.demo_world :=
  (Ok tt,
   Demo.DemoWorld
     (foldr (fun kv texts => <[target +:+ "/" +:+ fst kv := snd kv]> texts)
            (Demo.texts w) a)
     (<[target := (fun kv => RegularFile (fst kv)) <$> a]>
        (Demo.listings w))).

Definition desk_system : System Demo.demo_host :=
  Build_System Demo.demo_host archive "/tmp" isFile mkdtemp rm open
               (fun a => Ok (length a)) extractAll
               (fun e => Some ("Error: " +:+ Transform.errorMessage e)).

(** A home directory with archives in it, and an output directory. *)
Definition home : Demo.demo_world :=
  Demo.DemoWorld
    (list_to_map [("/home/user/tokens.zip", "zip:tokens");
                  ("/home/user/references.ZIP", "zip:references");
                  ("/home/user/notes.zip", "zip:notes");
                  ("/home/user/empty.zip", "zip:empty");
                  ("/home/user/tokens.tar", "zip:tokens")])
    (list_to_map [("/home/user", [RegularFile "tokens.zip";
                                  RegularFile "references.ZIP";
                                  RegularFile "notes.zip";
                                  RegularFile "empty.zip";
                                  RegularFile "tokens.tar"]);
                  ("/out", [])]).

(** The state in which a command-line run starts. *)
Definition start : @Cli.cli_state Demo.demo_host :=
  @Cli.CliState Demo.demo_host (Demo.start home) [].




Definition options (zip : string) : Cli.CLIOptions :=
  {| Cli.zipPath := zip; Cli.outputDir := "/out" |}.

End Desk.


(* ================================================================== *)
(** * Part II: properties                                              *)
(* ================================================================== *)

(** ** Strings *)

Module JsFacts.
Import Spec.

Lemma units_app a b : units (a +:+ b) = units a ++ units b.
Proof. induction a as [|c a IH]; simpl; [done | by rewrite IH]. Qed.

Lemma units_inj a b : units a = units b → a = b.
Proof.
  intros E. rewrite <- (String.string_of_list_ascii_of_string a).
  rewrite E. apply String.string_of_list_ascii_of_string.
Qed.

Lemma append_assoc a b c : (a +:+ b) +:+ c = a +:+ (b +:+ c).
Proof. apply units_inj. rewrite !units_app. by rewrite <- app_assoc. Qed.

Lemma append_empty_r a : a +:+ "" = a.
Proof. apply units_inj. rewrite units_app. simpl. apply app_nil_r. Qed.

Lemma append_inv_tail a b s : a +:+ s = b +:+ s → a = b.
Proof.
  intros E. apply units_inj. apply (f_equal units) in E.
  rewrite !units_app in E. by apply app_inv_tail in E.
Qed.

Lemma length_append a b :
  String.length (a +:+ b) = String.length a + String.length b.
Proof. induction a as [|c a IH]; simpl; [done | by rewrite IH]. Qed.

(** A string and a strictly longer one differ. *)
Lemma longer_neq c y s : String c y +:+ s ≠ s.
Proof.
  intros E. apply (f_equal String.length) in E.
  rewrite length_append in E. simpl in E. lia.
Qed.

Lemma literal_true lit t : Js.literal lit t = true ↔ t = lit.
Proof. unfold Js.literal. apply String.eqb_eq. Qed.

Lemma literal_longer lit c y : Js.literal lit (String c y +:+ lit) = false.
Proof.
  destruct (Js.literal lit (String c y +:+ lit)) eqn:E; [|done].
  apply literal_true in E. by apply longer_neq in E.
Qed.

(** A start position matches as soon as the rest is in the language. *)
Lemma regex_test_app L x suf :
  L suf = true → Js.regex_test L (x +:+ suf) = true.
Proof.
  intros HL. induction x as [|c x IH]; simpl.
  - destruct suf; simpl; rewrite HL; done.
  - rewrite IH. apply orb_true_r.
Qed.

Lemma regex_test_split L s :
  Js.regex_test L s = true ↔ ∃ x suf, s = x +:+ suf ∧ L suf = true.
Proof.
  split.
  - induction s as [|c s IH]; simpl.
    + rewrite orb_false_r. intros H. by exists "", "".
    + intros [H|H]%orb_true_iff.
      * by exists "", (String c s).
      * destruct (IH H) as (x & suf & -> & HL). by exists (String c x), suf.
  - intros (x & suf & -> & HL). by apply regex_test_app.
Qed.

Lemma regex_test_literal lit s :
  Js.regex_test (Js.literal lit) s = true ↔ ∃ x, s = x +:+ lit.
Proof.
  rewrite regex_test_split. split.
  - intros (x & suf & -> & ->%literal_true). by exists x.
  - intros [x ->]. exists x, lit. split; [done | by apply literal_true].
Qed.

(** Removal of the leftmost match: when the suffix [suf] is in the
    language and no longer suffix of the input is. *)
Lemma regex_remove_app L x suf :
  L suf = true →
  (∀ x0 c y, x = x0 +:+ String c y → L (String c y +:+ suf) = false) →
  Js.regex_remove L (x +:+ suf) = x.
Proof.
  intros HL. induction x as [|c x IH]; intros Hlong.
  - simpl. destruct suf; simpl; by rewrite HL.
  - change (String c x +:+ suf) with (String c (x +:+ suf)).
    cbn [Js.regex_remove].
    change (String c (x +:+ suf)) with (String c x +:+ suf).
    rewrite (Hlong "" c x eq_refl). f_equal. apply IH.
    intros x0 c' y ->. by apply (Hlong (String c x0) c' y).
Qed.

Lemma regex_remove_literal lit x :
  Js.regex_remove (Js.literal lit) (x +:+ lit) = x.
Proof.
  apply regex_remove_app; [by apply literal_true|].
  intros x0 c y _. apply literal_longer.
Qed.

Lemma regex_remove_no_match L s :
  Js.regex_test L s = false → Js.regex_remove L s = s.
Proof.
  induction s as [|c s IH]; simpl.
  - intros [H _]%orb_false_iff. by rewrite H.
  - intros [H1 H2]%orb_false_iff. rewrite H1. f_equal. by apply IH.
Qed.

End JsFacts.

(** ** Computations *)

Module RunFacts.
Section WithHost.
Context {host : Host}.

Lemma bind_ok {A B} (m : M A) (k : A → M B) st a st' :
  m st = (Ok a, st') → bind m k st = k a st'.
Proof. unfold bind. by intros ->. Qed.

Lemma bind_throw {A B} (m : M A) (k : A → M B) st e st' :
  m st = (Throw e, st') → bind m k st = (Throw e, st').
Proof. unfold bind. by intros ->. Qed.

Lemma bind_unhandled {A B} (m : M A) (k : A → M B) st e st' :
  m st = (Unhandled e, st') → bind m k st = (Unhandled e, st').
Proof. unfold bind. by intros ->. Qed.

Lemma bind_cong {A B} (m : M A) (k1 k2 : A → M B) st :
  (∀ a st', m st = (Ok a, st') → k1 a st' = k2 a st') →
  bind m k1 st = bind m k2 st.
Proof.
  intros H. unfold bind. destruct (m st) as [[[a|e]|e] st']; [|done..].
  by apply H.
Qed.

Lemma bind_logger {B} level message (k : unit → M B) st :
  bind (logger level message) k st =
  k tt (RunState (world st) (console st ++ [(level, message)])
                 (engine_calls st)).
Proof. reflexivity. Qed.

Lemma bind_ret {A B} (a : A) (k : A → M B) st : bind (ret a) k st = k a st.
Proof. reflexivity. Qed.

Lemma bind_lift_ok {A B} (a : A) (k : A → M B) st :
  bind (lift (Ok a)) k st = k a st.
Proof. reflexivity. Qed.

Lemma bind_lift_throw {A B} e (k : A → M B) st :
  bind (lift (Throw e)) k st = (Throw e, st).
Proof. reflexivity. Qed.

Lemma for_of_nil {A S} (body : A → S → M S) s st :
  for_of [] body s st = (Ok s, st).
Proof. reflexivity. Qed.

Lemma for_of_cons {A S} x xs (body : A → S → M S) s st :
  for_of (x :: xs) body s st = bind (body x s) (for_of xs body) st.
Proof. reflexivity. Qed.

(** The loop goes on with the rest of the list from where the body
    left the variables and the state. *)
Lemma for_of_continue {A S} x xs (body : A → S → M S) s st s' st' :
  body x s st = (Ok s', st') →
  for_of (x :: xs) body s st = for_of xs body s' st'.
Proof. intros H. rewrite for_of_cons. by apply bind_ok. Qed.

Lemma for_of_app {A S} xs ys (body : A → S → M S) s st :
  for_of (xs ++ ys) body s st = bind (for_of xs body s) (for_of ys body) st.
Proof.
  revert s st. induction xs as [|x xs IH]; intros s st; simpl.
  - reflexivity.
  - unfold bind in *. destruct (body x s st) as [[[s'|e]|e] st']; [|done..].
    apply IH.
Qed.

(** A loop whose body only logs only logs. *)
Lemma for_of_logger {A} (xs : list A) (line : A → string) level st :
  ∃ lines,
    for_of xs (fun x (_ : unit) => logger level (line x)) tt st =
    (Ok tt, RunState (world st) (console st ++ lines) (engine_calls st)).
Proof.
  revert st. induction xs as [|x xs IH]; intros st.
  - exists []. rewrite app_nil_r. by destruct st.
  - rewrite for_of_cons, bind_logger.
    destruct (IH (RunState (world st) (console st ++ [(level, line x)])
                           (engine_calls st))) as [lines ->].
    exists ((level, line x) :: lines). simpl. by rewrite <- app_assoc.
Qed.

End WithHost.
End RunFacts.

(** ** Discovery *)

Module DiscoverFacts.
Import Discover Spec JsFacts RunFacts.

(** *** Patterns on names *)

Lemma theme_name_matches X :
  Js.regex_test THEME_PATTERN (X +:+ ".theme.inp.json") = true.
Proof. apply regex_test_literal. by exists X. Qed.

Lemma reference_name_matches X :
  Js.regex_test REFERENCE_PATTERN (X +:+ ".ref.inp.json") = true.
Proof. apply regex_test_literal. by exists X. Qed.

Lemma reference_name_matches_output X :
  Js.regex_test OUTPUT_PATTERN (X +:+ ".ref.inp.json") = true.
Proof.
  apply regex_test_literal. exists (X +:+ ".ref"). by rewrite append_assoc.
Qed.

Lemma theme_name_matches_output X :
  Js.regex_test OUTPUT_PATTERN (X +:+ ".theme.inp.json") = true.
Proof.
  apply regex_test_literal. exists (X +:+ ".theme"). by rewrite append_assoc.
Qed.

(** No name ends both in [.theme.inp.json] and in [.ref.inp.json]. *)
Lemma theme_name_not_reference X :
  Js.regex_test REFERENCE_PATTERN (X +:+ ".theme.inp.json") = false.
Proof.
  destruct (Js.regex_test _ _) eqn:E; [|done].
  apply regex_test_literal in E as [x E].
  apply (f_equal units) in E. rewrite !units_app in E.
  change (units ".theme.inp.json")
    with (units ".t" ++ units "heme.inp.json") in E.
  change (units ".ref.inp.json") with ([] ++ units ".ref.inp.json") in E.
  rewrite !app_assoc in E.
  apply app_inj_2 in E as [_ E]; [discriminate | done].
Qed.

Lemma bucket_of_reference X :
  bucket_of (X +:+ ".ref.inp.json") = Some Reference.
Proof. unfold bucket_of. by rewrite reference_name_matches. Qed.

Lemma bucket_of_theme X : bucket_of (X +:+ ".theme.inp.json") = Some Theme.
Proof.
  unfold bucket_of.
  by rewrite theme_name_not_reference, theme_name_matches.
Qed.

Lemma bucket_of_output X :
  Js.regex_test REFERENCE_PATTERN (X +:+ ".inp.json") = false →
  Js.regex_test THEME_PATTERN (X +:+ ".inp.json") = false →
  bucket_of (X +:+ ".inp.json") = Some Output.
Proof.
  intros H1 H2. unfold bucket_of. rewrite H1, H2.
  assert (Js.regex_test OUTPUT_PATTERN (X +:+ ".inp.json") = true) as ->;
    [|done].
  apply regex_test_literal. by exists X.
Qed.

(** *** File-name transforms *)

Lemma output_name_of_theme inputPath X :
  Path.basename inputPath = X +:+ ".theme.inp.json" →
  getOutputFileName inputPath = X +:+ ".vars.gen.css".
Proof.
  intros E. unfold getOutputFileName. rewrite E. f_equal.
  apply regex_remove_app; [done|].
  intros x0 c y _. unfold OUTPUT_NAME_PATTERN.
  apply orb_false_iff. split.
  - apply (literal_longer ".theme.inp.json").
  - apply String.eqb_neq. intros E'.
    change ".theme.inp.json" with (".theme" +:+ ".inp.json") in E'.
    rewrite <- append_assoc in E'. by apply longer_neq in E'.
Qed.

Lemma output_name_of_plain inputPath X :
  Path.basename inputPath = X +:+ ".inp.json" →
  Js.regex_test THEME_PATTERN (X +:+ ".inp.json") = false →
  getOutputFileName inputPath = X +:+ ".vars.gen.css".
Proof.
  intros E Hth. unfold getOutputFileName. rewrite E. f_equal.
  apply regex_remove_app; [done|].
  intros x0 c y ->. unfold OUTPUT_NAME_PATTERN.
  apply orb_false_iff. split.
  - apply String.eqb_neq. intros E'.
    change ".theme.inp.json" with (".theme" +:+ ".inp.json") in E'.
    apply append_inv_tail in E'.
    rewrite E', append_assoc in Hth.
    change (".theme" +:+ ".inp.json") with ".theme.inp.json" in Hth.
    by rewrite theme_name_matches in Hth.
  - apply (literal_longer ".inp.json").
Qed.

Lemma theme_name_of_theme inputPath X :
  Path.basename inputPath = X +:+ ".theme.inp.json" →
  getThemeName inputPath = X.
Proof.
  intros E. unfold getThemeName. rewrite E. apply regex_remove_literal.
Qed.

(** *** Base names *)

Lemma basename_from_plain last cur p :
  "/"%char ∉ units p →
  Path.basename_from last cur p
  = if String.eqb (cur +:+ p) "" then last else cur +:+ p.
Proof.
  revert cur. induction p as [|c p IH]; intros cur Hp; simpl.
  - by rewrite append_empty_r.
  - simpl in Hp. apply not_elem_of_cons in Hp as [Hc Hp].
    destruct (Ascii.eqb_spec c "/") as [->|_]; [done|].
    rewrite IH by done. by rewrite append_assoc.
Qed.

(** A name without a slash is its own base name. *)
Lemma basename_plain name : "/"%char ∉ units name → Path.basename name = name.
Proof.
  intros H. unfold Path.basename. rewrite basename_from_plain by done.
  change ("" +:+ name) with name.
  destruct (String.eqb_spec name "") as [->|_]; done.
Qed.

End DiscoverFacts.

(** ** The directory walk *)

Module WalkTree.
Import Discover Spec Notions.

Lemma dirent_induction (P : dirent → Prop) :
  (∀ name, P (RegularFile name)) →
  (∀ name entries, Forall P entries → P (Directory name entries)) →
  (∀ name error, P (Unreadable name error)) →
  (∀ name, P (OtherEntry name)) →
  ∀ e, P e.
Proof.
  intros Hfile Hdir Hunreadable Hother. fix IH 1.
  intros [name|name entries|name error|name];
    [apply Hfile| |apply Hunreadable|apply Hother].
  apply Hdir. revert entries. fix IHentries 1.
  intros [|e entries]; constructor; [apply IH | apply IHentries].
Qed.

Section WithHost.
Context {host : Host}.

Lemma visit_directory dir name entries files :
  visit_entry dir (Directory name entries) files
  = findFilesRecursive (path_join dir name) entries files.
Proof.
  simpl. revert files. induction entries as [|e es IH]; intros files; [done|].
  simpl. destruct (visit_entry _ e files); [apply IH|done].
Qed.

Lemma findFilesRecursive_cons dir e es files :
  findFilesRecursive dir (e :: es) files
  = match visit_entry dir e files with
    | Ok files' => findFilesRecursive dir es files'
    | Throw error => Throw error
    end.
Proof. done. Qed.

Lemma findFilesRecursive_app dir es1 es2 files :
  findFilesRecursive dir (es1 ++ es2) files
  = match findFilesRecursive dir es1 files with
    | Ok files' => findFilesRecursive dir es2 files'
    | Throw error => Throw error
    end.
Proof.
  revert files. induction es1 as [|e es IH]; intros files; [done|].
  simpl. destruct (visit_entry dir e files); [apply IH|done].
Qed.

(** The accumulator is only ever extended, and whether the walk comes to
    its end does not depend on it. *)
Lemma walk_acc es :
  Forall (fun e => ∀ dir files,
            visit_entry dir e files
            = match visit_entry dir e [] with
              | Ok found => Ok (files ++ found)
              | Throw error => Throw error
              end) es →
  ∀ dir files,
    findFilesRecursive dir es files
    = match findFilesRecursive dir es [] with
      | Ok found => Ok (files ++ found)
      | Throw error => Throw error
      end.
Proof.
  induction 1 as [|e es He _ IHes]; intros dir files.
  - simpl. by rewrite app_nil_r.
  - rewrite !findFilesRecursive_cons, (He dir files).
    destruct (visit_entry dir e []) as [found|error]; [|done].
    rewrite IHes, (IHes dir found).
    destruct (findFilesRecursive dir es []); [|done].
    by rewrite app_assoc.
Qed.

Lemma visit_entry_acc e : ∀ dir files,
  visit_entry dir e files
  = match visit_entry dir e [] with
    | Ok found => Ok (files ++ found)
    | Throw error => Throw error
    end.
Proof.
  induction e as [name|name entries IH|name error|name]
    using dirent_induction; intros dir files.
  - done.
  - rewrite !visit_directory. by apply walk_acc.
  - done.
  - simpl. by rewrite app_nil_r.
Qed.

Lemma findFilesRecursive_acc dir entries files :
  findFilesRecursive dir entries files
  = match findFilesRecursive dir entries [] with
    | Ok found => Ok (files ++ found)
    | Throw error => Throw error
    end.
Proof.
  apply walk_acc, Forall_forall. intros e _. apply visit_entry_acc.
Qed.

(** What a walk that comes to its end has found. *)
Lemma elem_of_walk f es :
  Forall (fun e => ∀ dir found,
            visit_entry dir e [] = Ok found →
            (f ∈ found ↔ visit_adds f dir e)) es →
  ∀ dir found,
    findFilesRecursive dir es [] = Ok found →
    (f ∈ found ↔ reaches dir es f).
Proof.
  induction 1 as [|e es He _ IHes]; intros d found.
  - intros [= <-]. split; [by intros ?%elem_of_nil|].
    inversion 1 as [? ? ? Hin|? ? ? ? ? Hin]; by apply elem_of_nil in Hin.
  - rewrite findFilesRecursive_cons.
    destruct (visit_entry d e []) as [here|error] eqn:Hv; [|done].
    rewrite findFilesRecursive_acc.
    destruct (findFilesRecursive d es []) as [rest|error] eqn:Hw; [|done].
    intros [= <-]. rewrite elem_of_app.
    rewrite (IHes d rest Hw), (He d here Hv). split.
    + intros [Hhere|Hrest].
      * destruct e as [n|n b|n error|n]; [| |done..].
        -- simpl in Hhere. subst f. apply reaches_file. by left.
        -- eapply reaches_directory; [by left|done].
      * inversion Hrest as [? ? n Hin|? ? n b ? Hin Hb]; subst.
        -- apply reaches_file. by right.
        -- eapply reaches_directory; [by right|done].
    + inversion 1 as [? ? n Hin|? ? n b ? Hin Hb]; subst.
      * apply elem_of_cons in Hin as [<-|Hin]; [by left|].
        right. by apply reaches_file.
      * apply elem_of_cons in Hin as [<-|Hin]; [by left|].
        right. by eapply reaches_directory.
Qed.

Lemma elem_of_visit f e :
  ∀ dir found,
    visit_entry dir e [] = Ok found → (f ∈ found ↔ visit_adds f dir e).
Proof.
  induction e as [name|name entries IH|name error|name]
    using dirent_induction; intros dir found.
  - simpl. intros [= <-]. by rewrite list_elem_of_singleton.
  - rewrite visit_directory. by apply elem_of_walk.
  - done.
  - simpl. intros [= <-]. split; [by intros ?%elem_of_nil|done].
Qed.

Lemma elem_of_findFilesRecursive dir entries found f :
  findFilesRecursive dir entries [] = Ok found →
  (f ∈ found ↔ reaches dir entries f).
Proof.
  apply elem_of_walk, Forall_forall. intros e _. apply elem_of_visit.
Qed.

Lemma length_walk es :
  Forall (fun e => ∀ dir found,
            visit_entry dir e [] = Ok found →
            length found = regular_files e) es →
  ∀ dir found,
    findFilesRecursive dir es [] = Ok found →
    length found = regular_files_in es.
Proof.
  induction 1 as [|e es He _ IHes]; intros d found.
  - by intros [= <-].
  - rewrite findFilesRecursive_cons.
    destruct (visit_entry d e []) as [here|error] eqn:Hv; [|done].
    rewrite findFilesRecursive_acc.
    destruct (findFilesRecursive d es []) as [rest|error] eqn:Hw; [|done].
    intros [= <-]. rewrite length_app. simpl.
    by rewrite (He d here Hv), (IHes d rest Hw).
Qed.

Lemma length_visit e :
  ∀ dir found,
    visit_entry dir e [] = Ok found → length found = regular_files e.
Proof.
  induction e as [name|name entries IH|name error|name]
    using dirent_induction; intros dir found.
  - by intros [= <-].
  - rewrite visit_directory. intros Hw.
    rewrite (length_walk entries IH _ _ Hw). clear.
    induction entries as [|e es IHes]; [done|]. simpl. by rewrite IHes.
  - done.
  - by intros [= <-].
Qed.

Lemma length_findFilesRecursive dir entries found :
  findFilesRecursive dir entries [] = Ok found →
  length found = regular_files_in entries.
Proof.
  apply length_walk, Forall_forall. intros e _. apply length_visit.
Qed.

(** The walk throws what [readdirSync] throws for a directory in or
    below the listing, and it does throw when there is such a
    directory. *)
Lemma walk_throws es :
  Forall (fun e => ∀ dir files error,
            visit_entry dir e files = Throw error →
            match e with
            | Directory _ below => blocked below error
            | Unreadable _ error' => error = error'
            | _ => False
            end) es →
  ∀ dir files error,
    findFilesRecursive dir es files = Throw error → blocked es error.
Proof.
  induction 1 as [|e es He _ IHes]; intros d files error; [done|].
  rewrite findFilesRecursive_cons.
  destruct (visit_entry d e files) as [files'|error'] eqn:Hv.
  - intros Hw. apply IHes in Hw.
    inversion Hw as [? n ? Hin|? n b ? Hin Hb]; subst.
    + eapply blocked_here. by right.
    + eapply blocked_below; [by right|done].
  - intros [= <-]. apply He in Hv.
    destruct e as [n|n b|n error|n]; [done| | |done].
    + eapply blocked_below; [by left|done].
    + subst error'. eapply blocked_here. by left.
Qed.

Lemma visit_throws e :
  ∀ dir files error,
    visit_entry dir e files = Throw error →
    match e with
    | Directory _ below => blocked below error
    | Unreadable _ error' => error = error'
    | _ => False
    end.
Proof.
  induction e as [name|name entries IH|name error'|name]
    using dirent_induction; intros dir files error.
  - done.
  - rewrite visit_directory. by apply walk_throws.
  - by intros [= <-].
  - done.
Qed.

Lemma findFilesRecursive_throws dir entries files error :
  findFilesRecursive dir entries files = Throw error → blocked entries error.
Proof.
  apply walk_throws, Forall_forall. intros e _. apply visit_throws.
Qed.

Lemma findFilesRecursive_blocked entries error :
  blocked entries error →
  ∀ dir files, ∃ error',
    findFilesRecursive dir entries files = Throw error'.
Proof.
  induction 1 as [entries name error Hin|entries name below error Hin _ IH];
    intros dir files.
  - apply list_elem_of_split in Hin as (es1 & es2 & ->).
    rewrite findFilesRecursive_app.
    destruct (findFilesRecursive dir es1 files); by eauto.
  - apply list_elem_of_split in Hin as (es1 & es2 & ->).
    rewrite findFilesRecursive_app.
    destruct (findFilesRecursive dir es1 files) as [files'|]; [|by eauto].
    rewrite findFilesRecursive_cons, visit_directory.
    destruct (IH (path_join dir name) files') as [error' ->]. by eauto.
Qed.

(** The error thrown is that of the first directory, in the order of the
    walk, that cannot be listed. *)
Lemma unreadable_directory name entries :
  unreadable_in (Directory name entries) = first_unreadable entries.
Proof.
  simpl. induction entries as [|e es IH]; [done|].
  simpl. by rewrite IH.
Qed.

Lemma walk_first_unreadable es :
  Forall (fun e => ∀ dir files,
            match visit_entry dir e files with
            | Ok _ => unreadable_in e = None
            | Throw error => unreadable_in e = Some error
            end) es →
  ∀ dir files,
    match findFilesRecursive dir es files with
    | Ok _ => first_unreadable es = None
    | Throw error => first_unreadable es = Some error
    end.
Proof.
  induction 1 as [|e es He _ IHes]; intros dir files; [done|].
  rewrite findFilesRecursive_cons. specialize (He dir files). simpl.
  destruct (visit_entry dir e files) as [files'|error]; rewrite He; [|done].
  apply IHes.
Qed.

Lemma visit_first_unreadable e : ∀ dir files,
  match visit_entry dir e files with
  | Ok _ => unreadable_in e = None
  | Throw error => unreadable_in e = Some error
  end.
Proof.
  induction e as [name|name entries IH|name error|name]
    using dirent_induction; intros dir files; [done| |done..].
  rewrite visit_directory, unreadable_directory.
  by apply walk_first_unreadable.
Qed.

Lemma findFilesRecursive_first_unreadable dir entries files :
  match findFilesRecursive dir entries files with
  | Ok _ => first_unreadable entries = None
  | Throw error => first_unreadable entries = Some error
  end.
Proof.
  apply walk_first_unreadable, Forall_forall. intros e _.
  apply visit_first_unreadable.
Qed.

Lemma first_unreadable_blocked entries error :
  first_unreadable entries = Some error → blocked entries error.
Proof using host.
  intros Hfirst.
  pose proof (findFilesRecursive_first_unreadable "" entries []) as Hw.
  destruct (findFilesRecursive "" entries []) as [found|error'] eqn:E;
    [congruence|].
  assert (error' = error) as -> by congruence.
  by apply findFilesRecursive_throws in E.
Qed.

Lemma first_unreadable_free entries :
  first_unreadable entries = None ↔ ∀ error, ¬ blocked entries error.
Proof using host.
  split.
  - intros Hnone error Hb.
    destruct (findFilesRecursive_blocked entries error Hb "" [])
      as [error' Hw].
    pose proof (findFilesRecursive_first_unreadable "" entries []) as Hf.
    rewrite Hw in Hf. congruence.
  - intros Hfree. destruct (first_unreadable entries) as [error|] eqn:E;
      [|done].
    by apply first_unreadable_blocked, Hfree in E.
Qed.

(** The walk comes to its end exactly when every directory can be
    listed. *)
Lemma findFilesRecursive_returns dir entries files :
  (∀ error, ¬ blocked entries error) →
  ∃ found,
    findFilesRecursive dir entries [] = Ok found ∧
    findFilesRecursive dir entries files = Ok (files ++ found).
Proof.
  intros Hfree. rewrite (findFilesRecursive_acc dir entries files).
  destruct (findFilesRecursive dir entries []) as [found|error] eqn:Hw.
  - by exists found.
  - by apply findFilesRecursive_throws, Hfree in Hw.
Qed.

End WithHost.
End WalkTree.

Module DiscoverRun.
Import Discover Spec JsFacts RunFacts DiscoverFacts.

Section WithHost.
Context {host : Host}.

Lemma categorize_step file b st :
  ∃ lines,
    categorize file b st =
    (Ok (Buckets
           (b_reference b ++ List.filter (in_bucket Reference) [file])
           (b_theme b ++ List.filter (in_bucket Theme) [file])
           (b_output b ++ List.filter (in_bucket Output) [file])),
     RunState (world st) (console st ++ lines) (engine_calls st)).
Proof.
  unfold categorize, in_bucket, bucket_of. simpl.
  destruct (Js.regex_test REFERENCE_PATTERN _);
    [|destruct (Js.regex_test THEME_PATTERN _);
      [|destruct (Js.regex_test OUTPUT_PATTERN _)]];
    rewrite ?bind_logger; unfold ret; rewrite ?app_nil_r;
    try (eexists [_]; reflexivity).
  exists []. destruct b, st. simpl. by rewrite app_nil_r.
Qed.

Lemma categorize_loop files b st :
  ∃ lines,
    for_of files categorize b st =
    (Ok (Buckets
           (b_reference b ++ List.filter (in_bucket Reference) files)
           (b_theme b ++ List.filter (in_bucket Theme) files)
           (b_output b ++ List.filter (in_bucket Output) files)),
     RunState (world st) (console st ++ lines) (engine_calls st)).
Proof.
  revert b st. induction files as [|f files IH]; intros b st.
  - exists []. destruct b, st. simpl. by rewrite !app_nil_r.
  - destruct (categorize_step f b st) as [l1 H1].
    rewrite (for_of_continue _ _ _ _ _ _ _ H1).
    edestruct IH as [l2 ->]. exists (l1 ++ l2). simpl.
    rewrite <- !app_assoc.
    by destruct (in_bucket Reference f), (in_bucket Theme f),
                (in_bucket Output f).
Qed.

(** Discovery throws when it finds no token file at all. *)
Lemma discover_throws dir st :
  allFiles (classified (files_under dir (world st))) = [] →
  ∃ e st', discoverTokenFiles dir st = (Throw e, st').
Proof.
  unfold files_under, discoverTokenFiles. rewrite bind_logger.
  unfold existsSync, readdirSync, read_world, bind at 1. simpl.
  destruct (fs_lookup dir (world st)) as [| |entries] eqn:Hl; simpl.
  - intros _. eauto.
  - intros _. unfold bind. simpl. rewrite Hl. eauto.
  - unfold bind at 1. simpl. rewrite Hl.
    destruct (findFilesRecursive dir entries []) as [found|e] eqn:Hw.
    + rewrite bind_lift_ok, bind_logger.
      intros Hnone.
      edestruct (categorize_loop found (Buckets [] [] [])) as [lines H].
      rewrite (bind_ok _ _ _ _ _ H). simpl.
      apply app_eq_nil in Hnone as [-> [-> ->]%app_eq_nil]. simpl. eauto.
    + intros _. rewrite bind_lift_throw. eauto.
Qed.

(** Otherwise it returns the classified files and leaves the world and
    the invocation record as they were. *)
Lemma discover_returns dir st :
  allFiles (classified (files_under dir (world st))) ≠ [] →
  ∃ lines,
    discoverTokenFiles dir st =
    (Ok (classified (files_under dir (world st))),
     RunState (world st) (console st ++ lines) (engine_calls st)).
Proof.
  unfold files_under, discoverTokenFiles. rewrite bind_logger.
  unfold existsSync, readdirSync, read_world, bind at 1. simpl.
  destruct (fs_lookup dir (world st)) as [| |entries] eqn:Hl; simpl;
    [done..|].
  unfold bind at 1. simpl. rewrite Hl.
  destruct (findFilesRecursive dir entries []) as [found|e] eqn:Hw; [|done].
  rewrite bind_lift_ok, bind_logger.
  intros Hsome.
  edestruct (categorize_loop found (Buckets [] [] [])) as [lines H].
  rewrite (bind_ok _ _ _ _ _ H). simpl. clear H.
  destruct (_ =? 0) eqn:Hz.
  { exfalso. apply Hsome. apply Nat.eqb_eq in Hz.
    apply length_zero_iff_nil. rewrite !length_app. lia. }
  destruct (length (List.filter (in_bucket Output) found) + _ =? 0);
    rewrite ?bind_logger, ?bind_ret, ?bind_logger;
    edestruct (for_of_logger (List.filter (in_bucket Reference) found))
      as [l2 Hl2];
    rewrite (bind_ok _ _ _ _ _ Hl2); unfold ret; simpl;
    eexists; f_equal; f_equal; rewrite <- !app_assoc; reflexivity.
Qed.

End WithHost.
End DiscoverRun.

(** ** Parsed values and the token walks *)

Module JsonFacts.
Import Json Tokens Spec JsFacts.

(** Structural induction with the items of an array and the values of
    an object as premises. *)
Lemma json_induction (P : json → Prop) :
  P JNull → (∀ b, P (JBool b)) → (∀ n, P (JNum n)) → (∀ s, P (JStr s)) →
  (∀ items, Forall P items → P (JArr items)) →
  (∀ props, Forall (fun kv => P (snd kv)) props → P (JObj props)) →
  ∀ v, P v.
Proof.
  intros Hnull Hbool Hnum Hstr Harr Hobj. fix IH 1.
  intros [|b|n|s|items|props]; [done..| |].
  - apply Harr. revert items. fix IHitems 1.
    intros [|item items]; constructor; [apply IH | apply IHitems].
  - apply Hobj. revert props. fix IHprops 1.
    intros [|[key value] props]; constructor; [apply IH | apply IHprops].
Qed.

Lemma entries_not_object v :
  is_object v = false → Forall (fun kv => is_object (snd kv) = false) (entries v).
Proof.
  destruct v as [|b|n|s|items|props]; try done; intros _; simpl;
    try by constructor.
  apply Forall_forall. intros kv Hin.
  apply elem_of_lookup_imap in Hin as (i & c & -> & _). done.
Qed.

Lemma entries_array_item items key item :
  (key, item) ∈ entries (JArr items) → item ∈ items.
Proof.
  simpl. intros (i & x & [= -> ->] & Hx)%elem_of_lookup_imap.
  by apply list_elem_of_lookup_2 in Hx.
Qed.

(** Induction along the entries of objects and arrays. *)
Lemma json_entries_ind (P : json → Prop) :
  (∀ v, is_object v = false → P v) →
  (∀ v, is_object v = true →
        (∀ key child, (key, child) ∈ entries v → P child) → P v) →
  ∀ v, P v.
Proof.
  intros Hprim Hobj. induction v as [|b|n|s|items IH|props IH]
    using json_induction; try by apply Hprim.
  - apply Hobj; [done|]. intros key child Hin%entries_array_item.
    rewrite Forall_forall in IH. by apply IH.
  - apply Hobj; [done|]. simpl. intros key child Hin.
    rewrite Forall_forall in IH. by apply (IH (key, child)).
Qed.

(** *** The walks as loops over [Object.entries] *)

Lemma fold_left_imap_values {A B} (F : A → B → A) (g : nat → string) l a :
  fold_left (fun a (kv : string * B) => F a (snd kv))
            (imap (fun i x => (g i, x)) l) a
  = fold_left F l a.
Proof.
  revert g a. induction l as [|x l IH]; intros g a; simpl; [done|].
  apply (IH (g ∘ S)).
Qed.

Lemma fold_left_id_on {A B} (F : A → B → A) (Q : B → Prop) l a :
  (∀ a b, Q b → F a b = a) → Forall Q l → fold_left F l a = a.
Proof.
  intros HF. induction 1 as [|b l Hb _ IH]; simpl; [done|].
  by rewrite HF.
Qed.

Lemma countTokens_entries tokens count :
  countTokens tokens count = fold_left count_step (entries tokens) count.
Proof.
  destruct tokens as [|b|n|s|items|props]; try done.
  - symmetry. apply (fold_left_id_on _ (fun kv => is_object kv.2 = false)).
    + intros a kv Hkv. unfold count_step. simpl. by rewrite Hkv.
    + by apply entries_not_object.
  - simpl. unfold count_step.
    rewrite (fold_left_imap_values
               (fun c value =>
                  if is_object value then
                    if has_key "$value" value then S c
                    else countTokens value c
                  else c)).
    revert count. induction items as [|x l IH]; intros count; [done|].
    simpl. apply IH.
Qed.

Lemma extractTokenPaths_entries tokens currentPath paths :
  extractTokenPaths tokens currentPath paths
  = fold_left (paths_step currentPath) (entries tokens) paths.
Proof.
  destruct tokens as [|b|n|s|items|props]; try done.
  - symmetry. apply (fold_left_id_on _ (fun kv => is_object kv.2 = false)).
    + intros a kv Hkv. unfold paths_step. simpl. by rewrite Hkv.
    + by apply entries_not_object.
  - simpl.
    change (imap (λ i item, (Js.number_to_string i, item)) items)
      with (imap (λ i item, (Js.number_to_string (0 + i), item)) items).
    generalize 0 at 1 2 as i. revert paths.
    induction items as [|x l IH]; intros paths i; [done|].
    simpl. rewrite IH. unfold paths_step at 2. simpl.
    rewrite Nat.add_0_r. f_equal.
    apply imap_ext. intros j y _. simpl. do 2 f_equal. lia.
Qed.

End JsonFacts.

Module WalkFacts.
Import Json Tokens Spec JsFacts JsonFacts.

Lemma existsb_imap_values {B} (F : B → bool) (g : nat → string) l :
  existsb (fun kv : string * B => F (snd kv)) (imap (fun i x => (g i, x)) l)
  = existsb F l.
Proof.
  revert g. induction l as [|x l IH]; intros g; simpl; [done|].
  f_equal. apply (IH (g ∘ S)).
Qed.

Lemma hasLegacyTokenFormat_entries tokens :
  hasLegacyTokenFormat tokens = existsb legacy_step (entries tokens).
Proof.
  destruct tokens as [|b|n|s|items|props]; try done.
  - symmetry. apply not_true_is_false. intros H.
    apply existsb_exists in H as (kv & Hin & Hkv).
    pose proof (entries_not_object (JStr s) eq_refl) as Hall.
    rewrite Forall_forall in Hall. unfold legacy_step in Hkv.
    rewrite (Hall kv) in Hkv; [done|]. by apply list_elem_of_In.
  - simpl. unfold legacy_step.
    rewrite (existsb_imap_values
               (fun value => is_object value &&
                             (legacy_shape value ||
                              hasLegacyTokenFormat value))).
    induction items as [|x l IH]; [done|]. simpl. rewrite <- IH.
    by destruct (is_object x), (legacy_shape x), (hasLegacyTokenFormat x).
  - simpl. induction props as [|kv l IH]; [done|]. simpl. rewrite <- IH.
    unfold legacy_step. simpl.
    by destruct (is_object kv.2), (legacy_shape kv.2),
                (hasLegacyTokenFormat kv.2).
Qed.

Lemma bind_nil_on {A B} (f : A → list B) l :
  Forall (fun x => f x = []) l → l ≫= f = [].
Proof.
  induction 1 as [|x l Hx _ IH]; [done|]. by rewrite bind_cons, Hx, IH.
Qed.

Lemma token_keys_entries doc : token_keys doc = entries doc ≫= keys_step.
Proof.
  destruct doc as [|b|n|s|items|props]; try done.
  - symmetry. apply bind_nil_on.
    eapply Forall_impl; [by apply (entries_not_object (JStr s))|].
    intros kv Hkv. unfold keys_step. simpl. by rewrite Hkv.
  - simpl.
    change (imap (λ i item, (Js.number_to_string i, item)) items)
      with (imap (λ i item, (Js.number_to_string (0 + i), item)) items).
    generalize 0 at 1 2 as i.
    induction items as [|x l IH]; intros i; [done|].
    rewrite imap_cons, bind_cons, IH. unfold keys_step at 2. simpl.
    rewrite Nat.add_0_r. do 2 f_equal.
    apply imap_ext. intros j y _. simpl. do 2 f_equal. lia.
Qed.

Lemma token_keys_not_object doc : is_object doc = false → token_keys doc = [].
Proof. by destruct doc. Qed.

Lemma countTokens_not_object doc count :
  is_object doc = false → countTokens doc count = count.
Proof. by destruct doc. Qed.

Lemma extractTokenPaths_not_object doc cur paths :
  is_object doc = false → extractTokenPaths doc cur paths = paths.
Proof. by destruct doc. Qed.

Lemma hasLegacyTokenFormat_not_object doc :
  is_object doc = false → hasLegacyTokenFormat doc = false.
Proof. by destruct doc. Qed.

(** The count grows by the number of token nodes. *)
Lemma countTokens_keys doc count :
  countTokens doc count = count + length (token_keys doc).
Proof.
  revert count. induction doc as [v Hv|v Hv IH] using json_entries_ind;
    intros count.
  - rewrite countTokens_not_object, token_keys_not_object by done.
    simpl. lia.
  - rewrite countTokens_entries, token_keys_entries.
    revert count IH. generalize (entries v) as l.
    induction l as [|[key child] l IHl]; intros count IH; [simpl; lia|].
    cbn [fold_left]. rewrite bind_cons, length_app, IHl.
    2: { intros k c Hin. apply (IH k). by right. }
    unfold count_step, keys_step. simpl.
    destruct (is_object child); [|simpl; lia].
    destruct (has_key "$value" child); [simpl; lia|].
    rewrite (IH key child) by left. rewrite length_map. lia.
Qed.

(** The set grows by the joined key lists of the token nodes. *)
Lemma extractTokenPaths_keys doc cur paths :
  extractTokenPaths doc cur paths
  = paths ∪ list_to_set ((fun ks => Js.join "." (cur ++ ks))
                         <$> token_keys doc).
Proof.
  revert cur paths. induction doc as [v Hv|v Hv IH] using json_entries_ind;
    intros cur paths.
  - rewrite extractTokenPaths_not_object, token_keys_not_object by done.
    simpl. by rewrite (right_id_L ∅ (∪)).
  - rewrite extractTokenPaths_entries, token_keys_entries.
    revert paths IH. generalize (entries v) as l.
    induction l as [|[key child] l IHl]; intros paths IH.
    { simpl. by rewrite (right_id_L ∅ (∪)). }
    cbn [fold_left]. rewrite bind_cons, fmap_app, list_to_set_app_L, IHl.
    2: { intros k c Hin. apply (IH k). by right. }
    rewrite (assoc_L (∪)). f_equal.
    unfold paths_step, keys_step. simpl.
    destruct (is_object child);
      [|simpl; by rewrite (right_id_L ∅ (∪))].
    destruct (has_key "$value" child);
      [simpl; by rewrite (right_id_L ∅ (∪))|].
    rewrite (IH key child) by left. f_equal. f_equal.
    rewrite <- list_fmap_compose. apply list_fmap_ext.
    intros i ks _. simpl. by rewrite <- app_assoc.
Qed.

(** [token_keys] lists the key lists of the token nodes. *)
Lemma token_keys_at doc ks :
  ks ∈ token_keys doc ↔ ∃ obj, token_at doc ks obj.
Proof.
  split.
  - revert ks. induction doc as [v Hv|v Hv IH] using json_entries_ind;
      intros ks.
    + rewrite token_keys_not_object by done. by intros ?%elem_of_nil.
    + rewrite token_keys_entries.
      intros ([key child] & Hks & Hin)%list_elem_of_bind.
      unfold keys_step in Hks. simpl in Hks.
      destruct (is_object child) eqn:Ho; [|by apply elem_of_nil in Hks].
      destruct (has_key "$value" child) eqn:Hk.
      * apply list_elem_of_singleton in Hks as ->. exists child.
        by apply token_here.
      * apply list_elem_of_fmap in Hks as (ks' & -> & Hks').
        destruct (IH key child Hin ks' Hks') as [obj Hobj].
        exists obj. by eapply token_deeper.
  - intros [obj H]. induction H as [doc key obj Hin Ho Hk
                                    |doc key mid keys obj Hin Ho Hk _ IH];
      rewrite token_keys_entries; apply list_elem_of_bind.
    + exists (key, obj). split; [|done]. unfold keys_step. simpl.
      rewrite Ho, Hk. by apply list_elem_of_singleton.
    + exists (key, mid). split; [|done]. unfold keys_step. simpl.
      rewrite Ho, Hk. apply list_elem_of_fmap. by exists keys.
Qed.

Lemma token_at_nonempty doc ks obj : token_at doc ks obj → ks ≠ [].
Proof. by destruct 1. Qed.

(** What [hasLegacyTokenFormat] finds: a legacy object strictly below
    the value it is given. *)
Lemma hasLegacyTokenFormat_below doc :
  hasLegacyTokenFormat doc = true ↔ ∃ obj, below doc obj ∧ legacy_object obj.
Proof.
  split.
  - induction doc as [v Hv|v Hv IH] using json_entries_ind.
    + by rewrite hasLegacyTokenFormat_not_object.
    + rewrite hasLegacyTokenFormat_entries.
      intros ([key child] & Hin%list_elem_of_In & Hstep)%existsb_exists.
      unfold legacy_step in Hstep. simpl in Hstep.
      apply andb_true_iff in Hstep as [Ho [Hshape|Hdeep]%orb_true_iff].
      * exists child. split; [by eapply below_child|].
        unfold legacy_shape in Hshape.
        apply andb_true_iff in Hshape as [H1 H2%negb_true_iff]. done.
      * destruct (IH key child Hin Hdeep) as (obj & Hb & Hl).
        exists obj. split; [by eapply below_step|done].
  - intros (obj & Hb & Ho & H1 & H2).
    induction Hb as [doc key obj Hin|doc key mid obj Hin _ IH];
      rewrite hasLegacyTokenFormat_entries; apply existsb_exists.
    + exists (key, obj). split; [by apply list_elem_of_In|].
      unfold legacy_step, legacy_shape. simpl. by rewrite Ho, H1, H2.
    + exists (key, mid). split; [by apply list_elem_of_In|].
      specialize (IH Ho H1 H2). unfold legacy_step. simpl. rewrite IH.
      destruct (is_object mid) eqn:Hm; [apply orb_true_r|].
      by rewrite hasLegacyTokenFormat_not_object in IH.
Qed.

End WalkFacts.

(** ** Token paths of a document *)

Module PathFacts.
Import Json Tokens Spec JsFacts JsonFacts WalkFacts.

(** *** Decimal numerals *)

#[local] Instance number_to_string_inj : Inj (=) (=) Js.number_to_string.
Proof.
  intros n m E. unfold Js.number_to_string in E.
  apply DecimalNat.Unsigned.to_uint_inj.
  apply (f_equal NilEmpty.uint_of_string) in E.
  rewrite !NilEmpty.usu in E. congruence.
Qed.

Lemma numeral_no_dot n : "."%char ∉ units (Js.number_to_string n).
Proof.
  unfold Js.number_to_string. generalize (Nat.to_uint n) as d.
  induction d; simpl; [apply not_elem_of_nil|..];
    (apply not_elem_of_cons; split; [discriminate | done]).
Qed.

(** *** Joining with a separator that the segments avoid *)

Lemma split_at_separator (sep : ascii) l1 r1 l2 r2 :
  sep ∉ l1 → sep ∉ l2 →
  l1 ++ sep :: r1 = l2 ++ sep :: r2 → l1 = l2 ∧ r1 = r2.
Proof.
  revert l2. induction l1 as [|a l1 IH]; intros [|b l2] H1 H2 E;
    simpl in E.
  - by injection E as ->.
  - injection E as -> _. exfalso. apply H2. by left.
  - injection E as -> _. exfalso. apply H1. by left.
  - injection E as -> E.
    apply not_elem_of_cons in H1 as [_ H1].
    apply not_elem_of_cons in H2 as [_ H2].
    destruct (IH l2 H1 H2 E) as [-> ->]. done.
Qed.

Lemma join_cons sep x y rest :
  Js.join sep (x :: y :: rest) = x +:+ sep +:+ Js.join sep (y :: rest).
Proof. reflexivity. Qed.

Lemma join_inj (sep : ascii) (l1 l2 : list string) :
  l1 ≠ [] → l2 ≠ [] →
  Forall (fun k => sep ∉ units k) l1 → Forall (fun k => sep ∉ units k) l2 →
  Js.join (String sep "") l1 = Js.join (String sep "") l2 → l1 = l2.
Proof.
  revert l2. induction l1 as [|x l1 IH]; [done|].
  intros [|x' l2] _ Hne H1 H2 E; [done|]. clear Hne.
  destruct l1 as [|y l1], l2 as [|y' l2].
  - simpl in E. by subst.
  - exfalso. rewrite join_cons in E. apply (f_equal units) in E.
    rewrite units_app in E. simpl in E.
    apply Forall_cons in H1 as [H1 _]. apply H1. rewrite E.
    apply elem_of_app. right. by left.
  - exfalso. rewrite join_cons in E. apply (f_equal units) in E.
    rewrite units_app in E. simpl in E.
    apply Forall_cons in H2 as [H2 _]. apply H2. rewrite <- E.
    apply elem_of_app. right. by left.
  - rewrite !join_cons in E. apply (f_equal units) in E.
    rewrite !units_app in E. simpl in E.
    apply Forall_cons in H1 as [Hx H1]. apply Forall_cons in H2 as [Hx' H2].
    apply split_at_separator in E as [Ex Er]; [|done..].
    apply units_inj in Ex as ->. apply units_inj in Er.
    f_equal. by apply IH.
Qed.

(** *** Well-formed documents, entry by entry *)

Lemma distinct_keys_entries v :
  distinct_keys v →
  NoDup (entries v).*1 ∧
  ∀ key child, (key, child) ∈ entries v → distinct_keys child.
Proof.
  destruct v as [|b|n|s|items|props]; simpl;
    try (intros _; split; [constructor | by intros ?? ?%elem_of_nil]).
  - intros _. split.
    + rewrite fmap_imap.
      rewrite (imap_seq_0 _ (fun i => Js.number_to_string i)).
      apply NoDup_fmap_2; [apply _ | apply NoDup_seq].
    + by intros key child (i & c & [= -> ->] & _)%elem_of_lookup_imap.
  - intros Hall. split.
    + rewrite fmap_imap.
      rewrite (imap_seq_0 _ (fun i => Js.number_to_string i)).
      apply NoDup_fmap_2; [apply _ | apply NoDup_seq].
    + intros key child Hin%entries_array_item. clear key.
      induction items as [|x l IH]; [by apply elem_of_nil in Hin|].
      destruct Hall as [Hx Hall].
      apply elem_of_cons in Hin as [->|Hin]; [done | by apply IH].
  - intros [Hnd Hall]. split; [done|]. clear Hnd.
    intros key child Hin.
    induction props as [|kv l IH]; [by apply elem_of_nil in Hin|].
    destruct Hall as [Hx Hall].
    apply elem_of_cons in Hin as [E|Hin]; [by subst kv | by apply IH].
Qed.

Lemma keys_avoid_entries v :
  is_object v = true → keys_avoid "." v →
  ∀ key child, (key, child) ∈ entries v →
               ("."%char ∉ units key) ∧ keys_avoid "." child.
Proof.
  destruct v as [|b|n|s|items|props]; try done; intros _ Hall key child Hin.
  - simpl in Hin. apply elem_of_lookup_imap in Hin as (i & c & [= -> ->] & Hc).
    split; [apply numeral_no_dot|].
    apply list_elem_of_lookup_2 in Hc. simpl in Hall.
    induction items as [|x l IH]; [by apply elem_of_nil in Hc|].
    destruct Hall as [Hx Hall].
    apply elem_of_cons in Hc as [->|Hc]; [done | by apply IH].
  - simpl in Hin, Hall.
    induction props as [|kv l IH]; [by apply elem_of_nil in Hin|].
    destruct Hall as (Hk & Hx & Hall).
    apply elem_of_cons in Hin as [E|Hin]; [by subst kv | by apply IH].
Qed.

Lemma NoDup_fst_functional {A B} (l : list (A * B)) k v1 v2 :
  NoDup l.*1 → (k, v1) ∈ l → (k, v2) ∈ l → v1 = v2.
Proof.
  induction l as [|[k' v'] l IH]; [by intros _ ?%elem_of_nil|].
  rewrite fmap_cons. intros [Hk Hnd]%NoDup_cons H1 H2.
  apply elem_of_cons in H1 as [E1|H1]; apply elem_of_cons in H2 as [E2|H2].
  - congruence.
  - injection E1 as -> ->. exfalso. apply Hk.
    apply list_elem_of_fmap. by exists (k', v2).
  - injection E2 as -> ->. exfalso. apply Hk.
    apply list_elem_of_fmap. by exists (k', v1).
  - by apply IH.
Qed.

(** Every key list found through an entry starts with the entry's key. *)
Lemma keys_step_head kv ks : ks ∈ keys_step kv → ∃ rest, ks = kv.1 :: rest.
Proof.
  unfold keys_step. simpl.
  destruct (is_object kv.2); [|by intros ?%elem_of_nil].
  destruct (has_key "$value" kv.2).
  - intros ->%list_elem_of_singleton. by exists [].
  - intros (ks' & -> & _)%list_elem_of_fmap. by exists ks'.
Qed.

(** In a document with distinct keys no key list is found twice. *)
Lemma token_keys_NoDup doc : distinct_keys doc → NoDup (token_keys doc).
Proof.
  induction doc as [v Hv|v Hv IH] using json_entries_ind; intros Hd.
  - rewrite token_keys_not_object by done. constructor.
  - rewrite token_keys_entries.
    destruct (distinct_keys_entries v Hd) as [Hnd Hch].
    apply NoDup_bind.
    + intros [k1 c1] [k2 c2] ks Hin1 Hin2
             [r1 E1]%keys_step_head [r2 E2]%keys_step_head.
      simpl in *. subst ks. injection E2 as -> _.
      f_equal. by eapply NoDup_fst_functional.
    + intros [key child] Hin. unfold keys_step. simpl.
      destruct (is_object child); [|constructor].
      destruct (has_key "$value" child); [apply NoDup_singleton|].
      apply NoDup_fmap_2; [apply _|]. eapply IH; [done|]. by eapply Hch.
    + by apply NoDup_fmap_1 in Hnd.
Qed.

(** The segments of a key list avoid the dot when the keys do. *)
Lemma token_keys_segments doc ks :
  keys_avoid "." doc → ks ∈ token_keys doc →
  (ks ≠ []) ∧ Forall (fun k => "."%char ∉ units k) ks.
Proof.
  revert ks. induction doc as [v Hv|v Hv IH] using json_entries_ind;
    intros ks Ha.
  - rewrite token_keys_not_object by done. by intros ?%elem_of_nil.
  - rewrite token_keys_entries.
    intros ([key child] & Hks & Hin)%list_elem_of_bind.
    destruct (keys_avoid_entries v Hv Ha key child Hin) as [Hkey Hchild].
    unfold keys_step in Hks. simpl in Hks.
    destruct (is_object child); [|by apply elem_of_nil in Hks].
    destruct (has_key "$value" child).
    + apply list_elem_of_singleton in Hks as ->. split; [done|].
      by repeat constructor.
    + apply list_elem_of_fmap in Hks as (ks' & -> & Hks').
      split; [done|]. constructor; [done|].
      by apply (IH key child Hin ks' Hchild).
Qed.

(** The paths of a document, as the joined key lists. *)
Lemma extractTokenPaths_root doc :
  extractTokenPaths doc [] ∅ = list_to_set (Js.join "." <$> token_keys doc).
Proof.
  rewrite extractTokenPaths_keys. rewrite (left_id_L ∅ (∪)). done.
Qed.

Lemma joined_keys_NoDup doc :
  distinct_keys doc → keys_avoid "." doc →
  NoDup (Js.join "." <$> token_keys doc).
Proof.
  intros Hd Ha. apply NoDup_fmap_2_strong; [|by apply token_keys_NoDup].
  intros ks1 ks2 H1 H2 E.
  destruct (token_keys_segments doc ks1 Ha H1) as [Hne1 Hs1].
  destruct (token_keys_segments doc ks2 Ha H2) as [Hne2 Hs2].
  by apply (join_inj "." ks1 ks2).
Qed.

End PathFacts.

(** ** The name transform *)

Module NameFacts.
Import Spec JsFacts Transform.

Lemma dash_append s : "-" +:+ s = String "-" s.
Proof. reflexivity. Qed.

Lemma toLowerCase_unit_idemp c :
  Js.toLowerCase_unit (Js.toLowerCase_unit c) = Js.toLowerCase_unit c.
Proof. by destruct c as [[] [] [] [] [] [] [] []]. Qed.

(** Lower-casing neither makes nor removes whitespace. *)
Lemma is_whitespace_lower c :
  Js.is_whitespace (Js.toLowerCase_unit c) = Js.is_whitespace c.
Proof. by destruct c as [[] [] [] [] [] [] [] []]. Qed.

Lemma toLowerCase_idemp s :
  Js.toLowerCase (Js.toLowerCase s) = Js.toLowerCase s.
Proof.
  induction s as [|c s IH]; simpl; [done|].
  by rewrite toLowerCase_unit_idemp, IH.
Qed.

Lemma toLowerCase_app a b :
  Js.toLowerCase (a +:+ b) = Js.toLowerCase a +:+ Js.toLowerCase b.
Proof. induction a as [|c a IH]; simpl; [done | by rewrite IH]. Qed.

(** Lower-casing commutes with the replacement of whitespace runs by a
    dash. *)
Lemma toLowerCase_replace in_run s :
  Js.toLowerCase (Js.replace_ws_runs_from in_run "-" s)
  = Js.replace_ws_runs_from in_run "-" (Js.toLowerCase s).
Proof.
  revert in_run. induction s as [|c s IH]; intros in_run; simpl; [done|].
  rewrite is_whitespace_lower.
  destruct (Js.is_whitespace c), in_run; rewrite ?dash_append; simpl;
    by rewrite IH.
Qed.

(** After the replacement no whitespace is left. *)
Lemma replace_no_whitespace in_run s :
  Forall (fun c => Js.is_whitespace c = false)
         (units (Js.replace_ws_runs_from in_run "-" s)).
Proof.
  revert in_run. induction s as [|c s IH]; intros in_run; simpl;
    [constructor|].
  destruct (Js.is_whitespace c) eqn:Hc; [destruct in_run|];
    rewrite ?dash_append; simpl; repeat constructor; done.
Qed.

(** Without whitespace there is nothing to replace. *)
Lemma replace_id in_run rep s :
  Forall (fun c => Js.is_whitespace c = false) (units s) →
  Js.replace_ws_runs_from in_run rep s = s.
Proof.
  revert in_run. induction s as [|c s IH]; intros in_run; simpl; [done|].
  intros [Hc Hs]%Forall_cons. rewrite Hc. f_equal. by apply IH.
Qed.

Lemma transformSegment_idemp s :
  transformSegment (transformSegment s) = transformSegment s.
Proof.
  unfold transformSegment, Js.replace_ws_runs.
  rewrite toLowerCase_replace, toLowerCase_idemp.
  apply replace_id, replace_no_whitespace.
Qed.

(** A dash stays where it is and separates what is replaced on its
    left from what is replaced on its right. *)
Lemma replace_around_dash in_run a b :
  Js.replace_ws_runs_from in_run "-" (a +:+ "-" +:+ b)
  = Js.replace_ws_runs_from in_run "-" a +:+ "-"
    +:+ Js.replace_ws_runs_from false "-" b.
Proof.
  revert in_run. induction a as [|c a IH]; intros in_run; [done|].
  change (String c a +:+ "-" +:+ b) with (String c (a +:+ "-" +:+ b)).
  cbn [Js.replace_ws_runs_from].
  destruct (Js.is_whitespace c); [destruct in_run|]; by rewrite IH.
Qed.

Lemma transformSegment_dash a b :
  transformSegment (a +:+ "-" +:+ b)
  = transformSegment a +:+ "-" +:+ transformSegment b.
Proof.
  unfold transformSegment, Js.replace_ws_runs.
  rewrite !toLowerCase_app. apply replace_around_dash.
Qed.

End NameFacts.

(** ** Per-file processing and the run loop *)

Module TransformRun.
Import Discover Tokens Transform Spec RunFacts.

Section WithHost.
Context {host : Host}.

(** *** [processTokenFile], case by case *)

Lemma process_unreadable f all dir sel st e :
  document_of f (world st) = Throw e →
  ∃ lines,
    processTokenFile f all dir sel st =
    (Throw e, RunState (world st) (console st ++ lines) (engine_calls st)).
Proof.
  unfold document_of, processTokenFile. rewrite bind_logger.
  unfold bind, readFileSync, lift. simpl. intros H.
  destruct (fs_readFileSync f (world st)) as [text|e'].
  - rewrite H. by eexists.
  - injection H as ->. by eexists.
Qed.

Lemma process_invalid f all dir sel st doc e :
  document_of f (world st) = Ok doc →
  validateDTCGFormat doc (Path.basename f) = Throw e →
  ∃ lines,
    processTokenFile f all dir sel st =
    (Throw e, RunState (world st) (console st ++ lines) (engine_calls st)).
Proof.
  unfold document_of, processTokenFile. rewrite bind_logger.
  unfold bind, readFileSync, lift. simpl. intros H Hv.
  destruct (fs_readFileSync f (world st)) as [text|e']; [|done].
  rewrite H, Hv. by eexists.
Qed.

Lemma process_engine_fails f all dir sel st doc e w :
  document_of f (world st) = Ok doc →
  validateDTCGFormat doc (Path.basename f) = Ok tt →
  sd_build (styleDictionaryConfig all dir (getOutputFileName f) sel
              (extractTokenPaths doc [] ∅)) (world st) = (Throw e, w) →
  ∃ lines,
    processTokenFile f all dir sel st =
    (Throw e,
     RunState w (console st ++ lines)
       (engine_calls st ++
        [styleDictionaryConfig all dir (getOutputFileName f) sel
           (extractTokenPaths doc [] ∅)])).
Proof.
  unfold document_of, processTokenFile. rewrite bind_logger.
  unfold bind, readFileSync, lift, buildAllPlatforms. simpl.
  intros H Hv Hb.
  destruct (fs_readFileSync f (world st)) as [text|e']; [|done].
  rewrite H, Hv, Hb. by eexists.
Qed.

(** A failure that the engine leaves unhandled ends the call, and the
    process with it. *)
Lemma process_engine_ends f all dir sel st doc e w :
  document_of f (world st) = Ok doc →
  validateDTCGFormat doc (Path.basename f) = Ok tt →
  sd_build (styleDictionaryConfig all dir (getOutputFileName f) sel
              (extractTokenPaths doc [] ∅)) (world st) = (Unhandled e, w) →
  ∃ lines,
    processTokenFile f all dir sel st =
    (Unhandled e,
     RunState w (console st ++ lines)
       (engine_calls st ++
        [styleDictionaryConfig all dir (getOutputFileName f) sel
           (extractTokenPaths doc [] ∅)])).
Proof.
  unfold document_of, processTokenFile. rewrite bind_logger.
  unfold bind, readFileSync, lift, buildAllPlatforms. simpl.
  intros H Hv Hb.
  destruct (fs_readFileSync f (world st)) as [text|e']; [|done].
  rewrite H, Hv, Hb. by eexists.
Qed.

Lemma process_builds f all dir sel st doc w :
  document_of f (world st) = Ok doc →
  validateDTCGFormat doc (Path.basename f) = Ok tt →
  sd_build (styleDictionaryConfig all dir (getOutputFileName f) sel
              (extractTokenPaths doc [] ∅)) (world st) = (Ok tt, w) →
  ∃ lines,
    processTokenFile f all dir sel st =
    (Ok {| outputPath := path_join dir (getOutputFileName f);
           tokenCount := countTokens doc 0;
           inputPath := f |},
     RunState w (console st ++ lines)
       (engine_calls st ++
        [styleDictionaryConfig all dir (getOutputFileName f) sel
           (extractTokenPaths doc [] ∅)])).
Proof.
  unfold document_of, processTokenFile. rewrite bind_logger.
  unfold bind, readFileSync, lift, buildAllPlatforms, logger, ret. simpl.
  intros H Hv Hb.
  destruct (fs_readFileSync f (world st)) as [text|e']; [|done].
  rewrite H, Hv, Hb. simpl. rewrite <- app_assoc. by eexists.
Qed.

(** What a call of [processTokenFile] does to the invocation record
    and what it returns. *)
Lemma process_summary f all dir sel st :
  ∃ calls,
    engine_calls (snd (processTokenFile f all dir sel st))
    = engine_calls st ++ calls ∧
    Forall (fun c => source c = all) calls ∧
    length calls ≤ 1 ∧
    (∀ r, fst (processTokenFile f all dir sel st) = Ok r →
          inputPath r = f ∧ length calls = 1) ∧
    (∀ e, fst (processTokenFile f all dir sel st) = Unhandled e →
          engine_ends e).
Proof.
  destruct (document_of f (world st)) as [doc|e] eqn:Hdoc.
  2: { destruct (process_unreadable f all dir sel st e Hdoc) as [l ->].
       exists []. simpl. rewrite app_nil_r.
       split_and!; try done; try lia. }
  destruct (validateDTCGFormat doc (Path.basename f)) as [[]|e] eqn:Hv.
  2: { destruct (process_invalid f all dir sel st doc e Hdoc Hv) as [l ->].
       exists []. simpl. rewrite app_nil_r.
       split_and!; try done; try lia. }
  destruct (sd_build (styleDictionaryConfig all dir (getOutputFileName f)
                        sel (extractTokenPaths doc [] ∅)) (world st))
    as [[[[]|e]|e] w] eqn:Hb.
  - destruct (process_builds f all dir sel st doc w Hdoc Hv Hb) as [l ->].
    eexists [_]. simpl.
    split_and!; try done; try lia; [by repeat constructor|].
    by intros r [= <-].
  - destruct (process_engine_fails f all dir sel st doc e w Hdoc Hv Hb)
      as [l ->].
    eexists [_]. simpl.
    split_and!; try done; try lia. by repeat constructor.
  - destruct (process_engine_ends f all dir sel st doc e w Hdoc Hv Hb)
      as [l ->].
    eexists [_]. simpl.
    split_and!; try done; try lia; [by repeat constructor|].
    intros e' [= <-]. eexists _, _. by rewrite Hb.
Qed.

(** *** One turn of a loop *)

Lemma processOutputFile_iteration all dir :
  processOutputFile all dir = iteration (fun _ => ":root") all dir.
Proof. reflexivity. Qed.

Lemma processThemeFile_iteration all dir :
  processThemeFile all dir = iteration themeSelector all dir.
Proof. reflexivity. Qed.

Lemma iteration_ok sel all dir f acc st r st1 :
  processTokenFile f all dir (sel f) st = (Ok r, st1) →
  iteration sel all dir f acc st = (Ok (recordResult r acc), st1).
Proof. unfold iteration, try_catch, bind. by intros ->. Qed.

Lemma iteration_throw sel all dir f acc st e st1 :
  processTokenFile f all dir (sel f) st = (Throw e, st1) →
  iteration sel all dir f acc st =
  (Ok (skipped acc),
   RunState (world st1)
     (console st1 ++
      [(ERROR, "Failed to process " +:+ Path.basename f +:+ ": "
               +:+ errorMessage e)])
     (engine_calls st1)).
Proof.
  unfold iteration, try_catch, bind. intros ->. by destruct acc.
Qed.

(** The [catch] block of a turn is not reached when the process ends. *)
Lemma iteration_unhandled sel all dir f acc st e st1 :
  processTokenFile f all dir (sel f) st = (Unhandled e, st1) →
  iteration sel all dir f acc st = (Unhandled e, st1).
Proof. unfold iteration, try_catch, bind. by intros ->. Qed.

(** *** A whole loop *)

Lemma loop_run sel all dir files acc st :
  ∃ c st' calls,
    for_of files (iteration sel all dir) acc st = (c, st') ∧
    engine_calls st' = engine_calls st ++ calls ∧
    Forall (fun c => source c = all) calls ∧
    length calls ≤ length files ∧
    loop_end files acc calls c.
Proof.
  revert acc st. induction files as [|f files IH]; intros acc st.
  - exists (Settled (Ok acc)), st, []. simpl. rewrite !app_nil_r.
    split_and!; try done. exists []. unfold looped. simpl.
    rewrite !app_nil_r. split_and!; try done; lia.
  - destruct (process_summary f all dir (sel f) st)
      as (c1 & Hc1 & Hsrc1 & Hlen1 & Hok1 & Hend1).
    destruct (processTokenFile f all dir (sel f) st)
      as [[[r|e]|e] st1] eqn:Hp; simpl in Hc1, Hok1, Hend1.
    + destruct (Hok1 r eq_refl) as [Hin Hone].
      rewrite (for_of_continue _ _ _ _ _ _ _ (iteration_ok _ _ _ _ acc _ _ _ Hp)).
      destruct (IH (recordResult r acc) st1)
        as (c & st' & calls & -> & Hcalls & Hsrc & Hle & Hc).
      exists c, st', (c1 ++ calls).
      rewrite Hcalls, Hc1, <- !app_assoc, length_app.
      split_and!; try done; try (simpl; lia); [by apply Forall_app|].
      destruct c as [[acc'|e]|e]; [|done..].
      destruct Hc as (new & Hres & Htok & Hskip & Hsub & Hle1).
      exists (r :: new). unfold looped.
      destruct acc as [results stats]. simpl in *.
      rewrite Hres, Htok, <- !app_assoc, length_app.
      split_and!; try done; try (simpl; lia).
      rewrite Hin. by apply sublist_skip.
    + rewrite (for_of_continue _ _ _ _ _ _ _
                 (iteration_throw _ _ _ _ acc _ _ _ Hp)).
      edestruct (IH (skipped acc))
        as (c & st' & calls & -> & Hcalls & Hsrc & Hle & Hc).
      exists c, st', (c1 ++ calls).
      simpl in Hcalls.
      rewrite Hcalls, Hc1, <- !app_assoc, length_app.
      split_and!; try done; try (simpl; lia); [by apply Forall_app|].
      destruct c as [[acc'|e']|e']; [|done..].
      destruct Hc as (new & Hres & Htok & Hskip & Hsub & Hle1).
      exists new. unfold looped.
      destruct acc as [results stats]. simpl in *.
      rewrite length_app.
      split_and!; try done; try (simpl; lia).
      by apply sublist_cons.
    + rewrite for_of_cons.
      rewrite (bind_unhandled _ _ _ _ _
                 (iteration_unhandled _ _ _ _ acc _ _ _ Hp)).
      exists (Unhandled e), st1, c1. simpl.
      split_and!; try done; [lia|by apply Hend1].
Qed.

End WithHost.
End TransformRun.

Module TransformWhole.
Import Discover Tokens Transform Spec RunFacts TransformRun.

Section WithHost.
Context {host : Host}.

Lemma total_tokens_app new1 new2 :
  total_tokens (new1 ++ new2) = total_tokens new1 + total_tokens new2.
Proof. induction new1 as [|r l IH]; simpl; [done|]. rewrite IH. lia. Qed.

(** The two loops of [transformTokens], one after the other. *)
Lemma loops_run all dir outs themes acc st :
  ∃ c st' calls,
    bind (for_of outs (processOutputFile all dir) acc)
         (for_of themes (processThemeFile all dir)) st = (c, st') ∧
    engine_calls st' = engine_calls st ++ calls ∧
    Forall (fun c => source c = all) calls ∧
    length calls ≤ length outs + length themes ∧
    loop_end (outs ++ themes) acc calls c.
Proof.
  rewrite processOutputFile_iteration, processThemeFile_iteration.
  destruct (loop_run (fun _ => ":root") all dir outs acc st)
    as (c1 & st1 & calls1 & H1 & Hcalls1 & Hsrc1 & Hle1 & Hc1).
  destruct c1 as [[acc1|e]|e]; [|done|].
  - destruct (loop_run themeSelector all dir themes acc1 st1)
      as (c2 & st2 & calls2 & H2 & Hcalls2 & Hsrc2 & Hle2 & Hc2).
    exists c2, st2, (calls1 ++ calls2).
    rewrite (bind_ok _ _ _ _ _ H1), H2.
    rewrite Hcalls2, Hcalls1, <- !app_assoc, length_app.
    split_and!; try done; try lia; [by apply Forall_app|].
    destruct c2 as [[acc2|e]|e]; [|done..].
    destruct Hc1 as (new1 & Hres1 & Htok1 & Hskip1 & Hsub1 & Hn1).
    destruct Hc2 as (new2 & Hres2 & Htok2 & Hskip2 & Hsub2 & Hn2).
    exists (new1 ++ new2). unfold looped.
    rewrite Hres2, Hres1, Htok2, Htok1, <- !app_assoc.
    rewrite fmap_app, !length_app, total_tokens_app.
    split_and!; try done; try lia.
    by apply sublist_app.
  - exists (Unhandled e), st1, calls1.
    rewrite (bind_unhandled _ _ _ _ _ H1).
    split_and!; try done. lia.
Qed.

(** A run whose output directory is there or can be made never throws:
    it returns its results, or the process ends in one of its engine
    invocations. *)
Lemma transformTokens_run d out st :
  output_dir_ready out (world st) →
  ∃ c st' calls,
    transformTokens d out st = (c, st') ∧
    engine_calls st' = engine_calls st ++ calls ∧
    Forall (fun c => source c = allFiles d) calls ∧
    length calls ≤ length (outputFiles d) + length (themeFiles d) ∧
    match c with
    | Settled (Ok (results, stats)) => returned d calls results stats
    | Settled (Throw _) => False
    | Unhandled e => engine_ends e
    end.
Proof.
  intros Hready. unfold transformTokens.
  erewrite bind_ok by reflexivity.
  erewrite bind_ok by reflexivity. simpl.
  assert (∃ w0 lines,
            (if negb match fs_lookup (resolveOutputDir out)
                             (registered (world st)) with
                     | NotFound => false
                     | _ => true
                     end
             then run mkdirSync (resolveOutputDir out) in
                  logger DEBUG ("Created output directory: "
                                +:+ resolveOutputDir out)
             else ret tt)
              (RunState (registered (world st))
                 (console st ++
                  [(DEBUG, "Registered custom name transform")])
                 (engine_calls st))
            = (Ok tt, RunState w0 lines (engine_calls st)))
    as (w0 & lines & Hsetup).
  { destruct Hready as [Hthere|Hmk].
    - unfold registered in *.
      destruct (fs_lookup _ _); [done|..]; by eexists _, _.
    - unfold registered in *.
      destruct (fs_lookup _ _); [|by eexists _, _..].
      simpl. unfold bind, mkdirSync. simpl.
      destruct (fs_mkdirSync _ _) as [[[]|e] w1]; [|done].
      by eexists _, _. }
  unfold registered in *. rewrite (bind_ok _ _ _ _ _ Hsetup). simpl.
  edestruct (loops_run (allFiles d) (resolveOutputDir out)
               (outputFiles d) (themeFiles d))
    as (c & st' & calls & -> & Hcalls & Hsrc & Hle & Hc).
  exists c, st', calls. split_and!; try done.
  destruct c as [[[results stats]|e]|e]; [|done..].
  destruct Hc as (new & Hres & Htok & Hskip & Hsub & Hn).
  rewrite length_app in Hskip.
  simpl in *. subst results. unfold returned. split_and!; try done; lia.
Qed.

End WithHost.
End TransformWhole.

(** ** Engine invocations of one file *)

Module CallFacts.
Import Discover Tokens Transform Spec RunFacts TransformRun TransformWhole.

Section WithHost.
Context {host : Host}.

Lemma new_calls_app (st st' : run_state) calls :
  engine_calls st' = engine_calls st ++ calls → new_calls st st' = calls.
Proof. unfold new_calls. intros ->. by rewrite drop_app_length. Qed.

(** A turn of a loop invokes the engine as its [processTokenFile]
    does. *)
Lemma iteration_calls sel all dir f acc st :
  new_calls st (snd (iteration sel all dir f acc st))
  = new_calls st (snd (processTokenFile f all dir (sel f) st)).
Proof.
  destruct (processTokenFile f all dir (sel f) st) as [[[r|e]|e] st1] eqn:Hp.
  - by rewrite (iteration_ok _ _ _ _ _ _ _ _ Hp).
  - by rewrite (iteration_throw _ _ _ _ _ _ _ _ Hp).
  - by rewrite (iteration_unhandled _ _ _ _ _ _ _ _ Hp).
Qed.

(** A file that is read, parsed and valid gets one invocation, with
    the configuration made for it. *)
Lemma process_calls_valid f all dir sel st doc :
  document_of f (world st) = Ok doc →
  validateDTCGFormat doc (Path.basename f) = Ok tt →
  new_calls st (snd (processTokenFile f all dir sel st))
  = [styleDictionaryConfig all dir (getOutputFileName f) sel
       (extractTokenPaths doc [] ∅)].
Proof.
  intros Hdoc Hv.
  destruct (sd_build (styleDictionaryConfig all dir (getOutputFileName f)
                        sel (extractTokenPaths doc [] ∅)) (world st))
    as [[[[]|e]|e] w] eqn:Hb.
  - destruct (process_builds f all dir sel st doc w Hdoc Hv Hb) as [l ->].
    by apply new_calls_app.
  - destruct (process_engine_fails f all dir sel st doc e w Hdoc Hv Hb)
      as [l ->].
    by apply new_calls_app.
  - destruct (process_engine_ends f all dir sel st doc e w Hdoc Hv Hb)
      as [l ->].
    by apply new_calls_app.
Qed.

(** Any other file gets none. *)
Lemma process_calls_unreadable f all dir sel st e :
  document_of f (world st) = Throw e →
  new_calls st (snd (processTokenFile f all dir sel st)) = [].
Proof.
  intros Hdoc.
  destruct (process_unreadable f all dir sel st e Hdoc) as [l ->].
  apply new_calls_app. simpl. by rewrite app_nil_r.
Qed.

Lemma process_calls_invalid f all dir sel st doc e :
  document_of f (world st) = Ok doc →
  validateDTCGFormat doc (Path.basename f) = Throw e →
  new_calls st (snd (processTokenFile f all dir sel st)) = [].
Proof.
  intros Hdoc Hv.
  destruct (process_invalid f all dir sel st doc e Hdoc Hv) as [l ->].
  apply new_calls_app. simpl. by rewrite app_nil_r.
Qed.

(** Every invocation made for a file carries the configuration made
    for it. *)
Lemma process_calls_config f all dir sel st config :
  config ∈ new_calls st (snd (processTokenFile f all dir sel st)) →
  ∃ doc,
    document_of f (world st) = Ok doc ∧
    config = styleDictionaryConfig all dir (getOutputFileName f) sel
               (extractTokenPaths doc [] ∅).
Proof.
  destruct (document_of f (world st)) as [doc|e] eqn:Hdoc.
  2: { rewrite (process_calls_unreadable _ _ _ _ _ e Hdoc).
       by intros ?%elem_of_nil. }
  destruct (validateDTCGFormat doc (Path.basename f)) as [[]|e] eqn:Hv.
  2: { rewrite (process_calls_invalid _ _ _ _ _ doc e Hdoc Hv).
       by intros ?%elem_of_nil. }
  rewrite (process_calls_valid _ _ _ _ _ doc Hdoc Hv).
  intros ->%list_elem_of_singleton. by exists doc.
Qed.

(** The filter of a configuration accepts the tokens whose joined path
    is in the set it was made with. *)
Lemma pathFilter_spec paths t :
  pathFilter paths t = true ↔ Js.join "." (path t) ∈ paths.
Proof. unfold pathFilter. apply bool_decide_eq_true. Qed.

(** A run that cannot make its output directory throws before any
    file is looked at. *)
Lemma transformTokens_not_ready d out st :
  ¬ output_dir_ready out (world st) →
  ∃ e st', transformTokens d out st = (Throw e, st').
Proof.
  intros Hnot. unfold transformTokens.
  erewrite bind_ok by reflexivity.
  erewrite bind_ok by reflexivity. simpl.
  unfold output_dir_ready, registered in Hnot.
  destruct (fs_lookup _ _) eqn:Hl; [|exfalso; apply Hnot; by left..].
  simpl. unfold bind at 1 2, mkdirSync. simpl.
  destruct (fs_mkdirSync _ _) as [[[]|e] w1] eqn:Hm.
  - exfalso. apply Hnot. by right.
  - by eexists _, _.
Qed.

Lemma output_dir_ready_dec out w :
  output_dir_ready out w ∨ ¬ output_dir_ready out w.
Proof.
  unfold output_dir_ready.
  destruct (fs_lookup _ _); [|left; by left..].
  destruct (is_ok _) eqn:E; [left; by right|].
  right. by intros [?|?].
Qed.

(** What holds of every run that returns. *)
Lemma transformTokens_returned d out st results stats st' :
  transformTokens d out st = (Ok (results, stats), st') →
  tokensProcessed stats = total_tokens results ∧
  tokensSkipped stats + length results
  = length (outputFiles d) + length (themeFiles d) ∧
  sublist (inputPath <$> results) (outputFiles d ++ themeFiles d) ∧
  Forall (fun c => source c = allFiles d) (new_calls st st') ∧
  length results ≤ length (new_calls st st') ∧
  length (new_calls st st')
  ≤ length (outputFiles d) + length (themeFiles d).
Proof.
  intros Hrun.
  destruct (output_dir_ready_dec out (world st)) as [Hready|Hnot].
  - destruct (transformTokens_run d out st Hready)
      as (c & st1 & calls & E & H4 & H5 & H7 & Hc).
    rewrite E in Hrun. injection Hrun as -> <-.
    destruct Hc as (H1 & H2 & H3 & H6).
    rewrite (new_calls_app _ _ _ H4). done.
  - destruct (transformTokens_not_ready d out st Hnot) as (e & st1 & E).
    by rewrite E in Hrun.
Qed.

End WithHost.
End CallFacts.

(** ** Invariants of the run loop *)

Module LoopFacts.
Import Discover Tokens Transform Spec Notions.
Import RunFacts TransformRun TransformWhole CallFacts.

Section WithHost.
Context {host : Host}.

(** What a successful call returns. *)
Lemma process_result f all dir sel st r st1 :
  processTokenFile f all dir sel st = (Ok r, st1) →
  ∃ doc,
    document_of f (world st) = Ok doc ∧
    validateDTCGFormat doc (Path.basename f) = Ok tt ∧
    r = {| outputPath := path_join dir (getOutputFileName f);
           tokenCount := countTokens doc 0;
           inputPath := f |}.
Proof.
  intros Hp.
  destruct (document_of f (world st)) as [doc|e] eqn:Hdoc.
  2: { destruct (process_unreadable f all dir sel st e Hdoc) as [l E].
       by rewrite E in Hp. }
  destruct (validateDTCGFormat doc (Path.basename f)) as [[]|e] eqn:Hv.
  2: { destruct (process_invalid f all dir sel st doc e Hdoc Hv) as [l E].
       by rewrite E in Hp. }
  destruct (sd_build (styleDictionaryConfig all dir (getOutputFileName f)
                        sel (extractTokenPaths doc [] ∅)) (world st))
    as [[[[]|e]|e] w] eqn:Hb.
  - destruct (process_builds f all dir sel st doc w Hdoc Hv Hb) as [l E].
    rewrite E in Hp. injection Hp as <- <-. by exists doc.
  - destruct (process_engine_fails f all dir sel st doc e w Hdoc Hv Hb)
      as [l E].
    by rewrite E in Hp.
  - destruct (process_engine_ends f all dir sel st doc e w Hdoc Hv Hb)
      as [l E].
    by rewrite E in Hp.
Qed.

(** A turn of a loop that lets the loop go on. *)
Lemma iteration_cases sel all dir f acc st :
  (∃ r st1,
     processTokenFile f all dir (sel f) st = (Ok r, st1) ∧
     iteration sel all dir f acc st = (Ok (recordResult r acc), st1)) ∨
  (∃ e st1 st2,
     processTokenFile f all dir (sel f) st = (Throw e, st1) ∧
     iteration sel all dir f acc st = (Ok (skipped acc), st2) ∧
     world st2 = world st1 ∧ engine_calls st2 = engine_calls st1) ∨
  (∃ e st1,
     processTokenFile f all dir (sel f) st = (Unhandled e, st1) ∧
     iteration sel all dir f acc st = (Unhandled e, st1)).
Proof.
  destruct (processTokenFile f all dir (sel f) st) as [[[r|e]|e] st1] eqn:Hp.
  - left. eexists _, _. split; [done|]. by apply iteration_ok.
  - right; left. eexists _, _, _. split; [done|].
    split; [by apply iteration_throw|done].
  - right; right. eexists _, _. split; [done|]. by apply iteration_unhandled.
Qed.

(** A loop that is left after its first turn was left after the first
    turn and after the loop over the rest. *)
Lemma for_of_turn sel all dir f files acc st acc' st' :
  for_of (f :: files) (iteration sel all dir) acc st = (Ok acc', st') →
  ∃ acc1 st1,
    iteration sel all dir f acc st = (Ok acc1, st1) ∧
    for_of files (iteration sel all dir) acc1 st1 = (Ok acc', st').
Proof.
  rewrite for_of_cons. unfold bind at 1.
  destruct (iteration sel all dir f acc st) as [[[acc1|e]|e] st1];
    [|done..].
  intros Hrest. by exists acc1, st1.
Qed.

(** A property of the variables [results] and [stats] that each turn
    keeps holds when the loop is left. *)
Lemma loop_invariant (I : accumulator → Prop) sel all dir files :
  (∀ f acc st r st1,
     I acc → processTokenFile f all dir (sel f) st = (Ok r, st1) →
     I (recordResult r acc)) →
  (∀ acc, I acc → I (skipped acc)) →
  ∀ acc st acc' st',
    I acc →
    for_of files (iteration sel all dir) acc st = (Ok acc', st') →
    I acc'.
Proof.
  intros Hok Hskip. induction files as [|f files IH];
    intros acc st acc' st' HI Hrun.
  - rewrite for_of_nil in Hrun. by injection Hrun as <- <-.
  - apply for_of_turn in Hrun as (acc1 & st1 & Hit & Hrun).
    eapply IH; [|exact Hrun].
    destruct (iteration_cases sel all dir f acc st)
      as [(r & s1 & Hp & E)|[(e & s1 & s2 & Hp & E & _)|(e & s1 & Hp & E)]];
      rewrite E in Hit; [| |done]; injection Hit as <- <-.
    + by eapply Hok.
    + by apply Hskip.
Qed.

(** A run throws only while it sets up the output directory; otherwise
    it is the two loops, started after the set-up. *)
Lemma transformTokens_cases d out st :
  let resolved := resolveOutputDir out in
  let w := registered (world st) in
  (∃ e lines,
     fs_lookup resolved w = NotFound ∧
     fst (fs_mkdirSync resolved w) = Throw e ∧
     transformTokens d out st
     = (Throw e, RunState (snd (fs_mkdirSync resolved w))
                          (console st ++ lines) (engine_calls st))) ∨
  (∃ st0,
     output_dir_ready out (world st) ∧
     engine_calls st0 = engine_calls st ∧
     world st0 = match fs_lookup resolved w with
                 | NotFound => snd (fs_mkdirSync resolved w)
                 | _ => w
                 end ∧
     transformTokens d out st
     = bind (for_of (outputFiles d)
               (processOutputFile (allFiles d) resolved) no_results)
            (for_of (themeFiles d)
               (processThemeFile (allFiles d) resolved)) st0).
Proof.
  intros resolved w. unfold transformTokens.
  erewrite bind_ok by reflexivity.
  erewrite bind_ok by reflexivity. simpl.
  fold resolved. unfold output_dir_ready. fold resolved.
  change (sd_registerTransform CUSTOM_NAME_TRANSFORM customNameTransform
            (world st)) with w.
  change (registered (world st)) with w.
  destruct (fs_lookup resolved w) eqn:Hl.
  - cbn [negb]. destruct (fs_mkdirSync resolved w) as [[[]|e] w1] eqn:Hm.
    + right. eexists. split; [by right|].
      split_and!; [| |erewrite bind_ok
                 by (unfold bind, mkdirSync, logger; simpl; rewrite Hm;
                     reflexivity);
               reflexivity]; done.
    + left. exists e, [(DEBUG, "Registered custom name transform")].
      split_and!; [done..|].
      apply bind_throw. unfold bind, mkdirSync. simpl. by rewrite Hm.
  - right. eexists. split; [by left|]. split_and!; [| |reflexivity]; done.
  - right. eexists. split; [by left|]. split_and!; [| |reflexivity]; done.
Qed.

(** A run that returns has been through both loops. *)
Lemma transformTokens_loops d out st acc' st' :
  transformTokens d out st = (Ok acc', st') →
  ∃ st0 acc1 st1,
    engine_calls st0 = engine_calls st ∧
    for_of (outputFiles d)
      (iteration (fun _ => ":root") (allFiles d) (resolveOutputDir out))
      no_results st0 = (Ok acc1, st1) ∧
    for_of (themeFiles d)
      (iteration themeSelector (allFiles d) (resolveOutputDir out))
      acc1 st1 = (Ok acc', st').
Proof.
  intros Hrun.
  destruct (transformTokens_cases d out st)
    as [(e & lines & _ & _ & E)|(st0 & _ & Hst0 & _ & E)];
    rewrite E in Hrun; [done|].
  rewrite processOutputFile_iteration, processThemeFile_iteration in Hrun.
  unfold bind in Hrun.
  destruct (for_of (outputFiles d) _ no_results st0)
    as [[[acc1|e]|e] st1] eqn:H1; [|done..].
  by exists st0, acc1, st1.
Qed.

Lemma transformTokens_invariant (I : accumulator → Prop) d out :
  (∀ f sel acc st r st1,
     I acc →
     processTokenFile f (allFiles d) (resolveOutputDir out) sel st
     = (Ok r, st1) →
     I (recordResult r acc)) →
  (∀ acc, I acc → I (skipped acc)) →
  I no_results →
  ∀ st acc' st',
    transformTokens d out st = (Ok acc', st') → I acc'.
Proof.
  intros Hok Hskip H0 st acc' st' Hrun.
  apply transformTokens_loops in Hrun as (st0 & acc1 & st1 & _ & H1 & H2).
  eapply (loop_invariant I) in H1; [|by eauto..].
  eapply (loop_invariant I) in H2; by eauto.
Qed.

(** The invocation record only grows in a loop. *)
Lemma loop_growth sel all dir files acc st c st' :
  for_of files (iteration sel all dir) acc st = (c, st') →
  ∃ calls, engine_calls st' = engine_calls st ++ calls.
Proof.
  intros Hrun.
  destruct (loop_run sel all dir files acc st)
    as (c' & st2 & calls & E & Hcalls & _).
  rewrite Hrun in E. injection E as <- <-. by exists calls.
Qed.

(** The invocations and the result of a turn that lets the loop go
    on. *)
Lemma turn_calls sel all dir f acc st acc1 st1 :
  iteration sel all dir f acc st = (Ok acc1, st1) →
  ∃ c1,
    engine_calls st1 = engine_calls st ++ c1 ∧
    (∀ config, config ∈ c1 →
       ∃ paths, config = styleDictionaryConfig all dir (getOutputFileName f)
                           (sel f) paths) ∧
    (∀ r, r ∈ fst acc1 →
       r ∈ fst acc ∨
       inputPath r = f ∧
       ∃ paths, styleDictionaryConfig all dir (getOutputFileName f)
                  (sel f) paths ∈ c1).
Proof.
  intros Hit.
  destruct (process_summary f all dir (sel f) st)
    as (c1 & Hc1 & _ & _ & _ & _).
  pose proof (process_calls_config f all dir (sel f) st) as Hcfg.
  rewrite (new_calls_app _ _ _ Hc1) in Hcfg.
  exists c1.
  destruct (iteration_cases sel all dir f acc st)
    as [(r & s1 & Hp & E)|[(e & s1 & s2 & Hp & E & _ & Hs2)|(e & s1 & Hp & E)]];
    rewrite E in Hit; [| |done]; injection Hit as <- <-;
    rewrite Hp in Hc1; simpl in Hc1.
  - split_and!; [done| |].
    + intros config Hin. destruct (Hcfg config Hin) as (doc & _ & ->).
      by eexists.
    + destruct acc as [results stats]. simpl.
      intros r' [Hin|Hr'%list_elem_of_singleton]%elem_of_app; [by left|].
      subst r'. right.
      destruct (process_result _ _ _ _ _ _ _ Hp) as (doc & Hdoc & Hv & ->).
      split; [done|]. exists (extractTokenPaths doc [] ∅).
      pose proof (process_calls_valid f all dir (sel f) st doc Hdoc Hv)
        as Hone.
      rewrite Hp in Hone. simpl in Hone.
      rewrite (new_calls_app _ _ _ Hc1) in Hone. rewrite Hone. by left.
  - split_and!; [by rewrite Hs2| |].
    + intros config Hin. destruct (Hcfg config Hin) as (doc & _ & ->).
      by eexists.
    + destruct acc as [results stats]. simpl. by left.
Qed.

(** Every invocation made in a loop is the one of some file of the
    loop, and every result that the loop adds has the invocation of its
    file. *)
Lemma loop_calls sel all dir files : ∀ acc st acc' st',
  for_of files (iteration sel all dir) acc st = (Ok acc', st') →
  (∀ config, config ∈ new_calls st st' →
     ∃ f paths,
       f ∈ files ∧
       config = styleDictionaryConfig all dir (getOutputFileName f) (sel f)
                  paths) ∧
  (∀ r, r ∈ fst acc' →
     r ∈ fst acc ∨
     inputPath r ∈ files ∧
     ∃ paths,
       styleDictionaryConfig all dir (getOutputFileName (inputPath r))
         (sel (inputPath r)) paths ∈ new_calls st st').
Proof.
  induction files as [|f files IH]; intros acc st acc' st' Hrun.
  - rewrite for_of_nil in Hrun. injection Hrun as <- <-.
    unfold new_calls. rewrite drop_all.
    split; [by intros config ?%elem_of_nil|by left].
  - apply for_of_turn in Hrun as (acc1 & st1 & Hit & Hrun).
    destruct (turn_calls _ _ _ _ _ _ _ _ Hit) as (c1 & Hst1 & Hcfg1 & Hres1).
    destruct (loop_growth _ _ _ _ _ _ _ _ Hrun) as [calls Hcalls].
    destruct (IH _ _ _ _ Hrun) as [Hcfg Hres].
    rewrite (new_calls_app _ _ _ Hcalls) in Hcfg, Hres.
    assert (engine_calls st' = engine_calls st ++ c1 ++ calls) as Hall
      by (by rewrite Hcalls, Hst1, <- app_assoc).
    rewrite (new_calls_app _ _ _ Hall). split.
    + intros config [Hin|Hin]%elem_of_app.
      * destruct (Hcfg1 config Hin) as (paths & ->).
        exists f, paths. split; [by left|done].
      * destruct (Hcfg config Hin) as (f' & paths & Hf' & ->).
        exists f', paths. split; [by right|done].
    + intros r Hr. destruct (Hres r Hr) as [Hr1|(Hin & paths & Hc)].
      * destruct (Hres1 r Hr1) as [?|(-> & paths & Hc)]; [by left|].
        right. split; [by left|]. exists paths. apply elem_of_app. by left.
      * right. split; [by right|]. exists paths. apply elem_of_app.
        by right.
Qed.

(** The same for a whole run. *)
Lemma transformTokens_calls d out st acc' st' :
  transformTokens d out st = (Ok acc', st') →
  (∀ config, config ∈ new_calls st st' →
     ∃ f paths,
       (f ∈ outputFiles d ∧
        config = styleDictionaryConfig (allFiles d) (resolveOutputDir out)
                   (getOutputFileName f) ":root" paths) ∨
       (f ∈ themeFiles d ∧
        config = styleDictionaryConfig (allFiles d) (resolveOutputDir out)
                   (getOutputFileName f) (themeSelector f) paths)) ∧
  (∀ r, r ∈ fst acc' →
     ∃ paths,
       (inputPath r ∈ outputFiles d ∧
        styleDictionaryConfig (allFiles d) (resolveOutputDir out)
          (getOutputFileName (inputPath r)) ":root" paths
        ∈ new_calls st st') ∨
       (inputPath r ∈ themeFiles d ∧
        styleDictionaryConfig (allFiles d) (resolveOutputDir out)
          (getOutputFileName (inputPath r)) (themeSelector (inputPath r))
          paths ∈ new_calls st st')).
Proof.
  intros Hrun.
  apply transformTokens_loops in Hrun as (st0 & acc1 & st1 & Hst0 & H1 & H2).
  destruct (loop_calls _ _ _ _ _ _ _ _ H1) as [Hc1 Hr1].
  destruct (loop_calls _ _ _ _ _ _ _ _ H2) as [Hc2 Hr2].
  destruct (loop_growth _ _ _ _ _ _ _ _ H1) as [calls1 Hcalls1].
  destruct (loop_growth _ _ _ _ _ _ _ _ H2) as [calls2 Hcalls2].
  rewrite (new_calls_app _ _ _ Hcalls1) in Hc1, Hr1.
  rewrite (new_calls_app _ _ _ Hcalls2) in Hc2, Hr2.
  assert (engine_calls st' = engine_calls st ++ calls1 ++ calls2) as Hall
    by (by rewrite Hcalls2, Hcalls1, Hst0, <- app_assoc).
  rewrite (new_calls_app _ _ _ Hall). split.
  - intros config [Hin|Hin]%elem_of_app.
    + destruct (Hc1 config Hin) as (f & paths & Hf & ->).
      exists f, paths. by left.
    + destruct (Hc2 config Hin) as (f & paths & Hf & ->).
      exists f, paths. by right.
  - intros r Hr. destruct (Hr2 r Hr) as [Hr'|(Hin & paths & Hc)].
    + destruct (Hr1 r Hr') as [?%elem_of_nil|(Hin & paths & Hc)]; [done|].
      exists paths. left. split; [done|]. apply elem_of_app. by left.
    + exists paths. right. split; [done|]. apply elem_of_app. by right.
Qed.

(** The process ends under [transformTokens] only where the engine
    leaves a failure unhandled, and the engine has then been invoked. *)
Lemma transformTokens_ends d out st e st' :
  transformTokens d out st = (Unhandled e, st') →
  engine_ends e ∧ new_calls st st' ≠ [].
Proof.
  intros Hrun.
  destruct (output_dir_ready_dec out (world st)) as [Hready|Hnot].
  - destruct (transformTokens_cases d out st)
      as [(e' & lines & _ & _ & E)|(st0 & _ & Hst0 & _ & E)];
      rewrite E in Hrun; [done|].
    rewrite processOutputFile_iteration,
      processThemeFile_iteration in Hrun.
    assert (∀ sel files acc s0 s1,
              for_of files (iteration sel (allFiles d) (resolveOutputDir out))
                acc s0 = (Unhandled e, s1) →
              engine_ends e ∧ new_calls s0 s1 ≠ []) as Hloop.
    { intros sel files. induction files as [|f files IH];
        intros acc s0 s1 Hl; [done|].
      rewrite for_of_cons in Hl. unfold bind at 1 in Hl.
      destruct (iteration_cases sel (allFiles d)
                  (resolveOutputDir out) f acc s0)
        as [(r & s2 & Hp & Hit)|[(e2 & s2 & s3 & Hp & Hit & _ & Hs3)
                                |(e2 & s2 & Hp & Hit)]];
        rewrite Hit in Hl.
      - destruct (IH _ _ _ Hl) as [He Hne]. split; [done|].
        destruct (process_summary f (allFiles d)
                    (resolveOutputDir out) (sel f) s0)
          as (c1 & Hc1 & _).
        rewrite Hp in Hc1. simpl in Hc1.
        destruct (loop_growth _ _ _ _ _ _ _ _ Hl) as [calls Hc].
        rewrite (new_calls_app _ _ _ Hc) in Hne.
        assert (engine_calls s1 = engine_calls s0 ++ c1 ++ calls) as Hall
          by (by rewrite Hc, Hc1, <- app_assoc).
        rewrite (new_calls_app _ _ _ Hall).
        intros [_ ?]%app_eq_nil. done.
      - destruct (IH _ _ _ Hl) as [He Hne]. split; [done|].
        destruct (process_summary f (allFiles d)
                    (resolveOutputDir out) (sel f) s0)
          as (c1 & Hc1 & _).
        rewrite Hp in Hc1. simpl in Hc1.
        destruct (loop_growth _ _ _ _ _ _ _ _ Hl) as [calls Hc].
        rewrite (new_calls_app _ _ _ Hc) in Hne.
        assert (engine_calls s1 = engine_calls s0 ++ c1 ++ calls) as Hall
          by (by rewrite Hc, Hs3, Hc1, <- app_assoc).
        rewrite (new_calls_app _ _ _ Hall).
        intros [_ ?]%app_eq_nil. done.
      - injection Hl as He Hs. subst e2 s2.
        destruct (process_summary f (allFiles d)
                    (resolveOutputDir out) (sel f) s0)
          as (c1 & Hc1 & _ & _ & Hok & Hend).
        rewrite Hp in Hc1, Hend. simpl in Hc1, Hend.
        split; [by apply Hend|].
        rewrite (new_calls_app _ _ _ Hc1). intros ->.
        pose proof (process_calls_config f (allFiles d)
                      (resolveOutputDir out) (sel f) s0) as Hcfg.
        destruct (document_of f (world s0)) as [doc|e'] eqn:Hdoc.
        2: { destruct (process_unreadable f (allFiles d)
                         (resolveOutputDir out) (sel f) s0 e' Hdoc)
               as [l E']. by rewrite E' in Hp. }
        destruct (validateDTCGFormat doc (Path.basename f)) as [[]|e']
          eqn:Hv.
        2: { destruct (process_invalid f (allFiles d)
                         (resolveOutputDir out) (sel f) s0 doc e' Hdoc Hv)
               as [l E']. by rewrite E' in Hp. }
        pose proof (process_calls_valid f (allFiles d)
                      (resolveOutputDir out) (sel f) s0 doc Hdoc Hv) as H1.
        rewrite Hp in H1. simpl in H1.
        rewrite (new_calls_app s0 s1 []) in H1; [done|exact Hc1]. }
    unfold bind in Hrun.
    destruct (for_of (outputFiles d) _ no_results st0)
      as [[[acc1|e1]|e1] st1] eqn:H1.
    + destruct (Hloop _ _ _ _ _ Hrun) as [He Hne]. split; [done|].
      destruct (loop_growth _ _ _ _ _ _ _ _ H1) as [calls1 Hc1].
      destruct (loop_growth _ _ _ _ _ _ _ _ Hrun) as [calls2 Hc2].
      rewrite (new_calls_app _ _ _ Hc2) in Hne.
      assert (engine_calls st' = engine_calls st ++ calls1 ++ calls2)
        as Hall by (by rewrite Hc2, Hc1, Hst0, <- app_assoc).
      rewrite (new_calls_app _ _ _ Hall).
      intros [_ ?]%app_eq_nil. done.
    + done.
    + injection Hrun as He Hs. subst e1 st1.
      destruct (Hloop _ _ _ _ _ H1) as [He Hne]. split; [done|].
      unfold new_calls in *. by rewrite <- Hst0.
  - destruct (transformTokens_not_ready d out st Hnot) as (e' & st1 & E).
    by rewrite E in Hrun.
Qed.

End WithHost.

(** *** The count map *)

Lemma counts_of_snoc results r :
  counts_of (results ++ [r])
  = <[outputPath r := tokenCount r]> (counts_of results).
Proof. unfold counts_of. by rewrite fold_left_app. Qed.

(** The count recorded for a path is the count of the last result that
    has it. *)
Lemma counts_of_lookup results p :
  counts_of results !! p
  = tokenCount <$> last (List.filter (fun r => String.eqb (outputPath r) p)
                                     results).
Proof.
  induction results as [|r results IH] using rev_ind; [done|].
  rewrite counts_of_snoc, List.filter_app. simpl.
  destruct (String.eqb (outputPath r) p) eqn:E.
  - apply String.eqb_eq in E as ->. by rewrite lookup_insert_eq, last_snoc.
  - apply String.eqb_neq in E. rewrite lookup_insert_ne by done.
    by rewrite app_nil_r.
Qed.

Lemma counts_of_size results : size (counts_of results) ≤ length results.
Proof.
  induction results as [|r results IH] using rev_ind; [done|].
  rewrite counts_of_snoc, length_app. simpl.
  destruct (counts_of results !! outputPath r) eqn:E.
  - rewrite map_size_insert_Some by (by eexists). lia.
  - rewrite map_size_insert_None by done. lia.
Qed.

Lemma counts_of_dom results p :
  is_Some (counts_of results !! p) ↔ ∃ r, r ∈ results ∧ outputPath r = p.
Proof.
  induction results as [|r results IH] using rev_ind.
  - split; [by intros [? ?]|]. by intros (? & ?%elem_of_nil & _).
  - rewrite counts_of_snoc. split.
    + destruct (decide (outputPath r = p)) as [<-|Hne].
      * intros _. exists r. split; [|done]. apply elem_of_app. right. by left.
      * rewrite lookup_insert_ne by done. intros (r' & Hin & E)%IH.
        exists r'. split; [|done]. apply elem_of_app. by left.
    + intros (r' & Hin & <-).
      apply elem_of_app in Hin as [Hin|Hin%list_elem_of_singleton].
      * destruct (decide (outputPath r = outputPath r')) as [->|Hne].
        -- by rewrite lookup_insert_eq.
        -- rewrite lookup_insert_ne by done. apply IH. by exists r'.
      * subst r'. by rewrite lookup_insert_eq.
Qed.

Lemma counts_of_NoDup results :
  size (counts_of results) = length results
  ↔ NoDup (outputPath <$> results).
Proof.
  induction results as [|r results IH] using rev_ind.
  - split; [constructor|done].
  - rewrite counts_of_snoc, length_app, fmap_app, NoDup_app. simpl.
    pose proof (counts_of_size results) as Hle.
    destruct (counts_of results !! outputPath r) eqn:E.
    + rewrite map_size_insert_Some by (by eexists). split; [lia|].
      intros (_ & Hnot & _). exfalso.
      assert (is_Some (counts_of results !! outputPath r)) as Hs
        by (by eexists).
      apply counts_of_dom in Hs as (r' & Hin & Hp).
      apply (Hnot (outputPath r)); [|by left].
      apply list_elem_of_fmap. by exists r'.
    + rewrite map_size_insert_None by done. split.
      * intros Hsize. split_and!.
        -- apply IH. lia.
        -- intros p (r' & Hp & Hin)%list_elem_of_fmap
             Hp'%list_elem_of_singleton.
           assert (is_Some (counts_of results !! outputPath r)) as [? Hs]
             by (apply counts_of_dom; exists r'; split; congruence).
           congruence.
        -- apply NoDup_singleton.
      * intros (Hnd & _ & _). apply IH in Hnd. lia.
Qed.

End LoopFacts.

(** ** The classified files *)

Module BucketFacts.
Import Discover Spec JsFacts RunFacts DiscoverFacts DiscoverRun.

Lemma elem_of_filter (p : string → bool) l f :
  f ∈ List.filter p l ↔ f ∈ l ∧ p f = true.
Proof. rewrite !list_elem_of_In. apply filter_In. Qed.

Lemma in_bucket_reference f :
  in_bucket Reference f = true
  ↔ Js.regex_test REFERENCE_PATTERN (Path.basename f) = true.
Proof.
  unfold in_bucket, bucket_of.
  destruct (Js.regex_test REFERENCE_PATTERN _); [done|].
  destruct (Js.regex_test THEME_PATTERN _); [done|].
  by destruct (Js.regex_test OUTPUT_PATTERN _).
Qed.

Lemma in_bucket_theme f :
  in_bucket Theme f = true
  ↔ Js.regex_test REFERENCE_PATTERN (Path.basename f) = false ∧
    Js.regex_test THEME_PATTERN (Path.basename f) = true.
Proof.
  unfold in_bucket, bucket_of.
  destruct (Js.regex_test REFERENCE_PATTERN _); [intuition congruence|].
  destruct (Js.regex_test THEME_PATTERN _); [done|].
  destruct (Js.regex_test OUTPUT_PATTERN _); intuition congruence.
Qed.

Lemma in_bucket_output f :
  in_bucket Output f = true
  ↔ Js.regex_test REFERENCE_PATTERN (Path.basename f) = false ∧
    Js.regex_test THEME_PATTERN (Path.basename f) = false ∧
    Js.regex_test OUTPUT_PATTERN (Path.basename f) = true.
Proof.
  unfold in_bucket, bucket_of.
  destruct (Js.regex_test REFERENCE_PATTERN _); [intuition congruence|].
  destruct (Js.regex_test THEME_PATTERN _); [intuition congruence|].
  destruct (Js.regex_test OUTPUT_PATTERN _); intuition congruence.
Qed.

(** A file is in one bucket at most. *)
Lemma in_bucket_unique b1 b2 f :
  in_bucket b1 f = true → in_bucket b2 f = true → b1 = b2.
Proof.
  unfold in_bucket. destruct (bucket_of _) as [[]|], b1, b2; done.
Qed.

Lemma buckets_length found :
  length (List.filter (in_bucket Reference) found)
  + length (List.filter (in_bucket Theme) found)
  + length (List.filter (in_bucket Output) found) ≤ length found.
Proof.
  induction found as [|f found IH]; simpl; [done|].
  destruct (in_bucket Reference f) eqn:E1, (in_bucket Theme f) eqn:E2,
           (in_bucket Output f) eqn:E3; simpl; try lia;
    try (by pose proof (in_bucket_unique _ _ _ E1 E2));
    try (by pose proof (in_bucket_unique _ _ _ E1 E3));
    by pose proof (in_bucket_unique _ _ _ E2 E3).
Qed.

Lemma no_token_files found :
  allFiles (classified found) = []
  ↔ ∀ f, f ∈ found →
         Js.regex_test REFERENCE_PATTERN (Path.basename f) = false ∧
         Js.regex_test THEME_PATTERN (Path.basename f) = false ∧
         Js.regex_test OUTPUT_PATTERN (Path.basename f) = false.
Proof.
  simpl. split.
  - intros [Hr [Ht Ho]%app_eq_nil]%app_eq_nil f Hf.
    destruct (Js.regex_test REFERENCE_PATTERN _) eqn:E1.
    { assert (f ∈ List.filter (in_bucket Reference) found) as Hin
        by (apply elem_of_filter; split; [done|by apply in_bucket_reference]).
      rewrite Hr in Hin. by apply elem_of_nil in Hin. }
    destruct (Js.regex_test THEME_PATTERN _) eqn:E2.
    { assert (f ∈ List.filter (in_bucket Theme) found) as Hin
        by (apply elem_of_filter; split; [done|by apply in_bucket_theme]).
      rewrite Ht in Hin. by apply elem_of_nil in Hin. }
    destruct (Js.regex_test OUTPUT_PATTERN _) eqn:E3; [|done].
    assert (f ∈ List.filter (in_bucket Output) found) as Hin
      by (apply elem_of_filter; split; [done|by apply in_bucket_output]).
    rewrite Ho in Hin. by apply elem_of_nil in Hin.
  - intros Hnone.
    assert (∀ b, List.filter (in_bucket b) found = []) as Hb.
    { intros b. apply elem_of_nil_inv. intros f [Hf Hin]%elem_of_filter.
      destruct (Hnone f Hf) as (H1 & H2 & H3).
      destruct b.
      - apply in_bucket_reference in Hin. congruence.
      - apply in_bucket_theme in Hin as [_ Hin]. congruence.
      - apply in_bucket_output in Hin as (_ & _ & Hin). congruence. }
    by rewrite !Hb.
Qed.

Section WithHost.
Context {host : Host}.

(** What discovery returns, when it returns. *)
Lemma discover_returned dir st d st' :
  discoverTokenFiles dir st = (Ok d, st') →
  d = classified (files_under dir (world st)) ∧
  allFiles d ≠ [] ∧ world st' = world st.
Proof.
  intros Hrun.
  destruct (allFiles (classified (files_under dir (world st)))) eqn:E.
  - destruct (discover_throws dir st E) as (e & st1 & Hthrow).
    by rewrite Hthrow in Hrun.
  - destruct (discover_returns dir st) as [lines Hret];
      [by rewrite E|].
    rewrite Hret in Hrun. injection Hrun as <- <-.
    by rewrite E.
Qed.

End WithHost.
End BucketFacts.

(** ** Discovery and the tree under the root *)

Module DiscoverTree.
Import Discover Spec Notions JsFacts RunFacts DiscoverFacts DiscoverRun.
Import WalkTree BucketFacts.

Lemma reaches_nil {host : Host} dir f : ¬ reaches dir [] f.
Proof.
  inversion 1 as [? ? ? Hin|? ? ? ? ? Hin]; by apply elem_of_nil in Hin.
Qed.

Lemma blocked_nil error : ¬ blocked [] error.
Proof.
  inversion 1 as [? ? ? Hin|? ? ? ? Hin]; by apply elem_of_nil in Hin.
Qed.

Lemma token_file_name_false f :
  token_file_name f = false
  ↔ Js.regex_test REFERENCE_PATTERN (Path.basename f) = false ∧
    Js.regex_test THEME_PATTERN (Path.basename f) = false ∧
    Js.regex_test OUTPUT_PATTERN (Path.basename f) = false.
Proof.
  unfold token_file_name. rewrite !orb_false_iff. intuition.
Qed.

Section WithHost.
Context {host : Host}.

(** Where every directory can be listed, the files of the walk are the
    regular files under the root. *)
Lemma files_under_spec dir w f :
  (∀ error, ¬ blocked_under dir w error) →
  f ∈ files_under dir w ↔ file_under dir w f.
Proof.
  unfold blocked_under, file_under, files_under, root_listing.
  destruct (fs_lookup dir w) as [| |entries].
  - intros _. split; [by intros ?%elem_of_nil|by intros ?%reaches_nil].
  - intros _. split; [by intros ?%elem_of_nil|by intros ?%reaches_nil].
  - intros Hfree.
    destruct (findFilesRecursive_returns dir entries [] Hfree)
      as (found & Hw & _).
    rewrite Hw. by apply elem_of_findFilesRecursive.
Qed.

(** Discovery throws what the walk throws. *)
Lemma discover_walk_throws dir st entries error :
  fs_lookup dir (world st) = DirectoryOf entries →
  findFilesRecursive dir entries [] = Throw error →
  ∃ lines,
    discoverTokenFiles dir st
    = (Throw error,
       RunState (world st) (console st ++ lines) (engine_calls st)).
Proof.
  intros Hl Hw. unfold discoverTokenFiles. rewrite bind_logger.
  unfold existsSync, readdirSync, read_world, bind at 1. simpl.
  rewrite Hl. simpl. unfold bind at 1. simpl. rewrite Hl, Hw.
  rewrite bind_lift_throw. by eexists.
Qed.

Lemma discover_blocked dir st error :
  blocked_under dir (world st) error →
  ∃ error' lines,
    blocked_under dir (world st) error' ∧
    discoverTokenFiles dir st
    = (Throw error',
       RunState (world st) (console st ++ lines) (engine_calls st)).
Proof.
  unfold blocked_under, root_listing.
  destruct (fs_lookup dir (world st)) as [| |entries] eqn:Hl;
    [by intros ?%blocked_nil..|].
  intros Hb.
  destruct (findFilesRecursive_blocked entries error Hb dir [])
    as [error' Hw].
  destruct (discover_walk_throws dir st entries error' Hl Hw) as [lines E].
  exists error', lines. split; [|done].
  by apply findFilesRecursive_throws in Hw.
Qed.

(** A discovery that returns has listed every directory. *)
Lemma discover_returned_free dir st d st' :
  discoverTokenFiles dir st = (Ok d, st') →
  ∀ error, ¬ blocked_under dir (world st) error.
Proof.
  intros Hrun error Hb.
  destruct (discover_blocked dir st error Hb) as (e & lines & _ & E).
  by rewrite E in Hrun.
Qed.

(** The error of a discovery that finds no token file in a tree that it
    can list. *)
Lemma discover_no_tokens dir st entries found :
  fs_lookup dir (world st) = DirectoryOf entries →
  findFilesRecursive dir entries [] = Ok found →
  allFiles (classified found) = [] →
  fst (discoverTokenFiles dir st)
  = Throw (ThrownError "Error"
             ("No token files found. Token files must have .inp.json, "
              +:+ ".theme.inp.json, or .ref.inp.json extension.")).
Proof.
  intros Hl Hw Hnone. unfold discoverTokenFiles. rewrite bind_logger.
  unfold existsSync, readdirSync, read_world, bind at 1. simpl.
  rewrite Hl. simpl. unfold bind at 1. simpl. rewrite Hl, Hw.
  rewrite bind_lift_ok, bind_logger.
  edestruct (categorize_loop found (Buckets [] [] [])) as [lines H].
  rewrite (bind_ok _ _ _ _ _ H). simpl.
  simpl in Hnone. apply app_eq_nil in Hnone as [-> [-> ->]%app_eq_nil].
  done.
Qed.

End WithHost.
End DiscoverTree.

(** ** The compiled [processTokenFile] against the source one *)

Module DistFacts.
Import Discover Tokens Transform Spec RunFacts TransformRun CallFacts.
Import JsonFacts WalkFacts.

Lemma validate_without_legacy doc name :
  hasLegacyTokenFormat doc = false →
  validateDTCGFormat doc name = Json.require_object_coercible doc.
Proof. unfold validateDTCGFormat. intros ->. by destruct doc. Qed.

Lemma validate_with_legacy doc name :
  hasLegacyTokenFormat doc = true →
  validateDTCGFormat doc name
  = Throw (ThrownError "Error" (formatErrorMessage name)).
Proof.
  intros H. unfold validateDTCGFormat.
  destruct doc; try done; by rewrite H.
Qed.

Lemma coercible_with_legacy doc :
  hasLegacyTokenFormat doc = true → Json.require_object_coercible doc = Ok tt.
Proof. by destruct doc. Qed.

Section WithHost.
Context {host : Host}.

(** Without a legacy object to find, the two do the same. *)
Lemma dist_agrees f all dir sel st :
  (∀ doc, document_of f (world st) = Ok doc →
          hasLegacyTokenFormat doc = false) →
  processTokenFile f all dir sel st = Dist.processTokenFile f all dir sel st.
Proof.
  intros Hno. unfold processTokenFile, Dist.processTokenFile.
  rewrite !bind_logger.
  apply bind_cong. intros text st2 Hread.
  apply bind_cong. intros doc st3 Hparse.
  unfold readFileSync in Hread. unfold lift in Hparse.
  simpl in Hread. injection Hread as Hread <-. injection Hparse as Hparse <-.
  rewrite (validate_without_legacy doc); [done|].
  apply Hno. unfold document_of. by rewrite Hread.
Qed.

(** The compiled one goes on to the engine with any document that can
    be walked. *)
Lemma dist_builds f all dir sel st doc :
  document_of f (world st) = Ok doc →
  Json.require_object_coercible doc = Ok tt →
  new_calls st (snd (Dist.processTokenFile f all dir sel st))
  = [styleDictionaryConfig all dir (getOutputFileName f) sel
       (extractTokenPaths doc [] ∅)] ∧
  fst (Dist.processTokenFile f all dir sel st)
  = match fst (sd_build
                 (styleDictionaryConfig all dir (getOutputFileName f) sel
                    (extractTokenPaths doc [] ∅)) (world st)) with
    | Ok _ => Ok {| outputPath := path_join dir (getOutputFileName f);
                    tokenCount := countTokens doc 0;
                    inputPath := f |}
    | Throw e => Throw e
    | Unhandled e => Unhandled e
    end.
Proof.
  unfold document_of, Dist.processTokenFile. rewrite bind_logger.
  unfold bind, readFileSync, lift, buildAllPlatforms, logger, ret. simpl.
  intros H Hc.
  destruct (fs_readFileSync f (world st)) as [text|e']; [|done].
  rewrite H, Hc.
  destruct (sd_build _ _) as [[[[]|e]|e] w]; simpl;
    (split; [by apply new_calls_app|done]).
Qed.

(** The source one stops at a document with a legacy object below its
    root. *)
Lemma source_rejects f all dir sel st doc :
  document_of f (world st) = Ok doc →
  hasLegacyTokenFormat doc = true →
  ∃ lines,
    processTokenFile f all dir sel st =
    (Throw (ThrownError "Error" (formatErrorMessage (Path.basename f))),
     RunState (world st) (console st ++ lines) (engine_calls st)).
Proof.
  intros Hdoc Hleg. eapply process_invalid; [done|].
  by apply validate_with_legacy.
Qed.

End WithHost.
End DistFacts.

(** ** Arrays are never tokens *)

Module ArrayFacts.
Import Json Tokens Spec.

Lemma numeral_is_not key i :
  NilEmpty.uint_of_string key = None → Js.number_to_string i ≠ key.
Proof.
  intros Hkey E. unfold Js.number_to_string in E.
  rewrite <- E, NilEmpty.usu in Hkey. done.
Qed.

(** An array has none of the two keys the program tests. *)
Lemma has_key_array items :
  has_key "$value" (JArr items) = false ∧
  has_key "value" (JArr items) = false.
Proof.
  split; simpl; rewrite orb_false_r; apply not_true_is_false;
    intros (i & _ & E)%existsb_exists; apply String.eqb_eq in E;
    by apply numeral_is_not in E.
Qed.

End ArrayFacts.

(* ================================================================== *)
(** * Part III: the claims                                             *)
(* ================================================================== *)

Section Claims.
Import Discover Tokens Transform Spec Notions.
Import JsFacts RunFacts DiscoverFacts DiscoverRun JsonFacts WalkFacts.
Import PathFacts NameFacts TransformRun TransformWhole CallFacts BucketFacts.
Import DistFacts ArrayFacts WalkTree LoopFacts DiscoverTree.

(** C1. A file whose base name is [X.inp.json], matching neither the
    reference nor the theme pattern, has the output file name
    [X.vars.gen.css]; found under the scanned root it is put in the output
    bucket and not in the theme bucket; when it is read and valid, its
    turn of the output loop invokes the engine once, with that
    destination under the selector [:root]; and in a run over the
    discovered files every result for it has such an invocation.  A file
    whose base name is [X.theme.inp.json] has the output file name
    [X.vars.gen.css] and the theme name [X], is put in the theme bucket and
    not in the output bucket, and is built likewise under the selector
    [[data-mantine-color-scheme='X']].  No invocation made for either
    file has another destination or selector.  A name without a slash is
    its own base name. *)
Theorem C1_output_name_and_selector {host : Host} :
  (∀ inputFile X,
     Path.basename inputFile = X +:+ ".inp.json" →
     Js.regex_test REFERENCE_PATTERN (X +:+ ".inp.json") = false →
     Js.regex_test THEME_PATTERN (X +:+ ".inp.json") = false →
     getOutputFileName inputFile = X +:+ ".vars.gen.css" ∧
     (∀ dir st d st',
        discoverTokenFiles dir st = (Ok d, st') →
        file_under dir (world st) inputFile →
        inputFile ∈ outputFiles d ∧ (inputFile ∉ themeFiles d)) ∧
     (∀ all dir acc st doc,
        document_of inputFile (world st) = Ok doc →
        validateDTCGFormat doc (Path.basename inputFile) = Ok tt →
        ∃ config fc,
          new_calls st (snd (processOutputFile all dir inputFile acc st))
          = [config] ∧
          files (css config) = [fc] ∧
          destination fc = X +:+ ".vars.gen.css" ∧
          selector fc = ":root") ∧
     (∀ dir st0 d st1 out st results stats st' r,
        discoverTokenFiles dir st0 = (Ok d, st1) →
        transformTokens d out st = (Ok (results, stats), st') →
        r ∈ results → inputPath r = inputFile →
        ∃ config fc,
          config ∈ new_calls st st' ∧
          files (css config) = [fc] ∧
          destination fc = X +:+ ".vars.gen.css" ∧
          selector fc = ":root") ∧
     (∀ all dir acc st config,
        config ∈ new_calls st (snd (processOutputFile all dir inputFile acc st)) →
        ∃ fc, files (css config) = [fc] ∧
              destination fc = X +:+ ".vars.gen.css" ∧
              selector fc = ":root")) ∧
  (∀ inputFile X,
     Path.basename inputFile = X +:+ ".theme.inp.json" →
     getOutputFileName inputFile = X +:+ ".vars.gen.css" ∧
     getThemeName inputFile = X ∧
     (∀ dir st d st',
        discoverTokenFiles dir st = (Ok d, st') →
        file_under dir (world st) inputFile →
        inputFile ∈ themeFiles d ∧ (inputFile ∉ outputFiles d)) ∧
     (∀ all dir acc st doc,
        document_of inputFile (world st) = Ok doc →
        validateDTCGFormat doc (Path.basename inputFile) = Ok tt →
        ∃ config fc,
          new_calls st (snd (processThemeFile all dir inputFile acc st))
          = [config] ∧
          files (css config) = [fc] ∧
          destination fc = X +:+ ".vars.gen.css" ∧
          selector fc = "[data-mantine-color-scheme='" +:+ X +:+ "']") ∧
     (∀ dir st0 d st1 out st results stats st' r,
        discoverTokenFiles dir st0 = (Ok d, st1) →
        transformTokens d out st = (Ok (results, stats), st') →
        r ∈ results → inputPath r = inputFile →
        ∃ config fc,
          config ∈ new_calls st st' ∧
          files (css config) = [fc] ∧
          destination fc = X +:+ ".vars.gen.css" ∧
          selector fc = "[data-mantine-color-scheme='" +:+ X +:+ "']") ∧
     (∀ all dir acc st config,
        config ∈ new_calls st (snd (processThemeFile all dir inputFile acc st)) →
        ∃ fc, files (css config) = [fc] ∧
              destination fc = X +:+ ".vars.gen.css" ∧
              selector fc = "[data-mantine-color-scheme='" +:+ X +:+ "']")) ∧
  (∀ name, "/"%char ∉ units name → Path.basename name = name).
Proof.
  split_and!; [| |apply basename_plain].
  - intros f X Hbase Href Htheme.
    pose proof (output_name_of_plain f X Hbase Htheme) as Hname.
    assert (in_bucket Output f = true) as Hout.
    { unfold in_bucket. rewrite Hbase. by rewrite bucket_of_output. }
    split_and!; [done|..].
    + intros dir st d st' Hrun Hin.
      apply files_under_spec in Hin; [|by eapply discover_returned_free].
      apply discover_returned in Hrun as (-> & _ & _). simpl. split.
      * by apply elem_of_filter.
      * intros [_ Hth]%elem_of_filter.
        by pose proof (in_bucket_unique _ _ _ Hout Hth).
    + intros all dir acc st doc Hdoc Hv.
      rewrite processOutputFile_iteration, iteration_calls.
      rewrite (process_calls_valid _ _ _ _ _ doc Hdoc Hv).
      eexists _, _. by split_and!.
    + intros dir st0 d st1 out st results stats st' r Hfound Hrun Hr Hf.
      apply discover_returned in Hfound as (-> & _ & _).
      destruct (transformTokens_calls _ _ _ _ _ Hrun) as [_ Hres].
      destruct (Hres r Hr) as (paths & [[_ Hc]|[Hin _]]).
      * rewrite Hf in Hc. eexists _, _. by split_and!.
      * rewrite Hf in Hin. simpl in Hin.
        apply elem_of_filter in Hin as [_ Hth].
        by pose proof (in_bucket_unique _ _ _ Hout Hth).
    + intros all dir acc st config.
      rewrite processOutputFile_iteration, iteration_calls.
      intros (doc & _ & ->)%process_calls_config.
      eexists. split; [done|]. by split.
  - intros f X Hbase.
    pose proof (output_name_of_theme f X Hbase) as Hname.
    pose proof (theme_name_of_theme f X Hbase) as Htheme.
    assert (in_bucket Theme f = true) as Hth.
    { unfold in_bucket. rewrite Hbase. by rewrite bucket_of_theme. }
    assert (themeSelector f = "[data-mantine-color-scheme='" +:+ X +:+ "']")
      as Hsel by (unfold themeSelector; by rewrite Htheme).
    split_and!; [done..| | | |].
    + intros dir st d st' Hrun Hin.
      apply files_under_spec in Hin; [|by eapply discover_returned_free].
      apply discover_returned in Hrun as (-> & _ & _). simpl. split.
      * by apply elem_of_filter.
      * intros [_ Hout]%elem_of_filter.
        by pose proof (in_bucket_unique _ _ _ Hout Hth).
    + intros all dir acc st doc Hdoc Hv.
      rewrite processThemeFile_iteration, iteration_calls.
      rewrite (process_calls_valid _ _ _ _ _ doc Hdoc Hv).
      eexists _, _. by split_and!.
    + intros dir st0 d st1 out st results stats st' r Hfound Hrun Hr Hf.
      apply discover_returned in Hfound as (-> & _ & _).
      destruct (transformTokens_calls _ _ _ _ _ Hrun) as [_ Hres].
      destruct (Hres r Hr) as (paths & [[Hin _]|[_ Hc]]).
      * rewrite Hf in Hin. simpl in Hin.
        apply elem_of_filter in Hin as [_ Hout].
        by pose proof (in_bucket_unique _ _ _ Hout Hth).
      * rewrite Hf in Hc. eexists _, _. by split_and!.
    + intros all dir acc st config.
      rewrite processThemeFile_iteration, iteration_calls.
      intros (doc & _ & ->)%process_calls_config.
      eexists. split; [done|]. by split.
Qed.

(** C2. Discovery lists all token files as reference files, then theme
    files, then output files.  For a file that is read, parsed and found
    valid, a turn of either loop invokes the engine exactly once; the
    configuration has the whole list it was handed as its source set, and
    one output file whose filter accepts a token exactly when the dot-join
    of its path is in the set of paths extracted from the document of this
    very file.  A file that is not read, not parsed or not valid gets no
    invocation.  Every invocation of a run has [allFiles] as its source
    set, and there are at most as many as theme and output files. *)
Theorem C2_engine_invocation {host : Host} :
  (∀ dir st d st',
     discoverTokenFiles dir st = (Ok d, st') →
     allFiles d = referenceFiles d ++ themeFiles d ++ outputFiles d) ∧
  (∀ all dir f acc st doc,
     document_of f (world st) = Ok doc →
     validateDTCGFormat doc (Path.basename f) = Ok tt →
     ∃ config fc,
       new_calls st (snd (processOutputFile all dir f acc st)) = [config] ∧
       source config = all ∧ files (css config) = [fc] ∧
       destination fc = getOutputFileName f ∧ selector fc = ":root" ∧
       ∀ t, filter fc t = true
            ↔ Js.join "." (path t) ∈ extractTokenPaths doc [] ∅) ∧
  (∀ all dir f acc st doc,
     document_of f (world st) = Ok doc →
     validateDTCGFormat doc (Path.basename f) = Ok tt →
     ∃ config fc,
       new_calls st (snd (processThemeFile all dir f acc st)) = [config] ∧
       source config = all ∧ files (css config) = [fc] ∧
       destination fc = getOutputFileName f ∧
       selector fc = themeSelector f ∧
       ∀ t, filter fc t = true
            ↔ Js.join "." (path t) ∈ extractTokenPaths doc [] ∅) ∧
  (∀ all dir f acc st,
     (∀ doc, document_of f (world st) = Ok doc →
             validateDTCGFormat doc (Path.basename f) ≠ Ok tt) →
     new_calls st (snd (processOutputFile all dir f acc st)) = [] ∧
     new_calls st (snd (processThemeFile all dir f acc st)) = []) ∧
  (∀ d out st results stats st',
     transformTokens d out st = (Ok (results, stats), st') →
     Forall (fun c => source c = allFiles d) (new_calls st st') ∧
     length results ≤ length (new_calls st st') ∧
     length (new_calls st st')
     ≤ length (outputFiles d) + length (themeFiles d)).
Proof.
  split_and!.
  - intros dir st d st' Hrun.
    by apply discover_returned in Hrun as (-> & _ & _).
  - intros all dir f acc st doc Hdoc Hv.
    rewrite processOutputFile_iteration, iteration_calls.
    rewrite (process_calls_valid _ _ _ _ _ doc Hdoc Hv).
    eexists _, _. split_and!; try done.
    intros t. apply pathFilter_spec.
  - intros all dir f acc st doc Hdoc Hv.
    rewrite processThemeFile_iteration, iteration_calls.
    rewrite (process_calls_valid _ _ _ _ _ doc Hdoc Hv).
    eexists _, _. split_and!; try done.
    intros t. apply pathFilter_spec.
  - intros all dir f acc st Hbad.
    rewrite processOutputFile_iteration, processThemeFile_iteration.
    rewrite !iteration_calls.
    destruct (document_of f (world st)) as [doc|e] eqn:Hdoc.
    + destruct (validateDTCGFormat doc (Path.basename f)) as [[]|e] eqn:Hv.
      * by destruct (Hbad doc eq_refl).
      * by rewrite !(process_calls_invalid _ _ _ _ _ doc e Hdoc Hv).
    + by rewrite !(process_calls_unreadable _ _ _ _ _ e Hdoc).
  - intros d out st results stats st' Hrun.
    by apply transformTokens_returned in Hrun as (_ & _ & _ & ? & ? & ?).
Qed.

(** C3. Of the regular files found under the scanned root, those whose
    base name ends in [.ref.inp.json] make the reference bucket; of the
    others, those ending in [.theme.inp.json] make the theme bucket; of the
    rest, those ending in [.inp.json] make the output bucket; any other
    file is in no bucket.  No file is in two buckets, and the buckets
    together hold no more files than were found.  A file [X.ref.inp.json]
    also matches the output pattern, is in the reference bucket only, and
    no result of a run is ever recorded for it. *)
Theorem C3_classification {host : Host} dir st d st' :
  discoverTokenFiles dir st = (Ok d, st') →
  let found := files_under dir (world st) in
  let ref f := Js.regex_test REFERENCE_PATTERN (Path.basename f) in
  let theme f := Js.regex_test THEME_PATTERN (Path.basename f) in
  let output f := Js.regex_test OUTPUT_PATTERN (Path.basename f) in
  (∀ f, f ∈ referenceFiles d ↔ f ∈ found ∧ ref f = true) ∧
  (∀ f, f ∈ themeFiles d ↔ f ∈ found ∧ ref f = false ∧ theme f = true) ∧
  (∀ f, f ∈ outputFiles d
        ↔ f ∈ found ∧ ref f = false ∧ theme f = false ∧ output f = true) ∧
  (∀ f, ref f = false → theme f = false → output f = false →
        f ∉ allFiles d) ∧
  (∀ f, ¬ (f ∈ referenceFiles d ∧ f ∈ themeFiles d) ∧
        ¬ (f ∈ referenceFiles d ∧ f ∈ outputFiles d) ∧
        ¬ (f ∈ themeFiles d ∧ f ∈ outputFiles d)) ∧
  length (referenceFiles d) + length (themeFiles d) + length (outputFiles d)
  ≤ length found ∧
  (∀ f X,
     f ∈ found → Path.basename f = X +:+ ".ref.inp.json" →
     output f = true ∧
     f ∈ referenceFiles d ∧ (f ∉ themeFiles d) ∧ (f ∉ outputFiles d) ∧
     ∀ out st1 results stats st2,
       transformTokens d out st1 = (Ok (results, stats), st2) →
       ∀ r, r ∈ results → inputPath r ≠ f).
Proof.
  intros Hrun found ref theme output.
  apply discover_returned in Hrun as (-> & _ & _). simpl. fold found.
  assert (∀ f, f ∈ List.filter (in_bucket Reference) found
               ↔ f ∈ found ∧ ref f = true) as Href.
  { intros f. rewrite elem_of_filter, in_bucket_reference. done. }
  assert (∀ f, f ∈ List.filter (in_bucket Theme) found
               ↔ f ∈ found ∧ ref f = false ∧ theme f = true) as Hth.
  { intros f. rewrite elem_of_filter, in_bucket_theme. done. }
  assert (∀ f, f ∈ List.filter (in_bucket Output) found
               ↔ f ∈ found ∧ ref f = false ∧ theme f = false ∧
                 output f = true) as Hout.
  { intros f. rewrite elem_of_filter, in_bucket_output. done. }
  assert (∀ f, ¬ (f ∈ List.filter (in_bucket Reference) found ∧
                  f ∈ List.filter (in_bucket Theme) found) ∧
               ¬ (f ∈ List.filter (in_bucket Reference) found ∧
                  f ∈ List.filter (in_bucket Output) found) ∧
               ¬ (f ∈ List.filter (in_bucket Theme) found ∧
                  f ∈ List.filter (in_bucket Output) found)) as Hdisj.
  { intros f. split_and!; intros [[_ H1]%elem_of_filter [_ H2]%elem_of_filter];
      by pose proof (in_bucket_unique _ _ _ H1 H2). }
  split_and!; try done.
  - intros f H1 H2 H3. rewrite !elem_of_app, Href, Hth, Hout.
    intros [(_ & E)|[(_ & _ & E)|(_ & _ & _ & E)]]; congruence.
  - apply buckets_length.
  - intros f X Hin Hbase.
    assert (ref f = true) as Hr.
    { unfold ref. rewrite Hbase. apply reference_name_matches. }
    assert (f ∈ List.filter (in_bucket Reference) found) as Hfr
      by by apply Href.
    split_and!.
    + unfold output. rewrite Hbase. apply reference_name_matches_output.
    + done.
    + intros Hft. by apply (proj1 (Hdisj f)).
    + intros Hfo. by apply (proj1 (proj2 (Hdisj f))).
    + intros out st1 results stats st2 Htr r Hr' <-.
      apply transformTokens_returned in Htr as (_ & _ & Hsub & _).
      simpl in Hsub.
      assert (inputPath r ∈ List.filter (in_bucket Output) found
                               ++ List.filter (in_bucket Theme) found) as Hmem.
      { eapply elem_of_sublist; [|done]. by apply list_elem_of_fmap_2. }
      apply elem_of_app in Hmem as [Hmem|Hmem].
      * by apply (proj1 (proj2 (Hdisj (inputPath r)))).
      * by apply (proj1 (Hdisj (inputPath r))).
Qed.

(** C4, at an archive that holds a file that is not JSON beside a valid
    one, with an engine that loads all its sources.  The bad file is
    skipped as the claim says: its turn records no result and counts one
    skip.  The turn of the valid file then hands the list of all files,
    the bad one among them, to the engine; the engine fails to load it,
    nothing handles that failure, and the process ends there: the loop does
    not go on, no skip is counted for the valid file, and the run returns
    neither results nor statistics. *)
Theorem C4_bad_source_ends_run :
  let st := Samples.mixed_start in
  let all := allFiles Samples.mixed_found in
  let ran := transformTokens (host := Samples.loading_host)
               Samples.mixed_found "/out" st in
  fst (discoverTokenFiles (host := Samples.loading_host) "/m" st)
  = Ok Samples.mixed_found ∧
  fst (processOutputFile (host := Samples.loading_host) all "/out"
         "/m/bad.inp.json" Demo.fresh st)
  = Ok (skipped Demo.fresh) ∧
  fst ran = Unhandled (ThrownError "SyntaxError" "Unexpected token in JSON") ∧
  at_level ERROR (new_lines st (snd ran))
  = ["Failed to process bad.inp.json: Unexpected token in JSON"] ∧
  (destination <$> (new_calls st (snd ran) ≫= (fun c => files (css c))))
  = ["good.vars.gen.css"] ∧
  source <$> new_calls st (snd ran) = [all].
Proof. by vm_compute. Qed.

(** C5, as amended.  [hasLegacyTokenFormat] holds exactly when an object
    with a [value] key and no [$value] key lies strictly below the root of
    the document, through objects and arrays; the root itself is not
    examined.  With such an object, processing the file throws the format
    error, whose message starts with the base name of the file in
    quotation marks, before any engine invocation; without one, a
    document other than [null] passes validation.  The failure is the
    file's own: either loop goes on with the remaining files. *)
Theorem C5_legacy_below_root {host : Host} :
  (∀ doc,
     hasLegacyTokenFormat doc = true
     ↔ ∃ obj, below doc obj ∧ legacy_object obj) ∧
  (∀ f all dir sel st doc,
     document_of f (world st) = Ok doc →
     (∃ obj, below doc obj ∧ legacy_object obj) →
     ∃ lines,
       processTokenFile f all dir sel st
       = (Throw (ThrownError "Error" (formatErrorMessage (Path.basename f))),
          RunState (world st) (console st ++ lines) (engine_calls st))) ∧
  (∀ name, ∃ rest,
     formatErrorMessage name = "Token file " +:+ Js.quoted name +:+ rest) ∧
  (∀ doc name,
     doc ≠ JNull →
     ¬ (∃ obj, below doc obj ∧ legacy_object obj) →
     validateDTCGFormat doc name = Ok tt) ∧
  (∀ all dir f rest acc st doc,
     document_of f (world st) = Ok doc →
     (∃ obj, below doc obj ∧ legacy_object obj) →
     (∃ st2,
        for_of (f :: rest) (processOutputFile all dir) acc st
        = for_of rest (processOutputFile all dir) (skipped acc) st2 ∧
        world st2 = world st ∧ engine_calls st2 = engine_calls st) ∧
     (∃ st2,
        for_of (f :: rest) (processThemeFile all dir) acc st
        = for_of rest (processThemeFile all dir) (skipped acc) st2 ∧
        world st2 = world st ∧ engine_calls st2 = engine_calls st)).
Proof.
  split_and!.
  - apply hasLegacyTokenFormat_below.
  - intros f all dir sel st doc Hdoc Hleg%hasLegacyTokenFormat_below.
    by apply (source_rejects f all dir sel st doc).
  - intros name. by eexists.
  - intros doc name Hnull Hnone.
    rewrite validate_without_legacy.
    + by destruct doc.
    + apply not_true_is_false. by rewrite hasLegacyTokenFormat_below.
  - intros all dir f rest acc st doc Hdoc Hleg%hasLegacyTokenFormat_below.
    rewrite processOutputFile_iteration, processThemeFile_iteration.
    split.
    + destruct (source_rejects f all dir ":root" st doc Hdoc Hleg)
        as [lines Hp].
      eexists. split;
        [apply for_of_continue;
         exact (iteration_throw (fun _ => ":root") _ _ _ _ _ _ _ Hp)|done].
    + destruct (source_rejects f all dir (themeSelector f) st doc Hdoc Hleg)
        as [lines Hp].
      eexists. split;
        [apply for_of_continue;
         exact (iteration_throw themeSelector _ _ _ _ _ _ _ Hp)|done].
Qed.

(** C5, as stated, fails at the document [{"value": "#fff"}]: the root is
    an object of its tree with a [value] key and no [$value] key, yet
    validation passes and the file is processed. *)
Lemma C5_counterexample_root :
  in_tree Demo.doc_flat Demo.doc_flat ∧
  legacy_object Demo.doc_flat ∧
  validateDTCGFormat Demo.doc_flat "flat.inp.json" = Ok tt ∧
  is_ok (fst (processTokenFile (host := Demo.demo_host) "/x/flat.inp.json"
                ["/x/flat.inp.json"] "/out" ":root"
                (Demo.start Demo.archive))) = true.
Proof. split_and!; [by left|done..|by vm_compute]. Qed.

(** C6, as amended.  [countTokens] is a loop over the entries of the value
    it is given: an entry that is an object with a [$value] key adds one
    and is not entered; any other object, and any array (which never has
    that key), is entered without being counted; a primitive value or
    [null] is neither counted nor entered.  The count of a document is the
    number of its token nodes: whatever list names each of them once has
    the length that [countTokens] returns, so three token nodes give 3 at
    any depths. *)
Theorem C6_count_is_number_of_token_nodes :
  (∀ doc count,
     countTokens doc count = fold_left count_step (Json.entries doc) count) ∧
  (∀ count key value,
     count_step count (key, value)
     = if Json.is_object value then
         if Json.has_key "$value" value then S count
         else countTokens value count
       else count) ∧
  (∀ items, Json.is_object (JArr items) = true ∧
            Json.has_key "$value" (JArr items) = false) ∧
  (∀ doc (l : list (list string)),
     Json.distinct_keys doc →
     NoDup l →
     (∀ ks, ks ∈ l ↔ ∃ obj, token_at doc ks obj) →
     countTokens doc 0 = length l).
Proof.
  split_and!.
  - apply countTokens_entries.
  - done.
  - intros items. split; [done | apply has_key_array].
  - intros doc l Hd Hl Hall. rewrite countTokens_keys. simpl.
    apply Permutation_length, NoDup_Permutation; [by apply token_keys_NoDup|done|].
    intros ks. by rewrite Hall, token_keys_at.
Qed.

(** C6, as stated, fails at [{"a": [{"$value": "x"}]}]: the walk that
    does not enter arrays counts no token, the program counts one.  It
    also fails at [{"$value": "x"}]: the walk counts the root object, which
    has a [$value] key, the program does not look at the root. *)
Lemma C6_counterexample :
  countTokens_spec (JObj [("a", JArr [Demo.leaf "x"])]) = 0 ∧
  countTokens (JObj [("a", JArr [Demo.leaf "x"])]) 0 = 1 ∧
  countTokens_spec (Demo.leaf "x") = 1 ∧
  countTokens (Demo.leaf "x") 0 = 0.
Proof. by split_and!. Qed.

(** C7, as amended.  In a document whose objects have distinct keys (as
    every parsed document has) and in which no key or index on the way to
    a token node contains a dot, the dot-joined paths of the token nodes
    are pairwise distinct, they make up the set [extractTokenPaths]
    returns, and [countTokens] returns the size of that set. *)
Theorem C7_paths_distinct_without_dots doc :
  Json.distinct_keys doc →
  (∀ ks obj, token_at doc ks obj → Forall (fun k => "."%char ∉ units k) ks) →
  NoDup (Js.join "." <$> token_keys doc) ∧
  (∀ ks, ks ∈ token_keys doc ↔ ∃ obj, token_at doc ks obj) ∧
  extractTokenPaths doc [] ∅ = list_to_set (Js.join "." <$> token_keys doc) ∧
  countTokens doc 0 = size (extractTokenPaths doc [] ∅).
Proof.
  intros Hd Ha.
  assert (NoDup (Js.join "." <$> token_keys doc)) as Hnd.
  { apply NoDup_fmap_2_strong; [|by apply token_keys_NoDup].
    intros ks1 ks2 [o1 H1]%token_keys_at [o2 H2]%token_keys_at E.
    apply (join_inj "." ks1 ks2); try done.
    - by eapply token_at_nonempty.
    - by eapply token_at_nonempty.
    - by eapply Ha.
    - by eapply Ha. }
  split_and!; [done|apply token_keys_at|apply extractTokenPaths_root|].
  rewrite extractTokenPaths_root, size_list_to_set by done.
  rewrite countTokens_keys, length_fmap. done.
Qed.

(** C7, as stated, fails at [{"a.b": T, "a": {"b": T}}]: the keys of each
    object are distinct, two tokens are counted, and both have the path
    [a.b]. *)
Lemma C7_counterexample_dotted_key :
  Json.distinct_keys
    (JObj [("a.b", Demo.leaf "1"); ("a", JObj [("b", Demo.leaf "2")])]) ∧
  countTokens
    (JObj [("a.b", Demo.leaf "1"); ("a", JObj [("b", Demo.leaf "2")])]) 0 = 2 ∧
  size (extractTokenPaths
          (JObj [("a.b", Demo.leaf "1"); ("a", JObj [("b", Demo.leaf "2")])])
          [] ∅) = 1.
Proof.
  split_and!; [|done|by vm_compute].
  simpl. split_and!; try done; by apply (bool_decide_unpack _).
Qed.

(** C8. The per-segment step of the name transform (lower-case, then one
    dash for each run of whitespace) is idempotent; the transform joins
    the transformed segments with dashes; a dash inside a segment stays in
    place; and the three sample paths give [deep-sage-0], [a-b-c-d] and
    [text-size]. *)
Theorem C8_name_transform :
  (∀ s, transformSegment (transformSegment s) = transformSegment s) ∧
  (∀ s, transformSegment s = Js.replace_ws_runs "-" (Js.toLowerCase s)) ∧
  (∀ t, customNameTransform t = Js.join "-" (map transformSegment (path t))) ∧
  (∀ a b, transformSegment (a +:+ "-" +:+ b)
          = transformSegment a +:+ "-" +:+ transformSegment b) ∧
  customNameTransform (Token ["Deep Sage"; "0"]) = "deep-sage-0" ∧
  customNameTransform (Token ["A B"; "c-D"]) = "a-b-c-d" ∧
  customNameTransform (Token ["text-size"]) = "text-size" ∧
  transformSegment "Deep Sage" = "deep-sage".
Proof.
  split_and!; try done.
  - apply transformSegment_idemp.
  - apply transformSegment_dash.
Qed.

(** C9, as amended.  Discovery throws exactly when some directory under
    the scanned root cannot be listed or no regular file under the root has
    a base name matching one of the three patterns.  When some directory
    cannot be listed, it throws the error of such a listing, whatever
    files there are.  When every directory can be listed, discovery throws
    exactly when no regular file under the root has a base name matching
    one of the three patterns, and under a root that is a directory the
    error is then the explicit one; when some file matches, it returns
    the files under the root classified by the patterns, most specific
    first, and leaves the world as it was. *)
Theorem C9_discovery_error {host : Host} dir st :
  let w := world st in
  let ref f := Js.regex_test REFERENCE_PATTERN (Path.basename f) in
  let theme f := Js.regex_test THEME_PATTERN (Path.basename f) in
  let output f := Js.regex_test OUTPUT_PATTERN (Path.basename f) in
  ((∃ e st', discoverTokenFiles dir st = (Throw e, st'))
   ↔ (∃ error, blocked_under dir w error)
     ∨ (∀ f, file_under dir w f → token_file_name f = false)) ∧
  (∀ error,
     blocked_under dir w error →
     ∃ error' st',
       blocked_under dir w error' ∧
       discoverTokenFiles dir st = (Throw error', st')) ∧
  ((∀ error, ¬ blocked_under dir w error) →
   ((∃ e st', discoverTokenFiles dir st = (Throw e, st'))
    ↔ ∀ f, file_under dir w f → token_file_name f = false) ∧
   ((∃ f, file_under dir w f ∧ token_file_name f = true) →
    ∃ d st',
      discoverTokenFiles dir st = (Ok d, st') ∧ world st' = w ∧
      (∀ f, f ∈ referenceFiles d ↔ file_under dir w f ∧ ref f = true) ∧
      (∀ f, f ∈ themeFiles d
            ↔ file_under dir w f ∧ ref f = false ∧ theme f = true) ∧
      (∀ f, f ∈ outputFiles d
            ↔ file_under dir w f ∧ ref f = false ∧ theme f = false ∧
              output f = true) ∧
      allFiles d = referenceFiles d ++ themeFiles d ++ outputFiles d) ∧
   (∀ entries,
      fs_lookup dir w = DirectoryOf entries →
      (∀ f, file_under dir w f → token_file_name f = false) →
      fst (discoverTokenFiles dir st)
      = Throw (ThrownError "Error"
                 ("No token files found. Token files must have .inp.json, "
                  +:+ ".theme.inp.json, or .ref.inp.json extension.")))).
Proof.
  intros w ref theme output.
  match goal with |- _ ∧ ?rest => assert rest as Hrest end; last first.
  { split; [|exact Hrest]. destruct Hrest as [Hblocked Hfree].
    destruct (first_unreadable (root_listing dir w)) as [error|] eqn:E.
    - apply (first_unreadable_blocked (host := host)) in E.
      destruct (Hblocked error E) as (error' & st' & _ & Hthrow).
      split; [intros _; left; by exists error|intros _; by exists error', st'].
    - pose proof (proj1 (first_unreadable_free (host := host) _) E) as Hno.
      destruct (Hfree Hno) as (Hiff & _). rewrite Hiff.
      split; [by right|]. intros [[error Hb]|H]; [|done].
      by destruct (Hno error). }
  split.
  { intros error Hb.
    destruct (discover_blocked dir st error Hb) as (e & lines & He & E).
    by eexists _, _. }
  intros Hfree.
  assert (allFiles (classified (files_under dir w)) = []
          ↔ ∀ f, file_under dir w f → token_file_name f = false) as Hnone.
  { rewrite no_token_files. split.
    - intros H f Hf. apply token_file_name_false, H.
      by apply files_under_spec.
    - intros H f Hf. apply token_file_name_false, H.
      by apply files_under_spec in Hf. }
  split_and!.
  - rewrite <- Hnone. split.
    + intros (e & st' & Hthrow).
      destruct (allFiles (classified (files_under dir w))) eqn:E; [done|].
      destruct (discover_returns dir st) as [lines Hret];
        [fold w; by rewrite E|].
      by rewrite Hret in Hthrow.
    + apply discover_throws.
  - intros (f & Hf & Hmatch).
    destruct (discover_returns dir st) as [lines Hret].
    { fold w. rewrite Hnone. intros H. by rewrite (H f Hf) in Hmatch. }
    fold w in Hret. eexists _, _. split; [exact Hret|]. simpl.
    split_and!; [done|..|done]; intros f'; rewrite elem_of_filter;
      rewrite (files_under_spec dir w f' Hfree).
    + by rewrite in_bucket_reference.
    + by rewrite in_bucket_theme.
    + by rewrite in_bucket_output.
  - intros entries Hl Hno.
    assert (root_listing dir w = entries) as Hroot
      by (unfold root_listing; by rewrite Hl).
    unfold blocked_under in Hfree. rewrite Hroot in Hfree.
    destruct (findFilesRecursive_returns dir entries [] Hfree)
      as (found & Hw & _).
    apply (discover_no_tokens dir st entries found Hl Hw).
    apply no_token_files. intros f Hf. apply token_file_name_false, Hno.
    unfold file_under. rewrite Hroot.
    by apply (elem_of_findFilesRecursive dir entries found).
Qed.

(** C9, as stated, fails at a directory that holds [core.inp.json] and a
    sub-directory that cannot be listed: a file under the root matches
    the output pattern, yet discovery throws, with the error of the
    listing. *)
Lemma C9_counterexample_unlistable :
  file_under (host := Demo.demo_host) "/v" Samples.vault "/v/core.inp.json" ∧
  token_file_name "/v/core.inp.json" = true ∧
  fst (discoverTokenFiles (host := Demo.demo_host) "/v"
         (Demo.start Samples.vault))
  = Throw (ThrownError "Error"
             "EACCES: permission denied, scandir '/v/private'").
Proof.
  split_and!; [|done..].
  apply (reaches_file (host := Demo.demo_host) "/v" _ "core.inp.json").
  vm_compute. apply list_elem_of_here.
Qed.

(** C10, as amended.  The two versions of [processTokenFile] differ: for
    a document with a legacy object strictly below its root (there is
    one), the TypeScript source throws the format error without invoking
    the engine, while the compiled version validates nothing, invokes the
    engine once and returns what the build gives.  On every file whose
    document has no such object, and on every file that cannot be read or
    parsed, the two return the same result and leave the same state. *)
Theorem C10_dist_skips_validation {host : Host} :
  (∃ doc obj, below doc obj ∧ legacy_object obj) ∧
  (∀ f all dir sel st doc,
     document_of f (world st) = Ok doc →
     (∃ obj, below doc obj ∧ legacy_object obj) →
     (∃ lines,
        processTokenFile f all dir sel st
        = (Throw (ThrownError "Error" (formatErrorMessage (Path.basename f))),
           RunState (world st) (console st ++ lines) (engine_calls st))) ∧
     new_calls st (snd (processTokenFile f all dir sel st)) = [] ∧
     new_calls st (snd (Dist.processTokenFile f all dir sel st))
     = [styleDictionaryConfig all dir (getOutputFileName f) sel
          (extractTokenPaths doc [] ∅)] ∧
     fst (Dist.processTokenFile f all dir sel st)
     = match fst (sd_build
                    (styleDictionaryConfig all dir (getOutputFileName f) sel
                       (extractTokenPaths doc [] ∅)) (world st)) with
       | Ok _ => Ok {| outputPath := path_join dir (getOutputFileName f);
                       tokenCount := countTokens doc 0;
                       inputPath := f |}
       | Throw e => Throw e
       | Unhandled e => Unhandled e
       end) ∧
  (∀ f all dir sel st,
     (∀ doc, document_of f (world st) = Ok doc →
             ¬ ∃ obj, below doc obj ∧ legacy_object obj) →
     processTokenFile f all dir sel st
     = Dist.processTokenFile f all dir sel st).
Proof.
  split_and!.
  - exists Demo.doc_legacy. apply hasLegacyTokenFormat_below. done.
  - intros f all dir sel st doc Hdoc Hleg%hasLegacyTokenFormat_below.
    destruct (source_rejects f all dir sel st doc Hdoc Hleg) as [lines Hp].
    split_and!.
    + by exists lines.
    + rewrite Hp. apply new_calls_app. simpl. by rewrite app_nil_r.
    + by apply dist_builds, coercible_with_legacy.
    + by apply dist_builds, coercible_with_legacy.
  - intros f all dir sel st Hnone. apply dist_agrees.
    intros doc Hdoc. apply not_true_is_false.
    rewrite hasLegacyTokenFormat_below. by apply Hnone.
Qed.

(** C10, as stated, fails at the document [{"value": "#fff"}], which is
    itself an object with a [value] key and no [$value] key: the source
    version raises nothing and does what the compiled version does. *)
Lemma C10_counterexample_root :
  in_tree Demo.doc_flat Demo.doc_flat ∧
  legacy_object Demo.doc_flat ∧
  JSON_parse (Host := Demo.demo_host) "flat" = Ok Demo.doc_flat ∧
  processTokenFile (host := Demo.demo_host) "/x/flat.inp.json"
    ["/x/flat.inp.json"] "/out" ":root" (Demo.start Demo.archive)
  = Dist.processTokenFile (host := Demo.demo_host) "/x/flat.inp.json"
      ["/x/flat.inp.json"] "/out" ":root" (Demo.start Demo.archive) ∧
  is_ok (fst (processTokenFile (host := Demo.demo_host) "/x/flat.inp.json"
                ["/x/flat.inp.json"] "/out" ":root"
                (Demo.start Demo.archive))) = true.
Proof. split_and!; [by left|done..|by vm_compute]. Qed.

(** ** The claims at work on the sample archive *)

(** C1 at [core.inp.json] and [dark.theme.inp.json] of the archive: the
    names, and the invocation of each turn with its selector. *)
Lemma C1_output_name_and_selector_witness :
  getOutputFileName "/x/core.inp.json" = "core.vars.gen.css" ∧
  (∃ config fc,
     new_calls Demo.extracted
       (snd (processOutputFile (host := Demo.demo_host)
               (allFiles Demo.discovered) "/out" "/x/core.inp.json"
               Demo.fresh Demo.extracted)) = [config] ∧
     files (css config) = [fc] ∧
     destination fc = "core.vars.gen.css" ∧
     selector fc = ":root") ∧
  getOutputFileName "/x/themes/dark.theme.inp.json" = "dark.vars.gen.css" ∧
  getThemeName "/x/themes/dark.theme.inp.json" = "dark" ∧
  (∃ config fc,
     new_calls Demo.extracted
       (snd (processThemeFile (host := Demo.demo_host)
               (allFiles Demo.discovered) "/out"
               "/x/themes/dark.theme.inp.json"
               Demo.fresh Demo.extracted)) = [config] ∧
     files (css config) = [fc] ∧
     destination fc = "dark.vars.gen.css" ∧
     selector fc = "[data-mantine-color-scheme='dark']").
Proof.
  destruct (C1_output_name_and_selector (host := Demo.demo_host))
    as (Hplain & Htheme & _).
  destruct (Hplain "/x/core.inp.json" "core") as (H1 & _ & H2 & _);
    [by vm_compute..|].
  destruct (Htheme "/x/themes/dark.theme.inp.json" "dark")
    as (H3 & H4 & _ & H5 & _); [by vm_compute|].
  split_and!; [exact H1| |exact H3|exact H4|].
  - apply (H2 _ _ _ _ Demo.doc_core); by vm_compute.
  - apply (H5 _ _ _ _ Demo.doc_dark); by vm_compute.
Defined.

(** C2 at the turn of the output loop for [core.inp.json]. *)
Lemma C2_engine_invocation_witness :
  ∃ config fc,
    new_calls Demo.extracted
      (snd (processOutputFile (host := Demo.demo_host)
              (allFiles Demo.discovered) "/out" "/x/core.inp.json"
              Demo.fresh Demo.extracted)) = [config] ∧
    source config = allFiles Demo.discovered ∧
    files (css config) = [fc] ∧
    destination fc = getOutputFileName "/x/core.inp.json" ∧
    selector fc = ":root" ∧
    ∀ t, filter fc t = true
         ↔ Js.join "." (path t) ∈ extractTokenPaths Demo.doc_core [] ∅.
Proof.
  destruct (C2_engine_invocation (host := Demo.demo_host))
    as (_ & Hout & _).
  apply Hout; by vm_compute.
Defined.

(** C3 at the reference file of the archive. *)
Lemma C3_classification_witness :
  "/x/primitive.ref.inp.json" ∈ referenceFiles Demo.discovered ∧
  ("/x/primitive.ref.inp.json" ∉ themeFiles Demo.discovered) ∧
  ("/x/primitive.ref.inp.json" ∉ outputFiles Demo.discovered).
Proof.
  destruct (C3_classification (host := Demo.demo_host) "/x" Demo.extracted
              Demo.discovered
              (snd (discoverTokenFiles (host := Demo.demo_host) "/x"
                      Demo.extracted)))
    as (_ & _ & _ & _ & _ & _ & Href); [by vm_compute|].
  destruct (Href "/x/primitive.ref.inp.json" "primitive")
    as (_ & H1 & H2 & H3 & _).
  - vm_compute. apply list_elem_of_here.
  - by vm_compute.
  - exact (conj H1 (conj H2 H3)).
Defined.

(** C5 at [old.inp.json], whose token is written with [value]. *)
Lemma C5_legacy_below_root_witness :
  ∃ lines,
    processTokenFile (host := Demo.demo_host) "/x/old.inp.json"
      (allFiles Demo.discovered) "/out" ":root" Demo.extracted
    = (Throw (ThrownError "Error" (formatErrorMessage "old.inp.json")),
       RunState (world Demo.extracted) (console Demo.extracted ++ lines)
                (engine_calls Demo.extracted)).
Proof.
  destruct (C5_legacy_below_root (host := Demo.demo_host))
    as (Hiff & Hthrow & _).
  apply (Hthrow "/x/old.inp.json" _ _ _ _ Demo.doc_legacy); [by vm_compute|].
  apply Hiff. by vm_compute.
Defined.

(** C6 at a document with three tokens at three depths. *)
Lemma C6_count_is_number_of_token_nodes_witness :
  countTokens Demo.doc_three 0 = 3.
Proof.
  destruct C6_count_is_number_of_token_nodes as (_ & _ & _ & Hcount).
  apply (Hcount Demo.doc_three [["a"]; ["b"; "c"]; ["b"; "d"; "1"]]).
  - simpl. split_and!; try done; by apply (bool_decide_unpack _).
  - by apply (bool_decide_unpack _).
  - intros ks. rewrite <- token_keys_at. done.
Defined.

(** C7 at the same document. *)
Lemma C7_paths_distinct_without_dots_witness :
  countTokens Demo.doc_three 0
  = size (extractTokenPaths Demo.doc_three [] ∅).
Proof.
  apply C7_paths_distinct_without_dots.
  - simpl. split_and!; try done; by apply (bool_decide_unpack _).
  - intros ks obj H. eapply token_keys_segments; [|apply token_keys_at; eauto].
    simpl. split_and!; try done; by apply (bool_decide_unpack _).
Defined.

(** C9 at the archive, every directory of which can be listed and
    which holds token files. *)
Lemma C9_discovery_error_witness :
  ∃ d st',
    discoverTokenFiles (host := Demo.demo_host) "/x" Demo.extracted
    = (Ok d, st') ∧
    world st' = world Demo.extracted ∧
    "/x/themes/dark.theme.inp.json" ∈ themeFiles d.
Proof.
  destruct (C9_discovery_error (host := Demo.demo_host) "/x" Demo.extracted)
    as (_ & _ & Hfree).
  assert (file_under (host := Demo.demo_host) "/x" Demo.archive
            "/x/themes/dark.theme.inp.json") as Hdark.
  { apply (reaches_directory (host := Demo.demo_host) "/x" _ "themes"
             [RegularFile "dark.theme.inp.json"]).
    - vm_compute. do 4 apply list_elem_of_further. apply list_elem_of_here.
    - apply (reaches_file (host := Demo.demo_host) "/x/themes" _
               "dark.theme.inp.json").
      apply list_elem_of_here. }
  destruct Hfree as (_ & Hsome & _).
  { apply (first_unreadable_free (host := Demo.demo_host)). by vm_compute. }
  destruct Hsome as (d & st' & Hrun & Hworld & _ & Hth & _).
  { exists "/x/themes/dark.theme.inp.json". split; [exact Hdark|done]. }
  exists d, st'. split_and!; [exact Hrun|exact Hworld|].
  apply Hth. split; [exact Hdark|]. by vm_compute.
Defined.

(** C10 at [old.inp.json]. *)
Lemma C10_dist_skips_validation_witness :
  new_calls Demo.extracted
    (snd (processTokenFile (host := Demo.demo_host) "/x/old.inp.json"
            (allFiles Demo.discovered) "/out" ":root" Demo.extracted)) = [] ∧
  new_calls Demo.extracted
    (snd (Dist.processTokenFile (host := Demo.demo_host) "/x/old.inp.json"
            (allFiles Demo.discovered) "/out" ":root" Demo.extracted))
  = [styleDictionaryConfig (allFiles Demo.discovered) "/out"
       (getOutputFileName "/x/old.inp.json") ":root"
       (extractTokenPaths Demo.doc_legacy [] ∅)].
Proof.
  destruct (C10_dist_skips_validation (host := Demo.demo_host))
    as (_ & Hdiff & _).
  destruct (Hdiff "/x/old.inp.json" (allFiles Demo.discovered) "/out" ":root"
              Demo.extracted Demo.doc_legacy) as (_ & H1 & H2 & _).
  - by vm_compute.
  - apply hasLegacyTokenFormat_below. by vm_compute.
  - exact (conj H1 H2).
Defined.

End Claims.

(* ================================================================== *)
(** * Part IV: the rest of the code                                    *)
(* ================================================================== *)



Module SlashFacts.
Import JsFacts.

Lemma endsWith_spec s suffix :
  Js.endsWith s suffix = true ↔ ∃ x, s = x +:+ suffix.
Proof.
  induction s as [|c s IH].
  - split.
    + destruct suffix; [|done]. intros _. by exists "".
    + intros [[|? ?] E]; [|discriminate].
      change ("" = suffix) in E. by subst suffix.
  - cbn [Js.endsWith]. rewrite orb_true_iff, IH, String.eqb_eq. split.
    + intros [<-|[x ->]]; [by exists ""|by exists (String c x)].
    + intros [[|c' x] E]; [by left|].
      change (String c s = String c' (x +:+ suffix)) in E.
      injection E as <- ->. right. by exists x.
Qed.

Lemma endsWith_app x suffix : Js.endsWith (x +:+ suffix) suffix = true.
Proof. apply endsWith_spec. by exists x. Qed.

End SlashFacts.

(** ** More on the token walks and the name transform *)

Module TokenFacts.
Import Json Tokens Transform Spec Notions.
Import JsFacts JsonFacts WalkFacts PathFacts NameFacts CallFacts DistFacts.

Lemma token_keys_props ps qs :
  token_keys (JObj (ps ++ qs)) = token_keys (JObj ps) ++ token_keys (JObj qs).
Proof. rewrite !token_keys_entries. simpl. apply bind_app. Qed.

Lemma countTokens_props ps qs n :
  countTokens (JObj (ps ++ qs)) n
  = countTokens (JObj qs) (countTokens (JObj ps) n).
Proof.
  rewrite !countTokens_keys, token_keys_props, length_app. lia.
Qed.

Lemma size_list_to_set_le (l : list string) :
  size (list_to_set l : gset string) ≤ length l.
Proof.
  induction l as [|x l IH]; [done|].
  rewrite list_to_set_cons, size_union_alt, size_singleton. simpl.
  pose proof (subseteq_size (list_to_set l ∖ {[x]}) (list_to_set l : gset string))
    as Hle.
  assert (list_to_set l ∖ {[x]} ⊆ (list_to_set l : gset string)) as Hsub.
  { intros y Hy. by apply elem_of_difference in Hy as [Hy _]. }
  specialize (Hle Hsub). lia.
Qed.

Lemma paths_size doc :
  size (extractTokenPaths doc [] ∅) ≤ countTokens doc 0.
Proof.
  rewrite extractTokenPaths_root, countTokens_keys. simpl.
  etrans; [apply size_list_to_set_le|]. by rewrite length_fmap.
Qed.

Lemma extractTokenPaths_acc doc cur paths :
  extractTokenPaths doc cur paths = paths ∪ extractTokenPaths doc cur ∅.
Proof.
  rewrite (extractTokenPaths_keys doc cur paths).
  rewrite (extractTokenPaths_keys doc cur ∅). by rewrite (left_id_L ∅ (∪)).
Qed.

(** Every token node of a file passes the filter built for the file. *)
Lemma own_tokens_pass doc ks obj :
  token_at doc ks obj →
  pathFilter (extractTokenPaths doc [] ∅) (Token ks) = true.
Proof.
  intros Hat. apply pathFilter_spec. simpl.
  rewrite extractTokenPaths_root. apply elem_of_list_to_set.
  apply list_elem_of_fmap. exists ks. split; [done|].
  apply token_keys_at. by exists obj.
Qed.

(** A token node lies below the root, and so does what lies below it. *)
Lemma token_at_below doc ks obj : token_at doc ks obj → below doc obj.
Proof.
  induction 1 as [doc key obj Hin _ _|doc key mid keys obj Hin _ _ _ IH].
  - by eapply below_child.
  - by eapply below_step.
Qed.

Lemma below_trans a b c : below a b → below b c → below a c.
Proof.
  induction 1 as [a key b Hin|a key mid b Hin _ IH]; intros Hbc.
  - by eapply below_step.
  - eapply below_step; [done|]. by apply IH.
Qed.

(** Validation looks inside token nodes: a value in the legacy shape
    under a token fails the file. *)
Lemma legacy_inside_token doc ks tok key inner name :
  token_at doc ks tok →
  (key, inner) ∈ entries tok → legacy_object inner →
  validateDTCGFormat doc name
  = Throw (ThrownError "Error" (formatErrorMessage name)).
Proof.
  intros Hat Hin Hleg. apply validate_with_legacy.
  apply hasLegacyTokenFormat_below. exists inner. split; [|done].
  eapply below_trans; [by eapply token_at_below|by eapply below_child].
Qed.

(** *** The name transform on whole paths *)

Lemma transformSegment_empty : transformSegment "" = "".
Proof. done. Qed.

Lemma customNameTransform_join segments :
  customNameTransform (Token segments)
  = transformSegment (Js.join "-" segments).
Proof.
  unfold customNameTransform. simpl.
  induction segments as [|x [|y rest] IH]; [done..|].
  rewrite join_cons, transformSegment_dash, <- IH. done.
Qed.

(** One space and two spaces are one run of whitespace each. *)
Lemma replace_spaces in_run a b :
  Js.replace_ws_runs_from in_run "-" (a +:+ " " +:+ b)
  = Js.replace_ws_runs_from in_run "-" (a +:+ "  " +:+ b).
Proof.
  revert in_run. induction a as [|c a IH]; intros in_run.
  - change ("" +:+ " " +:+ b) with (String " " b).
    change ("" +:+ "  " +:+ b) with (String " " (String " " b)).
    cbn [Js.replace_ws_runs_from].
    change (Js.is_whitespace " ") with true. cbn iota.
    by destruct in_run.
  - change (String c a +:+ " " +:+ b) with (String c (a +:+ " " +:+ b)).
    change (String c a +:+ "  " +:+ b) with (String c (a +:+ "  " +:+ b)).
    cbn [Js.replace_ws_runs_from].
    destruct (Js.is_whitespace c); [destruct in_run|]; by rewrite IH.
Qed.

Lemma transformSegment_no_whitespace s :
  Forall (fun c => Js.is_whitespace c = false) (units (transformSegment s)).
Proof. apply replace_no_whitespace. Qed.

Lemma transformSegment_lower s :
  Js.toLowerCase (transformSegment s) = transformSegment s.
Proof.
  unfold transformSegment, Js.replace_ws_runs.
  by rewrite toLowerCase_replace, toLowerCase_idemp.
Qed.

End TokenFacts.

(** ** More on file names and on discovery *)

Module NameRoundTrip.
Import Discover Spec Notions.
Import JsFacts DiscoverFacts BucketFacts.

(** What [replace] removes is the matched suffix. *)
Lemma regex_remove_split L s :
  Js.regex_test L s = true →
  ∃ suf, L suf = true ∧ s = Js.regex_remove L s +:+ suf.
Proof.
  induction s as [|c s IH]; simpl.
  - destruct (L "") eqn:E; [|done]. intros _. by exists "".
  - destruct (L (String c s)) eqn:E.
    + intros _. by exists (String c s).
    + simpl. intros (suf & Hsuf & Hs)%IH. exists suf. split; [done|].
      change (String c s = String c (Js.regex_remove L s +:+ suf)).
      by f_equal.
Qed.

(** What [replace] leaves is the start of the string. *)
Lemma regex_remove_prefix L s : ∃ rest, s = Js.regex_remove L s +:+ rest.
Proof.
  destruct (Js.regex_test L s) eqn:E.
  - destruct (regex_remove_split L s E) as (suf & _ & Hs). by exists suf.
  - exists "". by rewrite regex_remove_no_match, append_empty_r.
Qed.

Lemma basename_from_no_slash p : ∀ last cur,
  ("/"%char ∉ units last) → ("/"%char ∉ units cur) →
  "/"%char ∉ units (Path.basename_from last cur p).
Proof.
  induction p as [|c p IH]; intros last cur Hlast Hcur; simpl.
  - by destruct (String.eqb cur "").
  - destruct (Ascii.eqb c "/") eqn:E.
    + apply IH; [by destruct (String.eqb cur "")|].
      by intros ?%elem_of_nil.
    + apply IH; [done|]. rewrite units_app. simpl.
      intros [?|Hc%list_elem_of_singleton]%elem_of_app; [done|].
      subst c. by rewrite Ascii.eqb_refl in E.
Qed.

Lemma basename_no_slash p : "/"%char ∉ units (Path.basename p).
Proof. apply basename_from_no_slash; by intros ?%elem_of_nil. Qed.

Lemma output_name_pattern_test s :
  Js.regex_test OUTPUT_NAME_PATTERN s = Js.regex_test OUTPUT_PATTERN s.
Proof.
  apply eq_true_iff_eq. unfold OUTPUT_PATTERN.
  rewrite regex_test_split, regex_test_literal. split.
  - intros (x & suf & -> & [->%String.eqb_eq| ->%String.eqb_eq]%orb_true_iff).
    + exists (x +:+ ".theme"). by rewrite append_assoc.
    + by exists x.
  - intros [x ->]. exists x, ".inp.json". done.
Qed.

Lemma theme_round_trip f :
  isThemeFile f = true →
  Path.basename f = getThemeName f +:+ ".theme.inp.json".
Proof.
  unfold isThemeFile, getThemeName.
  intros (suf & ->%literal_true & E)%regex_remove_split. done.
Qed.

End NameRoundTrip.

Module DiscoverReport.
Import Discover Spec Notions.
Import JsFacts RunFacts DiscoverFacts DiscoverRun BucketFacts.

Lemma at_level_app level l1 l2 :
  at_level level (l1 ++ l2) = at_level level l1 ++ at_level level l2.
Proof. unfold at_level. by rewrite List.filter_app, fmap_app. Qed.

Lemma at_level_other level lines :
  Forall (fun l => fst l ≠ level) lines → at_level level lines = [].
Proof.
  unfold at_level. induction 1 as [|l lines Hl _ IH]; [done|]. simpl.
  by rewrite bool_decide_eq_false_2.
Qed.

Lemma at_level_fmap {A} level level' (g : A → string) xs :
  at_level level' ((fun x => (level, g x)) <$> xs)
  = if decide (level = level') then g <$> xs else [].
Proof.
  unfold at_level. induction xs as [|x xs IH]; simpl; [by destruct decide|].
  destruct (decide (level = level')) as [->|Hne].
  - rewrite bool_decide_eq_true_2 by done. simpl. by f_equal.
  - by rewrite bool_decide_eq_false_2.
Qed.

Section WithHost.
Context {host : Host}.

Lemma new_lines_app (st st' : run_state) lines :
  console st' = console st ++ lines → new_lines st st' = lines.
Proof. unfold new_lines. intros ->. by rewrite drop_app_length. Qed.

Lemma for_of_logger_lines {A} (xs : list A) (line : A → string) level st :
  for_of xs (fun x (_ : unit) => logger level (line x)) tt st =
  (Ok tt, RunState (world st)
            (console st ++ ((fun x => (level, line x)) <$> xs))
            (engine_calls st)).
Proof.
  revert st. induction xs as [|x xs IH]; intros st.
  - destruct st. simpl. by rewrite app_nil_r.
  - rewrite for_of_cons, bind_logger, IH. simpl. by rewrite <- app_assoc.
Qed.

Lemma categorize_debug file b st :
  ∃ lines,
    Forall (fun l => fst l = DEBUG) lines ∧
    categorize file b st =
    (Ok (Buckets
           (b_reference b ++ List.filter (in_bucket Reference) [file])
           (b_theme b ++ List.filter (in_bucket Theme) [file])
           (b_output b ++ List.filter (in_bucket Output) [file])),
     RunState (world st) (console st ++ lines) (engine_calls st)).
Proof.
  unfold categorize, in_bucket, bucket_of. simpl.
  destruct (Js.regex_test REFERENCE_PATTERN _);
    [|destruct (Js.regex_test THEME_PATTERN _);
      [|destruct (Js.regex_test OUTPUT_PATTERN _)]];
    rewrite ?bind_logger; unfold ret; rewrite ?app_nil_r;
    try (eexists [_]; (split; [|reflexivity]); by repeat constructor).
  exists []. split; [constructor|]. destruct b, st. simpl.
  by rewrite app_nil_r.
Qed.

Lemma categorize_loop_debug files b st :
  ∃ lines,
    Forall (fun l => fst l = DEBUG) lines ∧
    for_of files categorize b st =
    (Ok (Buckets
           (b_reference b ++ List.filter (in_bucket Reference) files)
           (b_theme b ++ List.filter (in_bucket Theme) files)
           (b_output b ++ List.filter (in_bucket Output) files)),
     RunState (world st) (console st ++ lines) (engine_calls st)).
Proof.
  revert b st. induction files as [|f files IH]; intros b st.
  - exists []. split; [constructor|]. destruct b, st. simpl.
    by rewrite !app_nil_r.
  - destruct (categorize_debug f b st) as (l1 & Hd1 & H1).
    rewrite (for_of_continue _ _ _ _ _ _ _ H1).
    edestruct IH as (l2 & Hd2 & ->). exists (l1 ++ l2).
    split; [by apply Forall_app|]. simpl.
    rewrite <- !app_assoc.
    by destruct (in_bucket Reference f), (in_bucket Theme f),
                (in_bucket Output f).
Qed.

(** The lines of a discovery that returns. *)
Lemma discover_lines dir st d st' :
  discoverTokenFiles dir st = (Ok d, st') →
  ∃ debug,
    Forall (fun l => fst l = DEBUG) debug ∧
    console st' =
    console st ++ debug
    ++ (if length (outputFiles d) + length (themeFiles d) =? 0
        then [(WARN, "No output files found. Only reference files "
                     +:+ "(*.ref.inp.json) were discovered.")]
        else [])
    ++ [(INFO, "Found "
               +:+ Js.number_to_string (length (allFiles d))
               +:+ " token files ("
               +:+ Js.number_to_string (length (referenceFiles d))
               +:+ " reference-only, "
               +:+ Js.number_to_string (length (themeFiles d))
               +:+ " themes, "
               +:+ Js.number_to_string (length (outputFiles d))
               +:+ " standard)")]
    ++ ((fun f => (INFO, "Loading reference: " +:+ getRelativePath f dir))
          <$> referenceFiles d).
Proof.
  intros Hrun.
  destruct (discover_returned dir st d st' Hrun) as (Hd & Hsome & _).
  revert Hrun. rewrite Hd in Hsome. rewrite Hd. clear Hd.
  unfold files_under, discoverTokenFiles in *. rewrite bind_logger.
  unfold existsSync, readdirSync, read_world, bind at 1. simpl.
  destruct (fs_lookup dir (world st)) as [| |entries] eqn:Hl; simpl;
    [done..|].
  unfold bind at 1. simpl. rewrite Hl.
  destruct (findFilesRecursive dir entries []) as [found|error]; [|done].
  rewrite bind_lift_ok, bind_logger.
  edestruct (categorize_loop_debug found (Buckets [] [] []))
    as (lines & Hdebug & H).
  rewrite (bind_ok _ _ _ _ _ H). simpl. clear H.
  destruct (_ =? 0) eqn:Hz.
  { exfalso. apply Hsome. apply Nat.eqb_eq in Hz.
    apply length_zero_iff_nil. simpl. rewrite !length_app. lia. }
  rewrite !length_app.
  replace (length (List.filter (in_bucket Reference) found)
           + (length (List.filter (in_bucket Theme) found)
              + length (List.filter (in_bucket Output) found)))
    with (length (List.filter (in_bucket Reference) found)
          + length (List.filter (in_bucket Theme) found)
          + length (List.filter (in_bucket Output) found)) by lia.
  destruct (length (List.filter (in_bucket Output) found) + _ =? 0);
    rewrite ?bind_logger, ?bind_ret, ?bind_logger;
    rewrite (bind_ok _ _ _ _ _ (for_of_logger_lines _ _ _ _));
    unfold ret; simpl; intros [= <-]; simpl;
    eexists (_ :: _ :: lines);
    (split; [|rewrite <- !app_assoc; reflexivity]);
    by repeat constructor.
Qed.

End WithHost.
End DiscoverReport.

(** ** The archive extractor *)

Module UnzipFacts.
Import Transform Unzip Notions.
Import JsFacts RunFacts NameFacts SlashFacts.

Lemma toLowerCase_split s : ∀ a b,
  Js.toLowerCase s = a +:+ b →
  ∃ x e, s = x +:+ e ∧ Js.toLowerCase x = a ∧ Js.toLowerCase e = b.
Proof.
  induction s as [|c s IH]; intros a b E.
  - destruct a as [|? ?]; [|discriminate].
    change ("" = b) in E. subst b. by exists "", "".
  - destruct a as [|c' a].
    + change (Js.toLowerCase (String c s) = b) in E. by exists "", (String c s).
    + change (String (Js.toLowerCase_unit c) (Js.toLowerCase s)
              = String c' (a +:+ b)) in E.
      injection E as Hc E. destruct (IH a b E) as (x & e & -> & Hx & He).
      exists (String c x), e. split_and!; [done| |done].
      simpl. by rewrite Hc, Hx.
Qed.

(** The extension test of [extractZip] ignores the letter case. *)
Lemma zip_extension p :
  Js.endsWith (Js.toLowerCase p) ".zip" = true
  ↔ ∃ x ext, p = x +:+ ext ∧ Js.toLowerCase ext = ".zip".
Proof.
  rewrite endsWith_spec. split.
  - intros [y (x & e & -> & _ & He)%toLowerCase_split]. by exists x, e.
  - intros (x & ext & -> & He). exists (Js.toLowerCase x).
    by rewrite toLowerCase_app, He.
Qed.

Section WithHost.
Context {host : Host} {system : System host}.

(** [cleanupTempDir] never throws. *)
Lemma cleanupTempDir_returns tempDir st :
  ∃ lines,
    cleanupTempDir tempDir st
    = (Ok tt,
       RunState (match fs_lookup tempDir (world st) with
                 | NotFound => world st
                 | _ => snd (fs_rmSync tempDir (world st))
                 end)
                (console st ++ lines) (engine_calls st)).
Proof.
  unfold cleanupTempDir, try_catch, bind, existsSync, read_world, rmSync,
    logger, ret. simpl.
  destruct (fs_lookup tempDir (world st)) eqn:Hl; simpl.
  - exists []. destruct st. simpl. by rewrite app_nil_r.
  - destruct (fs_rmSync tempDir (world st)) as [[[]|e] w]; by eexists [_].
  - destruct (fs_rmSync tempDir (world st)) as [[[]|e] w]; by eexists [_].
Qed.

(** The two ways the [try] statement of [extractZip] ends. *)
Lemma extraction_cases p t st :
  (∃ zip n w lines,
     AdmZip_new p (world st) = Ok zip ∧
     AdmZip_getEntries_length zip = Ok n ∧ 0 < n ∧
     AdmZip_extractAllTo zip t (world st) = (Ok tt, w) ∧
     extraction p t st
     = (Ok t, RunState w (console st ++ lines) (engine_calls st))) ∨
  (∃ cause w lines,
     extraction_failure p t (world st) cause w ∧
     extraction p t st
     = (Throw (extractionError cause),
        RunState (snd (fs_rmSync t w)) (console st ++ lines)
                 (engine_calls st))).
Proof.
  unfold extraction, try_catch, bind, newAdmZip, lift, extractAllTo, rmSync,
    logger, ret, throw. simpl.
  destruct (AdmZip_new p (world st)) as [zip|cause] eqn:Hnew.
  2: { right. exists cause, (world st). eexists.
       split; [by apply fails_opening|].
       simpl. by destruct (fs_rmSync t (world st)) as [[[]|?] ?]. }
  destruct (AdmZip_getEntries_length zip) as [n|cause] eqn:Hlen.
  2: { right. exists cause, (world st). eexists.
       split; [by eapply fails_listing|].
       simpl. by destruct (fs_rmSync t (world st)) as [[[]|?] ?]. }
  destruct n as [|n]; simpl.
  { right. eexists _, (world st), _. split; [by eapply fails_empty|].
    by destruct (fs_rmSync t (world st)) as [[[]|?] ?]. }
  destruct (AdmZip_extractAllTo zip t (world st)) as [[[]|cause] w] eqn:Hx;
    simpl.
  - left. exists zip, (S n), w. eexists.
    split_and!; [done|done|lia|done|].
    rewrite <- !app_assoc. reflexivity.
  - right. exists cause, w. eexists.
    split; [eapply fails_writing; eauto; lia|].
    destruct (fs_rmSync t w) as [[[]|?] ?]; simpl;
      rewrite <- !app_assoc; reflexivity.
Qed.

(** The steps of [extractZip] before the [try] statement. *)
Lemma extractZip_steps zipPath st :
  let p := resolveZipPath zipPath in
  let st0 :=
    RunState (world st)
             (console st ++ [(DEBUG, "Resolved zip path: " +:+ p)])
             (engine_calls st) in
  extractZip zipPath st =
  match fs_lookup p (world st) with
  | NotFound =>
      (Throw (ThrownError "Error" ("Zip file not found: " +:+ p)), st0)
  | _ =>
      match fs_statSync_isFile p (world st) with
      | Throw e => (Throw e, st0)
      | Ok false =>
          (Throw (ThrownError "Error" ("Path is not a file: " +:+ p)), st0)
      | Ok true =>
          if Js.endsWith (Js.toLowerCase p) ".zip" then
            match fs_mkdtempSync (path_join os_tmpdir "design-tokens-")
                                 (world st) with
            | (Throw e, w1) =>
                (Throw e, RunState w1 (console st0) (engine_calls st))
            | (Ok t, w1) =>
                extraction p t
                  (RunState w1
                     (console st0
                      ++ [(DEBUG, "Created temp directory: " +:+ t)])
                     (engine_calls st))
            end
          else
            (Throw (ThrownError "Error"
                      ("File does not have .zip extension: " +:+ p)), st0)
      end
  end.
Proof.
  intros p st0. unfold extractZip. fold p. rewrite bind_logger. fold st0.
  unfold existsSync, read_world, statSync_isFile, mkdtempSync.
  unfold bind at 1. simpl.
  destruct (fs_lookup p (world st)) eqn:Hl; simpl; [done|..];
    unfold bind at 1; simpl;
    (destruct (fs_statSync_isFile p (world st)) as [[|]|e]; simpl; [|done..]);
    (destruct (Js.endsWith (Js.toLowerCase p) ".zip"); simpl; [|done]);
    unfold bind at 1; simpl;
    (destruct (fs_mkdtempSync _ (world st)) as [[t|e] w1]; simpl; [|done]);
    by rewrite bind_logger.
Qed.

(** [extractZip] does not invoke the engine. *)
Lemma extractZip_calls zipPath st :
  engine_calls (snd (extractZip zipPath st)) = engine_calls st.
Proof.
  rewrite extractZip_steps. simpl.
  destruct (fs_lookup _ (world st)); [done|..].
  all: destruct (fs_statSync_isFile _ (world st)) as [[|]|?]; try done.
  all: destruct (Js.endsWith _ ".zip"); try done.
  all: destruct (fs_mkdtempSync _ (world st)) as [[t|?] w1]; try done.
  all: match goal with
       | |- context [extraction ?p ?t0 ?s] =>
           destruct (extraction_cases p t0 s)
             as [(zip & n & w & lines & _ & _ & _ & _ & E)
                |(cause & w & lines & _ & E)];
             by rewrite E
       end.
Qed.


End WithHost.
End UnzipFacts.

(** ** The command-line run *)

Module CliFacts.
Import Discover Transform Spec Notions Unzip Cli Index.
Import JsFacts RunFacts DiscoverRun BucketFacts UnzipFacts.
Import TransformWhole CallFacts.

(** [includes] on a string that starts with a string holding the part. *)
Lemma prefix_app part a b :
  String.prefix part a = true → String.prefix part (a +:+ b) = true.
Proof.
  revert part. induction a as [|c' a IH]; intros part H.
  - destruct part; [by destruct b|done].
  - change (String c' a +:+ b) with (String c' (a +:+ b)).
    destruct part as [|c part]; [done|]. simpl in *.
    destruct (ascii_dec c c'); [by apply IH|done].
Qed.

Lemma includes_app_l a b part :
  JsMore.includes a part = true → JsMore.includes (a +:+ b) part = true.
Proof.
  induction a as [|c a IH]; simpl.
  - rewrite orb_false_r. intros H.
    destruct part; [by destruct b|done].
  - intros [H|H]%orb_true_iff.
    + change (String c a +:+ b) with (String c (a +:+ b)).
      cbn [JsMore.includes]. apply orb_true_iff. left.
      by apply (prefix_app part (String c a) b).
    + change (String c a +:+ b) with (String c (a +:+ b)).
      cbn [JsMore.includes]. apply orb_true_iff. right. by apply IH.
Qed.

Section WithHost.
Context {host : Host} {system : System host}.

Lemma cbind_of_M {A B} (m : M A) (k : A → C B) s :
  cbind (of_M m) k s
  = match m (inner s) with
    | (Ok a, st) => k a (CliState st (terminal s))
    | (Throw e, st) => (Throw e, CliState st (terminal s))
    | (Unhandled e, st) => (Unhandled e, CliState st (terminal s))
    end.
Proof. unfold cbind, of_M. by destruct (m (inner s)) as [[[a|e]|e] st]. Qed.

Lemma cbind_logger {B} level message (k : unit → C B) s :
  cbind (of_M (logger level message)) k s
  = k tt (CliState (RunState (world (inner s))
                      (console (inner s) ++ [(level, message)])
                      (engine_calls (inner s)))
                   (terminal s)).
Proof. by rewrite cbind_of_M. Qed.

Lemma cbind_print {B} line (k : unit → C B) s :
  cbind (print line) k s
  = k tt (CliState (inner s) (terminal s ++ [line])).
Proof. done. Qed.

(** Discovery leaves the world and the invocation record alone, however
    it ends. *)
Lemma discover_frame dir st :
  ∃ lines,
    snd (discoverTokenFiles dir st)
    = RunState (world st) (console st ++ lines) (engine_calls st).
Proof.
  destruct (allFiles (classified (files_under dir (world st)))) eqn:E.
  2: { destruct (discover_returns dir st) as [lines ->]; [by rewrite E|].
       by exists lines. }
  clear E. unfold discoverTokenFiles. rewrite bind_logger.
  unfold existsSync, readdirSync, read_world, bind at 1. simpl.
  destruct (fs_lookup dir (world st)) as [| |entries] eqn:Hl; simpl.
  - by eexists.
  - unfold bind. simpl. rewrite Hl. by eexists.
  - unfold bind at 1. simpl. rewrite Hl.
    destruct (findFilesRecursive dir entries []) as [found|error].
    2: { rewrite bind_lift_throw. by eexists. }
    rewrite bind_lift_ok, bind_logger.
    edestruct (categorize_loop found (Buckets [] [] [])) as [lines H].
    rewrite (bind_ok _ _ _ _ _ H). simpl. clear H.
    destruct (_ =? 0).
    { simpl. eexists. by rewrite <- !app_assoc. }
    destruct (length (List.filter (in_bucket Output) found) + _ =? 0);
      rewrite ?bind_logger, ?bind_ret, ?bind_logger;
      edestruct (for_of_logger (List.filter (in_bucket Reference) found))
        as [l2 Hl2];
      rewrite (bind_ok _ _ _ _ _ Hl2); unfold ret; simpl;
      eexists; f_equal; rewrite <- !app_assoc; reflexivity.
Qed.

Lemma logger_error_with_frame message error s :
  ∃ printed,
    logger_error_with message error s
    = (Ok tt,
       CliState (RunState (world (inner s))
                          (console (inner s) ++ [(ERROR, message)])
                          (engine_calls (inner s)))
                (terminal s ++ printed)).
Proof.
  unfold logger_error_with. rewrite cbind_logger, cbind_print. simpl.
  destruct (error_stack error); unfold print, cret; simpl; eexists.
  - by rewrite <- app_assoc.
  - done.
Qed.

(** The [catch] block only writes: to the console and to the terminal. *)
Lemma catch_block_frame error s :
  ∃ lines printed,
    catch_block error s
    = (Ok tt,
       CliState (RunState (world (inner s)) (console (inner s) ++ lines)
                          (engine_calls (inner s)))
                (terminal s ++ printed)) ∧
    ∃ rest, lines = (ERROR, match error with
                            | ThrownError _ _ => "Transformation failed"
                            | ThrownOther => "An unexpected error occurred"
                            end) :: rest.
Proof.
  destruct error as [name message|]; simpl.
  2: { unfold of_M, logger. simpl. eexists [_], []. rewrite app_nil_r.
       split; [done|by eexists]. }
  unfold cbind.
  destruct (logger_error_with_frame "Transformation failed"
              (ThrownError name message) s) as [printed ->].
  destruct (JsMore.includes message "not found");
    [|destruct (JsMore.includes message "No token files found");
      [|destruct (JsMore.includes message "Failed to extract")]];
    unfold of_M, logger, cret; simpl; rewrite <- ?app_assoc;
    eexists _, printed; (split; [reflexivity|]); by eexists.
Qed.

(** The console after the [catch] block. *)
Lemma catch_block_console name message s :
  console (inner (snd (catch_block (ThrownError name message) s)))
  = console (inner s)
    ++ (ERROR, "Transformation failed")
    :: (if JsMore.includes message "not found" then
          [(INFO, "Hint: Check that the zip file path is correct")]
        else if JsMore.includes message "No token files found" then
          [(INFO, "Hint: Token files must have .inp.json or "
                  +:+ ".ref.inp.json extension")]
        else if JsMore.includes message "Failed to extract" then
          [(INFO, "Hint: Ensure the file is a valid zip archive")]
        else []).
Proof.
  simpl. unfold cbind.
  destruct (logger_error_with_frame "Transformation failed"
              (ThrownError name message) s) as [printed ->].
  destruct (JsMore.includes message "not found");
    [|destruct (JsMore.includes message "No token files found");
      [|destruct (JsMore.includes message "Failed to extract")]];
    unfold of_M, logger, cret; simpl; rewrite <- ?app_assoc; done.
Qed.

(** *** The [try] block, step by step *)

Lemma try_extract_fails options s e st1 :
  extractZip (zipPath options) (inner s) = (Throw e, st1) →
  try_block options s = (Throw e, CliState st1 (terminal s)).
Proof. intros H. unfold try_block. by rewrite cbind_of_M, H. Qed.

Lemma try_discover_fails options s t st1 e st2 :
  extractZip (zipPath options) (inner s) = (Ok t, st1) →
  discoverTokenFiles t st1 = (Throw e, st2) →
  try_block options s = (Throw e, CliState st2 (terminal s)).
Proof.
  intros H1 H2. unfold try_block. rewrite cbind_of_M, H1, cbind_of_M.
  simpl. by rewrite H2.
Qed.

Lemma try_nothing_to_do options s t st1 d st2 :
  extractZip (zipPath options) (inner s) = (Ok t, st1) →
  discoverTokenFiles t st1 = (Ok d, st2) →
  Discover.outputFiles d = [] → themeFiles d = [] →
  try_block options s
  = (Ok t,
     CliState (RunState (world st2)
                 (console st2 ++ [(WARN, "No files to transform. Exiting.")])
                 (engine_calls st2))
              (terminal s)).
Proof.
  intros H1 H2 Ho Ht. unfold try_block. rewrite cbind_of_M, H1, cbind_of_M.
  simpl. rewrite H2, Ho, Ht. simpl. by rewrite cbind_logger.
Qed.

Lemma try_transform_fails options s t st1 d st2 e st3 :
  extractZip (zipPath options) (inner s) = (Ok t, st1) →
  discoverTokenFiles t st1 = (Ok d, st2) →
  Discover.outputFiles d ++ themeFiles d ≠ [] →
  transformTokens d (outputDir options) st2 = (Throw e, st3) →
  try_block options s = (Throw e, CliState st3 (terminal s)).
Proof.
  intros H1 H2 Hsome H3. unfold try_block.
  rewrite cbind_of_M, H1, cbind_of_M. simpl. rewrite H2.
  destruct (_ =? 0) eqn:Hz.
  { exfalso. apply Hsome. apply Nat.eqb_eq in Hz.
    apply length_zero_iff_nil. rewrite length_app. lia. }
  rewrite cbind_of_M. simpl. by rewrite H3.
Qed.

Lemma try_transform_ends options s t st1 d st2 e st3 :
  extractZip (zipPath options) (inner s) = (Ok t, st1) →
  discoverTokenFiles t st1 = (Ok d, st2) →
  Discover.outputFiles d ++ themeFiles d ≠ [] →
  transformTokens d (outputDir options) st2 = (Unhandled e, st3) →
  try_block options s = (Unhandled e, CliState st3 (terminal s)).
Proof.
  intros H1 H2 Hsome H3. unfold try_block.
  rewrite cbind_of_M, H1, cbind_of_M. simpl. rewrite H2.
  destruct (_ =? 0) eqn:Hz.
  { exfalso. apply Hsome. apply Nat.eqb_eq in Hz.
    apply length_zero_iff_nil. rewrite length_app. lia. }
  rewrite cbind_of_M. simpl. by rewrite H3.
Qed.

Lemma try_success options s t st1 d st2 results stats st3 :
  extractZip (zipPath options) (inner s) = (Ok t, st1) →
  discoverTokenFiles t st1 = (Ok d, st2) →
  Discover.outputFiles d ++ themeFiles d ≠ [] →
  transformTokens d (outputDir options) st2 = (Ok (results, stats), st3) →
  try_block options s
  = (Ok t,
     CliState (RunState (world st3)
                 (console st3
                  ++ [(SUCCESS,
                       "Generated " +:+ Js.number_to_string (length results)
                       +:+ " CSS file(s) in " +:+ outputDir options)])
                 (engine_calls st3))
              (terminal s ++ ""
               :: Logger.summary (summary_of t d results stats))).
Proof.
  intros H1 H2 Hsome H3. unfold try_block.
  rewrite cbind_of_M, H1, cbind_of_M. simpl. rewrite H2.
  destruct (_ =? 0) eqn:Hz.
  { exfalso. apply Hsome. apply Nat.eqb_eq in Hz.
    apply length_zero_iff_nil. rewrite length_app. lia. }
  rewrite cbind_of_M. simpl. rewrite H3. simpl.
  unfold logger_newline. rewrite cbind_print.
  unfold logger_summary, print_all, cbind at 1. simpl.
  rewrite cbind_logger. simpl. unfold cret.
  by rewrite <- app_assoc.
Qed.



(** The [finally] block. *)
Lemma finally_block_returns t s :
  ∃ lines,
    finally_block t s
    = (Ok tt,
       CliState
         (RunState (if JsMore.truthy t
                    then match fs_lookup t (world (inner s)) with
                         | NotFound => world (inner s)
                         | _ => snd (fs_rmSync t (world (inner s)))
                         end
                    else world (inner s))
                   (console (inner s) ++ lines)
                   (engine_calls (inner s)))
         (terminal s)).
Proof.
  unfold finally_block. destruct (JsMore.truthy t).
  - destruct (cleanupTempDir_returns t (inner s)) as (lines & E).
    exists lines. unfold of_M. by rewrite E.
  - exists []. unfold cret. destruct s as [[w c calls] term]. simpl.
    by rewrite app_nil_r.
Qed.

End WithHost.
End CliFacts.

(** ** Discovery, the run loop and the token walks *)

Section Coverage.
Import Discover Tokens Transform Spec Notions.
Import JsFacts RunFacts DiscoverFacts DiscoverRun JsonFacts WalkFacts.
Import PathFacts NameFacts TransformRun TransformWhole CallFacts BucketFacts.
Import DistFacts ArrayFacts.
Import WalkTree LoopFacts SlashFacts TokenFacts NameRoundTrip DiscoverReport.

(** X1. [findFilesRecursive] only ever extends the array it is given,
    and whether it comes to its end does not depend on that array.  It
    throws exactly when some directory in or below the listing cannot be
    listed, and then the error of the first such directory in the order
    of the walk.  When it returns, what it has added are exactly the
    regular files at any depth below the directory, each path built by
    joining the names on the way; entries that are neither a file nor a
    directory add nothing.  Their number is the number of regular files,
    and they come in the order of the listing, a directory's files in the
    place of the directory. *)
Theorem X1_recursive_walk {host : Host} dir entries files :
  findFilesRecursive dir entries files
  = match findFilesRecursive dir entries [] with
    | Ok found => Ok (files ++ found)
    | Throw error => Throw error
    end ∧
  (∀ found,
     findFilesRecursive dir entries [] = Ok found →
     (∀ f, f ∈ found ↔ reaches dir entries f) ∧
     length found = regular_files_in entries) ∧
  (∀ error,
     findFilesRecursive dir entries files = Throw error
     ↔ first_unreadable entries = Some error) ∧
  ((∃ error, findFilesRecursive dir entries files = Throw error)
   ↔ ∃ error, blocked entries error) ∧
  (∀ more,
     findFilesRecursive dir (entries ++ more) files
     = match findFilesRecursive dir entries files with
       | Ok files' => findFilesRecursive dir more files'
       | Throw error => Throw error
       end) ∧
  (∀ name below,
     findFilesRecursive dir [Directory name below] files
     = findFilesRecursive (path_join dir name) below files) ∧
  (∀ name, findFilesRecursive dir [OtherEntry name] files = Ok files) ∧
  (∀ name error,
     findFilesRecursive dir [Unreadable name error] files = Throw error).
Proof.
  split_and!.
  - apply findFilesRecursive_acc.
  - intros found Hw. split.
    + intros f. by apply elem_of_findFilesRecursive.
    + by apply (length_findFilesRecursive dir).
  - intros error.
    pose proof (findFilesRecursive_first_unreadable dir entries files) as H.
    destruct (findFilesRecursive dir entries files); split; congruence.
  - split.
    + intros [error Hw]. exists error.
      by apply findFilesRecursive_throws in Hw.
    + intros [error Hb]. by eapply findFilesRecursive_blocked.
  - intros more. apply findFilesRecursive_app.
  - intros name below. rewrite findFilesRecursive_cons, visit_directory.
    by destruct (findFilesRecursive _ below files).
  - done.
  - done.
Qed.

(** X2. A discovery that returns has touched neither the file system nor
    the engine; it has only written to the console.  Among the lines it
    wrote there is no error line; there is one warning, about reference
    files only, exactly when there is neither an output nor a theme
    file; and the informational lines are the summary of the counts
    followed by one [Loading reference] line for each reference file, in
    order, with the path relative to the scanned directory. *)
Theorem X2_discovery_report {host : Host} dir st d st' :
  discoverTokenFiles dir st = (Ok d, st') →
  let lines := new_lines st st' in
  console st' = console st ++ lines ∧
  world st' = world st ∧ engine_calls st' = engine_calls st ∧
  at_level ERROR lines = [] ∧
  at_level WARN lines
  = (if decide (outputFiles d = [] ∧ themeFiles d = [])
     then ["No output files found. Only reference files "
           +:+ "(*.ref.inp.json) were discovered."]
     else []) ∧
  at_level INFO lines
  = ("Found " +:+ Js.number_to_string (length (allFiles d))
     +:+ " token files ("
     +:+ Js.number_to_string (length (referenceFiles d))
     +:+ " reference-only, "
     +:+ Js.number_to_string (length (themeFiles d)) +:+ " themes, "
     +:+ Js.number_to_string (length (outputFiles d)) +:+ " standard)")
    :: ((fun f => "Loading reference: " +:+ getRelativePath f dir)
          <$> referenceFiles d).
Proof.
  intros Hrun lines.
  destruct (discover_lines dir st d st' Hrun) as (debug & Hdebug & Hconsole).
  destruct (discover_returned dir st d st' Hrun) as (Hd & _ & Hworld).
  assert (engine_calls st' = engine_calls st) as Hcalls.
  { destruct (allFiles (classified (files_under dir (world st)))) eqn:E.
    - destruct (discover_throws dir st E) as (e & st1 & Hthrow).
      by rewrite Hthrow in Hrun.
    - destruct (discover_returns dir st) as [ls Hret]; [by rewrite E|].
      rewrite Hret in Hrun. by injection Hrun as <- <-. }
  unfold lines. rewrite (new_lines_app _ _ _ Hconsole).
  assert (∀ level, level ≠ DEBUG → at_level level debug = []) as Hother.
  { intros level Hne. apply at_level_other.
    eapply Forall_impl; [exact Hdebug|]. simpl. congruence. }
  split_and!; try done.
  - rewrite !at_level_app, Hother, at_level_fmap by done.
    by destruct (_ =? 0); vm_compute.
  - rewrite !at_level_app, Hother, at_level_fmap by done.
    destruct (length (outputFiles d) + length (themeFiles d) =? 0) eqn:Hz.
    + apply Nat.eqb_eq in Hz.
      destruct (decide (outputFiles d = [] ∧ themeFiles d = []))
        as [_|Hn]; [by vm_compute|].
      exfalso. apply Hn. split; apply length_zero_iff_nil; lia.
    + apply Nat.eqb_neq in Hz.
      destruct (decide (outputFiles d = [] ∧ themeFiles d = []))
        as [[H1 H2]|_]; [|by vm_compute].
      exfalso. apply Hz. by rewrite H1, H2.
  - rewrite !at_level_app, Hother, at_level_fmap by done.
    by destruct (_ =? 0); vm_compute.
Qed.

(** X3. [isThemeFile] agrees with the classification: among the token
    files of a discovery it holds of exactly the theme files.  For such a
    file the base name is the theme name followed by [.theme.inp.json];
    for any other file [getThemeName] returns the base name as it is. *)
Theorem X3_theme_files {host : Host} dir st d st' f :
  discoverTokenFiles dir st = (Ok d, st') →
  f ∈ allFiles d →
  (isThemeFile f = true ↔ f ∈ themeFiles d) ∧
  (isThemeFile f = true →
   Path.basename f = getThemeName f +:+ ".theme.inp.json") ∧
  (isThemeFile f = false → getThemeName f = Path.basename f).
Proof.
  intros Hrun Hin.
  destruct (discover_returned dir st d st' Hrun) as (-> & _ & _).
  split_and!.
  - simpl. rewrite elem_of_filter, in_bucket_theme. unfold isThemeFile.
    split; [|by intros (_ & _ & ?)].
    intros Htheme. split_and!; [| |done].
    + simpl in Hin.
      apply elem_of_app in Hin as [Hin|[Hin|Hin]%elem_of_app];
        by apply elem_of_filter in Hin as [? _].
    + unfold THEME_PATTERN in Htheme.
      apply regex_test_literal in Htheme as [X ->].
      apply theme_name_not_reference.
  - apply theme_round_trip.
  - unfold isThemeFile, getThemeName. apply regex_remove_no_match.
Qed.

(** X4. The output file name of any path is a stem followed by
    [.vars.gen.css].  The stem holds no slash, so the file lands in the
    output directory itself whatever directory the input was in; the base
    name of the input is the stem followed by [.theme.inp.json] or by
    [.inp.json] or, for a name that is no token file name, the stem
    itself. *)
Theorem X4_output_file_name f :
  ∃ stem,
    getOutputFileName f = stem +:+ ".vars.gen.css" ∧
    ("/"%char ∉ units stem) ∧
    (Path.basename f = stem +:+ ".theme.inp.json" ∨
     Path.basename f = stem +:+ ".inp.json" ∨
     Path.basename f = stem ∧
     Js.regex_test OUTPUT_PATTERN (Path.basename f) = false).
Proof.
  unfold getOutputFileName.
  exists (Js.regex_remove OUTPUT_NAME_PATTERN (Path.basename f)).
  split; [done|]. split.
  - destruct (regex_remove_prefix OUTPUT_NAME_PATTERN (Path.basename f))
      as [rest E].
    pose proof (basename_no_slash f) as Hno. rewrite E, units_app in Hno.
    intros Hin. apply Hno, elem_of_app. by left.
  - destruct (Js.regex_test OUTPUT_PATTERN (Path.basename f)) eqn:E.
    + rewrite <- output_name_pattern_test in E.
      apply regex_remove_split in E
        as (suf & [->%String.eqb_eq| ->%String.eqb_eq]%orb_true_iff & E);
        [by left|by right; left].
    + right; right. split; [|done]. symmetry.
      apply regex_remove_no_match. by rewrite output_name_pattern_test.
Qed.

(** X5. In the results of a run every output path is the resolved output
    directory joined with the output file name of the input.  So two
    results whose inputs have the same base name, and likewise the results
    for [X.inp.json] and [X.theme.inp.json], carry the same output
    path. *)
Theorem X5_output_paths {host : Host} d out st results stats st' :
  transformTokens d out st = (Ok (results, stats), st') →
  (∀ r, r ∈ results →
        outputPath r = path_join (resolveOutputDir out)
                                 (getOutputFileName (inputPath r))) ∧
  (∀ r1 r2,
     r1 ∈ results → r2 ∈ results →
     Path.basename (inputPath r1) = Path.basename (inputPath r2) →
     outputPath r1 = outputPath r2) ∧
  (∀ r1 r2 X,
     r1 ∈ results → r2 ∈ results →
     Path.basename (inputPath r1) = X +:+ ".inp.json" →
     Js.regex_test THEME_PATTERN (X +:+ ".inp.json") = false →
     Path.basename (inputPath r2) = X +:+ ".theme.inp.json" →
     outputPath r1 = outputPath r2).
Proof.
  intros Hrun.
  assert (∀ r, r ∈ results →
               outputPath r = path_join (resolveOutputDir out)
                                (getOutputFileName (inputPath r))) as Hpath.
  { refine (transformTokens_invariant
              (fun acc => ∀ r, r ∈ fst acc →
                 outputPath r = path_join (resolveOutputDir out)
                                  (getOutputFileName (inputPath r)))
              d out _ _ _ st (results, stats) st' Hrun).
    - intros f sel [rs ss] st0 r st1 HI (doc & _ & _ & ->)%process_result.
      simpl in *. intros r' [Hr'|Hr'%list_elem_of_singleton]%elem_of_app;
        [by apply HI|by subst r'].
    - by intros [rs ss].
    - by intros r ?%elem_of_nil. }
  split_and!; [done|..].
  - intros r1 r2 H1 H2 E. rewrite (Hpath r1 H1), (Hpath r2 H2).
    unfold getOutputFileName. by rewrite E.
  - intros r1 r2 X H1 H2 E1 Hnot E2. rewrite (Hpath r1 H1), (Hpath r2 H2).
    by rewrite (output_name_of_plain _ X E1 Hnot),
               (output_name_of_theme _ X E2).
Qed.

(** X6. When a run returns, [outputTokenCounts] is the map built from the
    results in order: the count kept for a path is that of the last
    result with that output path, the paths in the map are the output
    paths of the results, and the map has as many entries as there are
    results exactly when the output paths are pairwise distinct. *)
Theorem X6_output_token_counts {host : Host} d out st results stats st' :
  transformTokens d out st = (Ok (results, stats), st') →
  outputTokenCounts stats = counts_of results ∧
  (∀ p, outputTokenCounts stats !! p
        = tokenCount
            <$> last (List.filter (fun r => String.eqb (outputPath r) p)
                                  results)) ∧
  (∀ p, is_Some (outputTokenCounts stats !! p)
        ↔ ∃ r, r ∈ results ∧ outputPath r = p) ∧
  size (outputTokenCounts stats) ≤ length results ∧
  (size (outputTokenCounts stats) = length results
   ↔ NoDup (outputPath <$> results)).
Proof.
  intros Hrun.
  assert (outputTokenCounts stats = counts_of results) as ->.
  { refine (transformTokens_invariant
              (fun acc => outputTokenCounts (snd acc) = counts_of (fst acc))
              d out _ _ _ st (results, stats) st' Hrun).
    - intros f sel [rs ss] st0 r st1 HI _. simpl in *.
      by rewrite counts_of_snoc, HI.
    - by intros [rs ss].
    - done. }
  split_and!; [done|..].
  - apply counts_of_lookup.
  - apply counts_of_dom.
  - apply counts_of_size.
  - apply counts_of_NoDup.
Qed.

(** X7. [transformTokens] throws only while it sets up the output
    directory: the resolved directory is missing and [mkdirSync] fails.
    The error is the one of [mkdirSync], no file has been looked at and
    the engine has not been invoked.  Conversely a failing [mkdirSync] on
    a missing directory makes the run throw that error. *)
Theorem X7_output_directory_failure {host : Host} d out st :
  let resolved := resolveOutputDir out in
  let w := registered (world st) in
  (∀ e st',
     transformTokens d out st = (Throw e, st') →
     fs_lookup resolved w = NotFound ∧
     fs_mkdirSync resolved w = (Throw e, world st') ∧
     engine_calls st' = engine_calls st) ∧
  (∀ e w',
     fs_lookup resolved w = NotFound →
     fs_mkdirSync resolved w = (Throw e, w') →
     ∃ lines,
       transformTokens d out st
       = (Throw e, RunState w' (console st ++ lines) (engine_calls st))).
Proof.
  intros resolved w. split.
  - intros e st' Hrun.
    destruct (transformTokens_cases d out st)
      as [(e' & lines & Hl & Hm & E)|(st0 & Hready & _ & _ & E)].
    + rewrite E in Hrun. injection Hrun as <- <-. simpl.
      split_and!; [done| |done].
      fold resolved w in Hm |- *.
      by destruct (fs_mkdirSync resolved w) as [r w1]; simpl in *; subst r.
    + destruct (transformTokens_run d out st Hready)
        as (c & st1 & calls & E' & _ & _ & _ & Hc).
      rewrite E' in Hrun. injection Hrun as -> _. done.
  - intros e w' Hl Hm.
    destruct (transformTokens_cases d out st)
      as [(e' & lines & _ & Hm' & E)|(st0 & Hready & _ & _ & E)].
    + fold resolved w in Hm', E. rewrite Hm in Hm', E. simpl in *.
      injection Hm' as <-. by exists lines.
    + exfalso. unfold output_dir_ready in Hready.
      fold resolved w in Hready. rewrite Hm in Hready.
      by destruct Hready.
Qed.

(** X8. With neither an output nor a theme file (a discovery of
    reference files only) a run still registers the name transform and
    makes the output directory when it is missing, but it invokes the
    engine not once and returns no results and zero statistics. *)
Theorem X8_nothing_to_transform {host : Host} d out st :
  outputFiles d = [] → themeFiles d = [] →
  output_dir_ready out (world st) →
  ∃ st',
    transformTokens d out st
    = (Ok ([], {| tokensProcessed := 0; tokensSkipped := 0;
                  outputTokenCounts := ∅ |}), st') ∧
    engine_calls st' = engine_calls st ∧
    world st'
    = match fs_lookup (resolveOutputDir out) (registered (world st)) with
      | NotFound =>
          snd (fs_mkdirSync (resolveOutputDir out) (registered (world st)))
      | _ => registered (world st)
      end.
Proof.
  intros Hout Htheme Hready.
  destruct (transformTokens_cases d out st)
    as [(e & lines & Hl & Hm & _)|(st0 & _ & Hcalls & Hworld & E)].
  - exfalso. unfold output_dir_ready in Hready. rewrite Hl, Hm in Hready.
    by destruct Hready.
  - exists st0. rewrite E, Hout, Htheme. by split_and!.
Qed.

(** X9. The name the transform gives to a path is the transformed
    dash-joined path.  It holds no whitespace, lower-casing leaves it as
    it is, and so does transforming it again as a one-segment path.
    Different paths can get one name: two segments and the one segment
    made of them with a dash in between, or a segment with one space and
    the same with two. *)
Theorem X9_name_normal_form t :
  customNameTransform t = transformSegment (Js.join "-" (path t)) ∧
  Forall (fun c => Js.is_whitespace c = false)
         (units (customNameTransform t)) ∧
  Js.toLowerCase (customNameTransform t) = customNameTransform t ∧
  customNameTransform (Token [customNameTransform t])
  = customNameTransform t ∧
  (∀ a b,
     customNameTransform (Token [a; b])
     = customNameTransform (Token [a +:+ "-" +:+ b]) ∧
     customNameTransform (Token [a +:+ " " +:+ b])
     = customNameTransform (Token [a +:+ "  " +:+ b])).
Proof.
  destruct t as [segments]. rewrite customNameTransform_join. simpl.
  split_and!.
  - done.
  - apply transformSegment_no_whitespace.
  - apply transformSegment_lower.
  - unfold customNameTransform. simpl. apply transformSegment_idemp.
  - intros a b. split; [by rewrite !customNameTransform_join|].
    unfold customNameTransform, transformSegment, Js.replace_ws_runs. simpl.
    rewrite !toLowerCase_app. apply replace_spaces.
Qed.

(** X10. The path set built for a file never has more elements than the
    file has tokens, and each token node of the file passes the filter
    built from the set; in general a token passes exactly when its
    dot-joined path is the joined key list of some token node of the
    file. *)
Theorem X10_filter_of_a_file doc :
  size (extractTokenPaths doc [] ∅) ≤ countTokens doc 0 ∧
  (∀ ks obj,
     token_at doc ks obj →
     pathFilter (extractTokenPaths doc [] ∅) (Token ks) = true) ∧
  (∀ t,
     pathFilter (extractTokenPaths doc [] ∅) t = true
     ↔ ∃ ks obj, token_at doc ks obj ∧
                 Js.join "." (path t) = Js.join "." ks).
Proof.
  split_and!.
  - apply paths_size.
  - apply own_tokens_pass.
  - intros t. rewrite pathFilter_spec, extractTokenPaths_root.
    rewrite elem_of_list_to_set, list_elem_of_fmap. split.
    + intros (ks & E & [obj Hat]%token_keys_at). by exists ks, obj.
    + intros (ks & obj & Hat & E). exists ks. split; [done|].
      apply token_keys_at. by exists obj.
Qed.

(** X11. Both walks only add to what they are given: [countTokens] adds
    the count of the document to the starting count, [extractTokenPaths]
    adds the paths of the document to the starting set.  Putting the
    properties of two objects into one object adds their counts and
    unites their path sets. *)
Theorem X11_walks_accumulate :
  (∀ doc count, countTokens doc count = count + countTokens doc 0) ∧
  (∀ doc currentPath paths,
     extractTokenPaths doc currentPath paths
     = paths ∪ extractTokenPaths doc currentPath ∅) ∧
  (∀ ps qs,
     countTokens (JObj (ps ++ qs)) 0
     = countTokens (JObj ps) 0 + countTokens (JObj qs) 0) ∧
  (∀ ps qs currentPath,
     extractTokenPaths (JObj (ps ++ qs)) currentPath ∅
     = extractTokenPaths (JObj ps) currentPath ∅
       ∪ extractTokenPaths (JObj qs) currentPath ∅).
Proof.
  split_and!.
  - intros doc count. rewrite (countTokens_keys doc count).
    by rewrite (countTokens_keys doc 0).
  - apply extractTokenPaths_acc.
  - intros ps qs. rewrite !countTokens_keys, token_keys_props, length_app.
    lia.
  - intros ps qs cur.
    rewrite !extractTokenPaths_keys, token_keys_props, fmap_app.
    rewrite list_to_set_app_L, !(left_id_L ∅ (∪)). done.
Qed.

(** X12. Validation looks inside token nodes, which the count does not
    enter: when the value of some property of a token node (such as a
    composite [$value]) is an object with a [value] key and no [$value]
    key, the file is rejected as being in the legacy format, although the
    token itself is counted as a token of the document. *)
Theorem X12_legacy_inside_token {host : Host} doc ks tok key inner :
  token_at doc ks tok →
  (key, inner) ∈ Json.entries tok →
  legacy_object inner →
  ks ∈ token_keys doc ∧
  0 < countTokens doc 0 ∧
  (∀ name,
     validateDTCGFormat doc name
     = Throw (ThrownError "Error" (formatErrorMessage name))) ∧
  (∀ f all dir sel st,
     document_of f (world st) = Ok doc →
     fst (processTokenFile f all dir sel st)
     = Throw (ThrownError "Error" (formatErrorMessage (Path.basename f))) ∧
     new_calls st (snd (processTokenFile f all dir sel st)) = []).
Proof.
  intros Hat Hin Hleg.
  assert (ks ∈ token_keys doc) as Hks by (apply token_keys_at; by exists tok).
  split_and!; [done| |..].
  - rewrite countTokens_keys. simpl.
    destruct (token_keys doc); [by apply elem_of_nil in Hks|simpl; lia].
  - intros name. by eapply legacy_inside_token.
  - intros f all dir sel st Hdoc.
    pose proof (legacy_inside_token doc ks tok key inner (Path.basename f)
                  Hat Hin Hleg) as Hv.
    destruct (process_invalid f all dir sel st doc _ Hdoc Hv) as [l E].
    split; [by rewrite E|].
    by apply (process_calls_invalid f all dir sel st doc _ Hdoc Hv).
Qed.

(** X13. Every engine invocation of a run that returns is the one of an
    output file, under [:root], or of a theme file, under the selector of
    its theme.  It names a single file to write, the output file name of
    that input, in the format [css/variables] with references kept.  Its
    build path is the resolved output directory itself when that ends in
    a slash, and the resolved output directory followed by a slash when
    it does not; so it always ends in one slash more than nothing and
    never in a slash that was added to one.  It asks for the three
    transforms, the custom name transform first. *)
Theorem X13_engine_configurations {host : Host} d out st acc st' config :
  transformTokens d out st = (Ok acc, st') →
  config ∈ new_calls st st' →
  ∃ f fc,
    files (css config) = [fc] ∧
    destination fc = getOutputFileName f ∧
    (f ∈ outputFiles d ∧ selector fc = ":root" ∨
     f ∈ themeFiles d ∧ selector fc = themeSelector f) ∧
    format fc = "css/variables" ∧ outputReferences fc = true ∧
    ((∃ x, resolveOutputDir out = x +:+ "/") →
     buildPath (css config) = resolveOutputDir out) ∧
    ((∀ x, resolveOutputDir out ≠ x +:+ "/") →
     buildPath (css config) = resolveOutputDir out +:+ "/") ∧
    Js.endsWith (buildPath (css config)) "/" = true ∧
    transforms (css config) = [CUSTOM_NAME_TRANSFORM; "size/px"; "color/css"] ∧
    source config = allFiles d.
Proof.
  intros Hrun Hin.
  destruct (transformTokens_calls d out st acc st' Hrun) as [Hcalls _].
  assert (∀ dest sel paths,
            let c := styleDictionaryConfig (allFiles d) (resolveOutputDir out)
                       dest sel paths in
            ((∃ x, resolveOutputDir out = x +:+ "/") →
             buildPath (css c) = resolveOutputDir out) ∧
            ((∀ x, resolveOutputDir out ≠ x +:+ "/") →
             buildPath (css c) = resolveOutputDir out +:+ "/") ∧
            Js.endsWith (buildPath (css c)) "/" = true) as Hpath.
  { intros dest sel paths. simpl.
    destruct (Js.endsWith (resolveOutputDir out) "/") eqn:E.
    - split_and!; [done| |done].
      intros Hne. apply endsWith_spec in E as [x E]. by destruct (Hne x).
    - split_and!; [|done|apply endsWith_app].
      intros [x Hx]. rewrite Hx, endsWith_app in E. done. }
  destruct (Hcalls config Hin) as (f & paths & [[Hf ->]|[Hf ->]]);
    exists f; eexists;
    (split_and!; [reflexivity|done|eauto|done|done|apply Hpath..|done|done]).
Qed.

(** X23. A failure of one file stays with that file as long as it is
    thrown: when [processTokenFile] throws, the turn of the loop records
    no result, counts one skip, logs the base name of the file with the
    message of the error, and the loop goes on with the remaining files;
    when it returns, the result is recorded and its count added.  A run
    whose output directory is there or can be made never throws.  It
    returns, and then [tokensProcessed] is the sum of the token counts of
    the results, and the results and the skips together are as many as
    the output and theme files; or the process ends under it, which
    happens only in an engine invocation whose failure the engine leaves
    unhandled.  With an engine that never does so, every such run
    returns. *)
Theorem X23_failures_and_the_end_of_a_run {host : Host} :
  (∀ sel all dir f rest acc st e st1,
     processTokenFile f all dir (sel f) st = (Throw e, st1) →
     ∃ st2,
       iteration sel all dir f acc st = (Ok (skipped acc), st2) ∧
       world st2 = world st1 ∧ engine_calls st2 = engine_calls st1 ∧
       console st2
       = console st1
         ++ [(ERROR, "Failed to process " +:+ Path.basename f +:+ ": "
                     +:+ errorMessage e)] ∧
       for_of (f :: rest) (iteration sel all dir) acc st
       = for_of rest (iteration sel all dir) (skipped acc) st2) ∧
  (∀ sel all dir f rest results stats st r st1,
     processTokenFile f all dir (sel f) st = (Ok r, st1) →
     iteration sel all dir f (results, stats) st
     = (Ok (results ++ [r],
            {| tokensProcessed := tokensProcessed stats + tokenCount r;
               tokensSkipped := tokensSkipped stats;
               outputTokenCounts :=
                 <[outputPath r := tokenCount r]> (outputTokenCounts stats) |}),
        st1) ∧
     for_of (f :: rest) (iteration sel all dir) (results, stats) st
     = for_of rest (iteration sel all dir)
         (recordResult r (results, stats)) st1) ∧
  (∀ all dir,
     processOutputFile all dir = iteration (fun _ => ":root") all dir ∧
     processThemeFile all dir = iteration themeSelector all dir) ∧
  (∀ d out st,
     output_dir_ready out (world st) →
     ∃ c st',
       transformTokens d out st = (c, st') ∧
       match c with
       | Settled (Ok (results, stats)) =>
           tokensProcessed stats = total_tokens results ∧
           tokensSkipped stats + length results
           = length (outputFiles d) + length (themeFiles d) ∧
           sublist (inputPath <$> results) (outputFiles d ++ themeFiles d)
       | Settled (Throw _) => False
       | Unhandled e => engine_ends e ∧ new_calls st st' ≠ []
       end) ∧
  ((∀ config w e, fst (sd_build config w) ≠ Unhandled e) →
   ∀ d out st,
     output_dir_ready out (world st) →
     ∃ results stats st',
       transformTokens d out st = (Ok (results, stats), st')).
Proof.
  assert (∀ d out st,
            output_dir_ready out (world st) →
            ∃ c st',
              transformTokens d out st = (c, st') ∧
              match c with
              | Settled (Ok (results, stats)) =>
                  tokensProcessed stats = total_tokens results ∧
                  tokensSkipped stats + length results
                  = length (outputFiles d) + length (themeFiles d) ∧
                  sublist (inputPath <$> results)
                          (outputFiles d ++ themeFiles d)
              | Settled (Throw _) => False
              | Unhandled e => engine_ends e ∧ new_calls st st' ≠ []
              end) as Hrun.
  { intros d out st Hready.
    destruct (transformTokens_run d out st Hready)
      as (c & st' & calls & E & _ & _ & _ & Hc).
    exists c, st'. split; [done|].
    destruct c as [[[results stats]|e]|e]; [|done|].
    - by destruct Hc as (? & ? & ? & _).
    - by apply (transformTokens_ends d out). }
  split_and!.
  - intros sel all dir f rest acc st e st1 Hp.
    pose proof (iteration_throw sel all dir f acc st e st1 Hp) as Hit.
    eexists. split_and!; [exact Hit|done..|].
    by apply for_of_continue.
  - intros sel all dir f rest results stats st r st1 Hp.
    pose proof (iteration_ok sel all dir f (results, stats) st r st1 Hp)
      as Hit.
    split; [exact Hit|]. by apply for_of_continue.
  - done.
  - exact Hrun.
  - intros Hnever d out st Hready.
    destruct (Hrun d out st Hready) as (c & st' & E & Hc).
    destruct c as [[[results stats]|e]|e]; [by eauto|done|].
    destruct Hc as [(config & w & He) _]. by destruct (Hnever config w e).
Qed.

End Coverage.

(** *** The properties at work on the sample archives *)

Import Discover Tokens Transform Spec Notions.
Import JsFacts RunFacts DiscoverFacts DiscoverRun JsonFacts WalkFacts.
Import PathFacts NameFacts TransformRun TransformWhole CallFacts BucketFacts.
Import DistFacts ArrayFacts.
Import WalkTree LoopFacts SlashFacts TokenFacts NameRoundTrip DiscoverReport.

(** X2 at the archive of reference files. *)
Lemma X2_discovery_report_witness :
  let st := Demo.start Samples.references_only in
  let st' := snd (discoverTokenFiles (host := Demo.demo_host) "/r" st) in
  world st' = world st ∧
  at_level WARN (new_lines st st')
  = (if decide (outputFiles Samples.references_found = [] ∧
                themeFiles Samples.references_found = [])
     then ["No output files found. Only reference files "
           +:+ "(*.ref.inp.json) were discovered."]
     else []).
Proof.
  intros st st'.
  assert (discoverTokenFiles (host := Demo.demo_host) "/r" st
          = (Ok Samples.references_found, st')) as Hrun
    by (vm_compute; reflexivity).
  destruct (X2_discovery_report (host := Demo.demo_host) "/r" st
              Samples.references_found st' Hrun)
    as (_ & Hworld & _ & _ & Hwarn & _).
  exact (conj Hworld Hwarn).
Defined.

(** X3 at the theme file of the archive of twins. *)
Lemma X3_theme_files_witness :
  (isThemeFile "/t/themes/brand.theme.inp.json" = true
   ↔ "/t/themes/brand.theme.inp.json" ∈ themeFiles Samples.twins_found) ∧
  (isThemeFile "/t/themes/brand.theme.inp.json" = true →
   Path.basename "/t/themes/brand.theme.inp.json"
   = getThemeName "/t/themes/brand.theme.inp.json" +:+ ".theme.inp.json").
Proof.
  set (st := Demo.start Samples.twins).
  assert (discoverTokenFiles (host := Demo.demo_host) "/t" st
          = (Ok Samples.twins_found,
             snd (discoverTokenFiles (host := Demo.demo_host) "/t" st)))
    as Hrun by (vm_compute; reflexivity).
  destruct (X3_theme_files (host := Demo.demo_host) "/t" st
              Samples.twins_found _ "/t/themes/brand.theme.inp.json" Hrun)
    as (H1 & H2 & _).
  - vm_compute. apply list_elem_of_here.
  - exact (conj H1 H2).
Defined.

(** X5 at the archive of twins: both results name one output path. *)
Lemma X5_output_paths_witness :
  outputPath {| outputPath := "/out/brand.vars.gen.css";
                tokenCount := 1;
                inputPath := "/t/brand.inp.json" |}
  = outputPath {| outputPath := "/out/brand.vars.gen.css";
                  tokenCount := 2;
                  inputPath := "/t/themes/brand.theme.inp.json" |}.
Proof.
  set (ran := transformTokens (host := Demo.demo_host) Samples.twins_found
                "/out" (Demo.start Samples.twins)).
  assert (ran = (Ok (Samples.twins_results, Samples.twins_stats), snd ran))
    as Hrun by (vm_compute; reflexivity).
  destruct (X5_output_paths (host := Demo.demo_host) Samples.twins_found
              "/out" (Demo.start Samples.twins) _ _ _ Hrun)
    as (_ & _ & Htwins).
  apply (Htwins _ _ "brand").
  - apply list_elem_of_here.
  - apply list_elem_of_further, list_elem_of_here.
  - by vm_compute.
  - by vm_compute.
  - by vm_compute.
Defined.

(** X6 at the archive of twins: one entry for two results. *)
Lemma X6_output_token_counts_witness :
  outputTokenCounts Samples.twins_stats = counts_of Samples.twins_results ∧
  size (outputTokenCounts Samples.twins_stats)
  ≤ length Samples.twins_results.
Proof.
  set (ran := transformTokens (host := Demo.demo_host) Samples.twins_found
                "/out" (Demo.start Samples.twins)).
  assert (ran = (Ok (Samples.twins_results, Samples.twins_stats), snd ran))
    as Hrun by (vm_compute; reflexivity).
  destruct (X6_output_token_counts (host := Demo.demo_host)
              Samples.twins_found "/out" (Demo.start Samples.twins) _ _ _
              Hrun)
    as (H1 & _ & _ & H2 & _).
  exact (conj H1 H2).
Defined.

(** X7 on the locked host, where the output directory is missing. *)
Lemma X7_output_directory_failure_witness :
  ∃ lines,
    transformTokens (host := Samples.locked_host) Samples.references_found
      "/out" Samples.locked_start
    = (Throw (ThrownError "Error"
                ("EACCES: permission denied, mkdir '" +:+ "/out" +:+ "'")),
       @RunState Samples.locked_host Samples.references_only
         (console Samples.locked_start ++ lines)
         (engine_calls Samples.locked_start)).
Proof.
  destruct (X7_output_directory_failure (host := Samples.locked_host)
              Samples.references_found "/out" Samples.locked_start)
    as [_ Hthrow].
  apply Hthrow; by vm_compute.
Defined.

(** X8 at the archive of reference files. *)
Lemma X8_nothing_to_transform_witness :
  ∃ st',
    transformTokens (host := Demo.demo_host) Samples.references_found "/out"
      (Demo.start Samples.references_only)
    = (Ok ([], {| tokensProcessed := 0; tokensSkipped := 0;
                  outputTokenCounts := ∅ |}), st') ∧
    engine_calls st' = engine_calls (Demo.start Samples.references_only).
Proof.
  destruct (X8_nothing_to_transform (host := Demo.demo_host)
              Samples.references_found "/out"
              (Demo.start Samples.references_only))
    as (st' & H1 & H2 & _); [done| done| right; by vm_compute|].
  exists st'. exact (conj H1 H2).
Defined.

(** X12 at a dimension token whose value is a number with a unit. *)
Lemma X12_legacy_inside_token_witness :
  ["space"; "small"] ∈ token_keys Samples.doc_dimension ∧
  0 < countTokens Samples.doc_dimension 0 ∧
  validateDTCGFormat Samples.doc_dimension "space.inp.json"
  = Throw (ThrownError "Error" (formatErrorMessage "space.inp.json")).
Proof.
  destruct (X12_legacy_inside_token (host := Demo.demo_host)
              Samples.doc_dimension ["space"; "small"]
              (JObj [("$type", JStr "dimension");
                     ("$value", JObj [("value", JNum "16");
                                      ("unit", JStr "px")])])
              "$value"
              (JObj [("value", JNum "16"); ("unit", JStr "px")]))
    as (H1 & H2 & H3 & _).
  - eapply token_deeper; [apply list_elem_of_here|done|done|].
    by eapply token_here; [apply list_elem_of_here|..].
  - apply list_elem_of_further, list_elem_of_here.
  - by vm_compute.
  - exact (conj H1 (conj H2 (H3 "space.inp.json"))).
Defined.

(** X13 at the invocation for the theme file of the archive of twins,
    in a run whose output directory is given with a slash at its end:
    the build path is that directory as it is. *)
Lemma X13_engine_configurations_witness :
  let config :=
    styleDictionaryConfig (allFiles Samples.twins_found) "/out/"
      "brand.vars.gen.css" "[data-mantine-color-scheme='brand']"
      (extractTokenPaths Demo.doc_dark [] ∅) in
  buildPath (css config) = "/out/" ∧
  ∃ f fc,
    files (css config) = [fc] ∧
    destination fc = getOutputFileName f ∧
    (f ∈ outputFiles Samples.twins_found ∧ selector fc = ":root" ∨
     f ∈ themeFiles Samples.twins_found ∧ selector fc = themeSelector f).
Proof.
  intros config.
  set (st := Demo.start Samples.twins).
  set (ran := transformTokens (host := Demo.demo_host) Samples.twins_found
                "/out/" st).
  assert (ran
          = (Ok ([ {| outputPath := "/out//brand.vars.gen.css";
                      tokenCount := 1;
                      inputPath := "/t/brand.inp.json" |};
                   {| outputPath := "/out//brand.vars.gen.css";
                      tokenCount := 2;
                      inputPath := "/t/themes/brand.theme.inp.json" |} ],
                 {| tokensProcessed := 3;
                    tokensSkipped := 0;
                    outputTokenCounts :=
                      {[ "/out//brand.vars.gen.css" := 2 ]} |}),
             snd ran))
    as Hrun by (vm_compute; reflexivity).
  destruct (X13_engine_configurations (host := Demo.demo_host)
              Samples.twins_found "/out/" st _ (snd ran) config Hrun)
    as (f & fc & H1 & H2 & H3 & _ & _ & H4 & _).
  - vm_compute. apply list_elem_of_further, list_elem_of_here.
  - split.
    + apply H4. by exists "/out".
    + exists f, fc. exact (conj H1 (conj H2 H3)).
Defined.


(** X23 at a run over the sample archive, one of whose files is in the
    legacy format and is skipped. *)
Lemma X23_failures_and_the_end_of_a_run_witness :
  let ran := transformTokens (host := Demo.demo_host) Demo.discovered "/out"
               Demo.extracted in
  (∃ results stats st', ran = (Ok (results, stats), st')) ∧
  fst ran = Ok (Samples.archive_results, Samples.archive_stats) ∧
  tokensSkipped Samples.archive_stats = 1.
Proof.
  intros ran.
  destruct (X23_failures_and_the_end_of_a_run (host := Demo.demo_host))
    as (_ & _ & _ & _ & Hrun).
  split_and!; [|vm_compute; reflexivity|reflexivity].
  apply Hrun.
  - intros config w e. unfold sd_build. simpl. unfold Demo.build.
    by destruct (source config).
  - left. by vm_compute.
Defined.

(** ** The archive extractor and the command-line run *)

Section CoverageCli.
Import Discover Tokens Transform Spec Notions Unzip Cli Index.
Import JsFacts RunFacts DiscoverRun BucketFacts CallFacts UnzipFacts CliFacts.

(** X14. [extractZip] checks the resolved path before it makes anything:
    a missing path, a path that is no regular file and a name that does
    not end in [.zip] (in any letter case) are rejected in this order,
    each with its own message, and the world is left as it was: no
    temporary directory is made. *)
Theorem X14_archive_path_checks {host : Host} {system : System host}
        zipPath st :
  let p := resolveZipPath zipPath in
  let st0 :=
    RunState (world st)
             (console st ++ [(DEBUG, "Resolved zip path: " +:+ p)])
             (engine_calls st) in
  (fs_lookup p (world st) = NotFound →
   extractZip zipPath st
   = (Throw (ThrownError "Error" ("Zip file not found: " +:+ p)), st0)) ∧
  (fs_lookup p (world st) ≠ NotFound →
   fs_statSync_isFile p (world st) = Ok false →
   extractZip zipPath st
   = (Throw (ThrownError "Error" ("Path is not a file: " +:+ p)), st0)) ∧
  (fs_lookup p (world st) ≠ NotFound →
   fs_statSync_isFile p (world st) = Ok true →
   Js.endsWith (Js.toLowerCase p) ".zip" = false →
   extractZip zipPath st
   = (Throw (ThrownError "Error"
               ("File does not have .zip extension: " +:+ p)), st0)) ∧
  (Js.endsWith (Js.toLowerCase p) ".zip" = true
   ↔ ∃ x ext, p = x +:+ ext ∧ Js.toLowerCase ext = ".zip").
Proof.
  intros p st0. pose proof (extractZip_steps zipPath st) as E.
  fold p st0 in E. simpl in E. split_and!.
  - intros Hl. by rewrite Hl in E.
  - intros Hl Hf. rewrite Hf in E. by destruct (fs_lookup p (world st)).
  - intros Hl Hf Hext. rewrite Hf, Hext in E.
    by destruct (fs_lookup p (world st)).
  - apply zip_extension.
Qed.

(** X15. Whenever [extractZip] throws, the engine has not been invoked
    and one of three things holds: the world is as it was (the path was
    rejected, or could not be examined); or [mkdtempSync] itself failed;
    or the temporary directory had been made, the archive could not be
    opened, listed or written out, or had no entry, and then [rmSync] has
    been applied to the temporary directory and the error thrown is an
    [Error] whose message is [Failed to extract zip file: ] followed by
    the message of the cause. *)
Theorem X15_extraction_failure {host : Host} {system : System host}
        zipPath st e st' :
  extractZip zipPath st = (Throw e, st') →
  let p := resolveZipPath zipPath in
  let pre := path_join os_tmpdir "design-tokens-" in
  engine_calls st' = engine_calls st ∧
  (world st' = world st ∨
   fs_mkdtempSync pre (world st) = (Throw e, world st') ∨
   ∃ t w1 cause w,
     fs_mkdtempSync pre (world st) = (Ok t, w1) ∧
     extraction_failure p t w1 cause w ∧
     world st' = snd (fs_rmSync t w) ∧
     e = ThrownError "Error"
           ("Failed to extract zip file: " +:+ errorMessage cause)).
Proof.
  intros Hrun p pre. rewrite extractZip_steps in Hrun. fold p pre in Hrun.
  simpl in Hrun.
  assert (∀ (e0 e1 : thrown) (s0 s1 : run_state),
            ((Throw e0, s0) : completion string * run_state)
            = (Throw e1, s1) →
            world s0 = world st → engine_calls s0 = engine_calls st →
            engine_calls s1 = engine_calls st ∧ world s1 = world st) as Hsame.
  { intros e0 e1 s0 s1 [= _ <-] ? ?. done. }
  destruct (fs_lookup p (world st)) eqn:Hl.
  { destruct (Hsame _ _ _ _ Hrun) as [? ?]; [done..|]. split; [done|by left]. }
  all: destruct (fs_statSync_isFile p (world st)) as [[|]|e0] eqn:Hf;
    [|destruct (Hsame _ _ _ _ Hrun) as [? ?]; [done..|];
      split; [done|by left]..].
  all: destruct (Js.endsWith (Js.toLowerCase p) ".zip");
    [|destruct (Hsame _ _ _ _ Hrun) as [? ?]; [done..|];
      split; [done|by left]].
  all: destruct (fs_mkdtempSync pre (world st)) as [[t|e0] w1] eqn:Hm;
    [|injection Hrun as <- <-; split; [done|right; by left]].
  all: match type of Hrun with
       | extraction _ _ ?s = _ =>
           destruct (extraction_cases p t s)
             as [(zip & n & w & lines & _ & _ & _ & _ & E)
                |(cause & w & lines & Hfail & E)];
             rewrite E in Hrun; [done|]
       end;
    injection Hrun as <- <-; simpl; split; [done|];
    right; right; exists t, w1, cause, w;
    split_and!; [done..|]; by destruct cause.
Qed.

(** X16. When [extractZip] returns, what it returns is the directory
    that [mkdtempSync] made from the prefix [design-tokens-] under the
    system's temporary directory; the path given exists, is a regular
    file and has the [.zip] extension in some letter case; the archive
    has at least one entry and has been written out under the returned
    directory; and the engine has not been invoked. *)
Theorem X16_extraction_result {host : Host} {system : System host}
        zipPath st t st' :
  extractZip zipPath st = (Ok t, st') →
  let p := resolveZipPath zipPath in
  fs_lookup p (world st) ≠ NotFound ∧
  fs_statSync_isFile p (world st) = Ok true ∧
  (∃ x ext, p = x +:+ ext ∧ Js.toLowerCase ext = ".zip") ∧
  (∃ w1 zip n,
     fs_mkdtempSync (path_join os_tmpdir "design-tokens-") (world st)
     = (Ok t, w1) ∧
     AdmZip_new p w1 = Ok zip ∧
     AdmZip_getEntries_length zip = Ok n ∧ 0 < n ∧
     AdmZip_extractAllTo zip t w1 = (Ok tt, world st')) ∧
  engine_calls st' = engine_calls st.
Proof.
  intros Hrun p. rewrite extractZip_steps in Hrun. fold p in Hrun.
  simpl in Hrun.
  destruct (fs_lookup p (world st)) eqn:Hl; [done|..].
  all: destruct (fs_statSync_isFile p (world st)) as [[|]|?] eqn:Hf;
    try done.
  all: destruct (Js.endsWith (Js.toLowerCase p) ".zip") eqn:Hz; [|done].
  all: apply zip_extension in Hz.
  all: destruct (fs_mkdtempSync _ (world st)) as [[t0|?] w1] eqn:Hm;
    [|done].
  all: match type of Hrun with
       | extraction _ _ ?s = _ =>
           destruct (extraction_cases p t0 s)
             as [(zip & n & w & lines & Hnew & Hlen & Hn & Hx & E)
                |(cause & w & lines & Hfail & E)];
             rewrite E in Hrun; [|done]
       end.
  all: injection Hrun as <- <-; simpl in *.
  all: split_and!; try done; by exists w1, zip, n.
Qed.

(** X17. [cleanupTempDir] never throws and never invokes the engine.
    When the directory is not there it does nothing at all.  Otherwise it
    applies [rmSync] to it once and logs one line: a debug line when the
    removal succeeded, a warning when it failed. *)
Theorem X17_cleanup_never_throws {host : Host} {system : System host}
        tempDir st :
  ∃ st',
    cleanupTempDir tempDir st = (Ok tt, st') ∧
    engine_calls st' = engine_calls st ∧
    (fs_lookup tempDir (world st) = NotFound → st' = st) ∧
    (fs_lookup tempDir (world st) ≠ NotFound →
     world st' = snd (fs_rmSync tempDir (world st)) ∧
     (is_ok (fst (fs_rmSync tempDir (world st))) = true ∧
      console st'
      = console st
        ++ [(DEBUG, "Cleaned up temp directory: " +:+ tempDir)] ∨
      is_ok (fst (fs_rmSync tempDir (world st))) = false ∧
      console st'
      = console st
        ++ [(WARN, "Failed to cleanup temp directory: " +:+ tempDir)])).
Proof.
  unfold cleanupTempDir, try_catch, bind, existsSync, read_world, rmSync,
    logger, ret. simpl.
  destruct (fs_lookup tempDir (world st)) eqn:Hl; simpl.
  - exists st. by split_and!.
  - destruct (fs_rmSync tempDir (world st)) as [[[]|e] w]; simpl;
      eexists; (split_and!; [done..|]); intros _; (split; [done|]);
      first [by left|by right].
  - destruct (fs_rmSync tempDir (world st)) as [[[]|e] w]; simpl;
      eexists; (split_and!; [done..|]); intros _; (split; [done|]);
      first [by left|by right].
Qed.


(** X19. When the archive has been extracted and discovery then throws
    (no token file in it, say), the run ends with exit code 1 and the
    extracted files stay behind: the world is the one extraction left,
    [rmSync] has not been applied to the temporary directory, and the
    engine has not been invoked. *)
Theorem X19_failed_run_leaves_files {host : Host} {system : System host}
        options s t st1 e st2 :
  extractZip (zipPath options) (inner s) = (Ok t, st1) →
  discoverTokenFiles t st1 = (Throw e, st2) →
  ∃ s',
    runCli options s = (Ok (Exited 1), s') ∧
    world (inner s') = world st1 ∧
    fs_lookup t (world (inner s')) = fs_lookup t (world st1) ∧
    engine_calls (inner s') = engine_calls (inner s).
Proof.
  intros H1 H2. unfold runCli.
  rewrite (try_discover_fails options s t st1 e st2 H1 H2). unfold cbind.
  destruct (catch_block_frame e (CliState st2 (terminal s)))
    as (lines & printed & -> & _).
  destruct (discover_frame t st1) as [l Hframe]. rewrite H2 in Hframe.
  simpl in *. subst st2. simpl.
  pose proof (extractZip_calls (zipPath options) (inner s)) as Hcalls.
  rewrite H1 in Hcalls. simpl in Hcalls.
  eexists. by split_and!.
Qed.

(** X20. When the archive holds reference files only, the run warns that
    there is nothing to transform and returns: the engine is not
    invoked, the name transform is not registered, no output directory is
    made and no summary is printed; the only change to the world after
    the extraction is the removal of the temporary directory. *)
Theorem X20_reference_only_run {host : Host} {system : System host}
        options s t st1 d st2 :
  extractZip (zipPath options) (inner s) = (Ok t, st1) →
  discoverTokenFiles t st1 = (Ok d, st2) →
  Discover.outputFiles d = [] → themeFiles d = [] →
  ∃ s' lines,
    runCli options s = (Ok Returned, s') ∧
    terminal s' = terminal s ∧
    engine_calls (inner s') = engine_calls (inner s) ∧
    console (inner s')
    = console st2 ++ (WARN, "No files to transform. Exiting.") :: lines ∧
    world (inner s')
    = (if JsMore.truthy t
       then match fs_lookup t (world st1) with
            | NotFound => world st1
            | _ => snd (fs_rmSync t (world st1))
            end
       else world st1).
Proof.
  intros H1 H2 Ho Ht. unfold runCli.
  rewrite (try_nothing_to_do options s t st1 d st2 H1 H2 Ho Ht).
  unfold cbind.
  match goal with
  | |- context [finally_block t ?s1] =>
      destruct (finally_block_returns t s1) as [lines ->]
  end.
  destruct (discover_frame t st1) as [l Hframe]. rewrite H2 in Hframe.
  simpl in *. subst st2. simpl.
  pose proof (extractZip_calls (zipPath options) (inner s)) as Hcalls.
  rewrite H1 in Hcalls. simpl in Hcalls.
  eexists _, lines. split_and!; try done. by rewrite <- app_assoc.
Qed.

(** X21. When every step succeeds the run returns after printing a blank
    line and the summary and logging the success line.  In the summary
    the tokens processed are the sum of the counts of the output files
    listed, the tokens skipped are the number of input files listed that
    have no output file listed, and the success line gives the number of
    output files listed and the output directory as it was given.  The
    temporary directory is then removed. *)
Theorem X21_successful_run {host : Host} {system : System host}
        options s t st1 d st2 results stats st3 :
  extractZip (zipPath options) (inner s) = (Ok t, st1) →
  discoverTokenFiles t st1 = (Ok d, st2) →
  Discover.outputFiles d ++ themeFiles d ≠ [] →
  transformTokens d (outputDir options) st2 = (Ok (results, stats), st3) →
  ∃ s' lines,
    let data := summary_of t d results stats in
    runCli options s = (Ok Returned, s') ∧
    terminal s' = terminal s ++ "" :: Logger.summary data ∧
    Logger.tokensProcessed data
    = foldr (fun o n => snd o + n) 0 (Logger.outputFiles data) ∧
    Logger.tokensSkipped data + length (Logger.outputFiles data)
    = length (Logger.inputFiles data) ∧
    console (inner s')
    = console st3
      ++ (SUCCESS,
          "Generated "
          +:+ Js.number_to_string (length (Logger.outputFiles data))
          +:+ " CSS file(s) in " +:+ outputDir options) :: lines ∧
    world (inner s')
    = (if JsMore.truthy t
       then match fs_lookup t (world st3) with
            | NotFound => world st3
            | _ => snd (fs_rmSync t (world st3))
            end
       else world st3).
Proof.
  intros H1 H2 Hsome H3. unfold runCli.
  rewrite (try_success options s t st1 d st2 results stats st3 H1 H2 Hsome H3).
  unfold cbind.
  match goal with
  | |- context [finally_block t ?s1] =>
      destruct (finally_block_returns t s1) as [lines ->]
  end.
  destruct (transformTokens_returned d (outputDir options) st2 results stats
              st3 H3) as (Htok & Hskip & _).
  eexists _, lines. simpl. split_and!; try done.
  - rewrite Htok. clear. induction results as [|r rs IH]; simpl; [done|].
    by rewrite IH.
  - rewrite !length_app, !length_map. lia.
  - by rewrite length_map, <- app_assoc.
Qed.

(** X22. The hints of the [catch] block meet the errors that the other
    modules throw.  After the error line, the last line logged is the
    hint to check the path when [extractZip] found no file at the
    resolved path; the hint about the extensions when discovery found a
    directory without token files; and the hint about a valid archive
    when the archive had no entry, or more generally for an extraction
    error whose message holds neither [not found] nor
    [No token files found]. *)
Theorem X22_hints {host : Host} {system : System host} :
  (∀ zipPath st s,
     fs_lookup (resolveZipPath zipPath) (world st) = NotFound →
     ∃ e st',
       extractZip zipPath st = (Throw e, st') ∧
       last (console (inner (snd (catch_block e s))))
       = Some (INFO, "Hint: Check that the zip file path is correct")) ∧
  (∀ dir st entries found s,
     fs_lookup dir (world st) = DirectoryOf entries →
     findFilesRecursive dir entries [] = Ok found →
     allFiles (classified found) = [] →
     ∃ e,
       fst (discoverTokenFiles dir st) = Throw e ∧
       last (console (inner (snd (catch_block e s))))
       = Some (INFO, "Hint: Token files must have .inp.json or "
                     +:+ ".ref.inp.json extension")) ∧
  (∀ cause s,
     let message :=
       "Failed to extract zip file: " +:+ errorMessage cause in
     JsMore.includes message "not found" = false →
     JsMore.includes message "No token files found" = false →
     last (console (inner (snd (catch_block (extractionError cause) s))))
     = Some (INFO, "Hint: Ensure the file is a valid zip archive")) ∧
  (∀ s,
     last (console (inner (snd (catch_block
             (extractionError (ThrownError "Error" "Zip file is empty")) s))))
     = Some (INFO, "Hint: Ensure the file is a valid zip archive")).
Proof.
  split_and!.
  - intros zipPath st s Hl. eexists _, _. split.
    + rewrite extractZip_steps. simpl. by rewrite Hl.
    + rewrite catch_block_console.
      assert (JsMore.includes
                ("Zip file not found: " +:+ resolveZipPath zipPath)
                "not found" = true) as ->
        by (by apply includes_app_l).
      by rewrite last_app.
  - intros dir st entries found s Hl Hw Hnone. eexists. split.
    + by eapply DiscoverTree.discover_no_tokens.
    + rewrite catch_block_console. by rewrite last_app.
  - intros cause s message H1 H2.
    assert (extractionError cause = ThrownError "Error" message) as ->
      by (by destruct cause).
    rewrite catch_block_console, H1, H2.
    assert (JsMore.includes message "Failed to extract" = true) as ->
      by (by apply includes_app_l).
    by rewrite last_app.
  - intros s. simpl extractionError. rewrite catch_block_console.
    by rewrite last_app.
Qed.

End CoverageCli.

(** *** The properties at work on the sample system *)

Import Discover Tokens Transform Spec Notions Unzip Cli Index.

(** X14 at an archive whose name does not end in [.zip]. *)
Lemma X14_archive_path_checks_witness :
  fst (extractZip (host := Demo.demo_host) (system := Desk.desk_system)
         "/home/user/tokens.tar" (Demo.start Desk.home))
  = Throw (ThrownError "Error"
             ("File does not have .zip extension: "
              +:+ "/home/user/tokens.tar")).
Proof.
  destruct (X14_archive_path_checks (host := Demo.demo_host)
              (system := Desk.desk_system) "/home/user/tokens.tar"
              (Demo.start Desk.home)) as (_ & _ & Hext & _).
  rewrite Hext; by vm_compute.
Defined.

(** X15 at the empty archive. *)
Lemma X15_extraction_failure_witness :
  let st := Demo.start Desk.home in
  let ran := extractZip (host := Demo.demo_host)
               (system := Desk.desk_system) "/home/user/empty.zip" st in
  engine_calls (snd ran) = engine_calls st ∧
  (world (snd ran) = world st ∨
   @fs_mkdtempSync Demo.demo_host Desk.desk_system
     (@path_join Demo.demo_host (@os_tmpdir Demo.demo_host Desk.desk_system)
                 "design-tokens-") (world st)
   = (Throw (ThrownError "Error"
               "Failed to extract zip file: Zip file is empty"),
      world (snd ran)) ∨
   ∃ t w1 cause w,
     @fs_mkdtempSync Demo.demo_host Desk.desk_system
     (@path_join Demo.demo_host (@os_tmpdir Demo.demo_host Desk.desk_system)
                 "design-tokens-") (world st) = (Ok t, w1) ∧
     extraction_failure (host := Demo.demo_host)
       (system := Desk.desk_system)
       (resolveZipPath (host := Demo.demo_host) "/home/user/empty.zip")
       t w1 cause w ∧
     world (snd ran)
     = snd (@fs_rmSync Demo.demo_host Desk.desk_system t w) ∧
     ThrownError "Error" "Failed to extract zip file: Zip file is empty"
     = ThrownError "Error"
         ("Failed to extract zip file: " +:+ errorMessage cause)).
Proof.
  intros st ran.
  assert (ran = (Throw (ThrownError "Error"
                          "Failed to extract zip file: Zip file is empty"),
                 snd ran)) as Hrun by (vm_compute; reflexivity).
  exact (X15_extraction_failure (host := Demo.demo_host)
           (system := Desk.desk_system) "/home/user/empty.zip" st _ _ Hrun).
Defined.

(** X16 at the archive of token files. *)
Lemma X16_extraction_result_witness :
  let st := Demo.start Desk.home in
  let ran := extractZip (host := Demo.demo_host)
               (system := Desk.desk_system) "/home/user/tokens.zip" st in
  ∃ w1 zip n,
    @fs_mkdtempSync Demo.demo_host Desk.desk_system
     (@path_join Demo.demo_host (@os_tmpdir Demo.demo_host Desk.desk_system)
                 "design-tokens-") (world st)
    = (Ok "/tmp/design-tokens-a1b2c3", w1) ∧
    @AdmZip_new Demo.demo_host Desk.desk_system
      (resolveZipPath (host := Demo.demo_host) "/home/user/tokens.zip") w1
    = Ok zip ∧
    @AdmZip_getEntries_length Demo.demo_host Desk.desk_system zip = Ok n ∧
    0 < n ∧
    @AdmZip_extractAllTo Demo.demo_host Desk.desk_system zip
      "/tmp/design-tokens-a1b2c3" w1
    = (Ok tt, world (snd ran)).
Proof.
  intros st ran.
  assert (ran = (Ok "/tmp/design-tokens-a1b2c3", snd ran)) as Hrun
    by (vm_compute; reflexivity).
  destruct (X16_extraction_result (host := Demo.demo_host)
              (system := Desk.desk_system) "/home/user/tokens.zip" st _ _
              Hrun)
    as (_ & _ & _ & H & _).
  exact H.
Defined.


(** X19 at an archive without token files. *)
Lemma X19_failed_run_leaves_files_witness :
  let s := Desk.start in
  let options := Desk.options "/home/user/notes.zip" in
  let extracted := extractZip (host := Demo.demo_host)
                     (system := Desk.desk_system) "/home/user/notes.zip"
                     (inner s) in
  ∃ s',
    runCli (host := Demo.demo_host) (system := Desk.desk_system) options s
    = (Ok (Exited 1), s') ∧
    world (inner s') = world (snd extracted) ∧
    @fs_lookup Demo.demo_host "/tmp/design-tokens-a1b2c3" (world (inner s'))
    = @fs_lookup Demo.demo_host "/tmp/design-tokens-a1b2c3"
        (world (snd extracted)) ∧
    engine_calls (inner s') = engine_calls (inner s).
Proof.
  intros s options extracted.
  set (found := discoverTokenFiles (host := Demo.demo_host)
                  "/tmp/design-tokens-a1b2c3" (snd extracted)).
  assert (extractZip (host := Demo.demo_host) (system := Desk.desk_system)
            (zipPath options) (inner s)
          = (Ok "/tmp/design-tokens-a1b2c3", snd extracted)) as H1
    by (vm_compute; reflexivity).
  assert (found
          = (Throw (ThrownError "Error"
                      ("No token files found. Token files must have "
                       +:+ ".inp.json, .theme.inp.json, or .ref.inp.json "
                       +:+ "extension.")), snd found)) as H2
    by (vm_compute; reflexivity).
  exact (X19_failed_run_leaves_files (host := Demo.demo_host)
           (system := Desk.desk_system) options s _ _ _ _ H1 H2).
Defined.

(** X20 at the archive of reference files. *)
Lemma X20_reference_only_run_witness :
  let s := Desk.start in
  let options := Desk.options "/home/user/references.ZIP" in
  ∃ s',
    runCli (host := Demo.demo_host) (system := Desk.desk_system) options s
    = (Ok Returned, s') ∧
    terminal s' = terminal s ∧
    engine_calls (inner s') = engine_calls (inner s).
Proof.
  intros s options.
  set (extracted := extractZip (host := Demo.demo_host)
                      (system := Desk.desk_system)
                      "/home/user/references.ZIP" (inner s)).
  set (found := discoverTokenFiles (host := Demo.demo_host)
                  "/tmp/design-tokens-a1b2c3" (snd extracted)).
  set (d := {| Discover.outputFiles := [];
               themeFiles := [];
               Discover.referenceFiles :=
                 ["/tmp/design-tokens-a1b2c3/primitive.ref.inp.json"];
               allFiles :=
                 ["/tmp/design-tokens-a1b2c3/primitive.ref.inp.json"] |}).
  assert (extractZip (host := Demo.demo_host) (system := Desk.desk_system)
            (zipPath options) (inner s)
          = (Ok "/tmp/design-tokens-a1b2c3", snd extracted)) as H1
    by (vm_compute; reflexivity).
  assert (found = (Ok d, snd found)) as H2 by (vm_compute; reflexivity).
  destruct (X20_reference_only_run (host := Demo.demo_host)
              (system := Desk.desk_system) options s _ _ d _ H1 H2
              eq_refl eq_refl)
    as (s' & lines & Ha & Hb & Hc & _).
  exists s'. exact (conj Ha (conj Hb Hc)).
Defined.

(** X21 at the archive of token files. *)
Lemma X21_successful_run_witness :
  let s := Desk.start in
  let options := Desk.options "/home/user/tokens.zip" in
  ∃ s' data,
    runCli (host := Demo.demo_host) (system := Desk.desk_system) options s
    = (Ok Returned, s') ∧
    terminal s' = terminal s ++ "" :: Logger.summary data ∧
    Logger.tokensProcessed data
    = foldr (fun o n => snd o + n) 0 (Logger.outputFiles data) ∧
    Logger.tokensSkipped data + length (Logger.outputFiles data)
    = length (Logger.inputFiles data).
Proof.
  intros s options.
  set (extracted := extractZip (host := Demo.demo_host)
                      (system := Desk.desk_system)
                      "/home/user/tokens.zip" (inner s)).
  set (found := discoverTokenFiles (host := Demo.demo_host)
                  "/tmp/design-tokens-a1b2c3" (snd extracted)).
  set (d := {| Discover.outputFiles :=
                 ["/tmp/design-tokens-a1b2c3/core.inp.json"];
               themeFiles := [];
               Discover.referenceFiles :=
                 ["/tmp/design-tokens-a1b2c3/primitive.ref.inp.json"];
               allFiles :=
                 ["/tmp/design-tokens-a1b2c3/primitive.ref.inp.json";
                  "/tmp/design-tokens-a1b2c3/core.inp.json"] |}).
  set (transformed := transformTokens (host := Demo.demo_host) d "/out"
                        (snd found)).
  set (results := [ {| outputPath := "/out/core.vars.gen.css";
                       tokenCount := 1;
                       inputPath :=
                         "/tmp/design-tokens-a1b2c3/core.inp.json" |} ]).
  set (stats := {| Transform.tokensProcessed := 1;
                   Transform.tokensSkipped := 0;
                   outputTokenCounts :=
                     {[ "/out/core.vars.gen.css" := 1 ]} |}).
  assert (extractZip (host := Demo.demo_host) (system := Desk.desk_system)
            (zipPath options) (inner s)
          = (Ok "/tmp/design-tokens-a1b2c3", snd extracted)) as H1
    by (vm_compute; reflexivity).
  assert (found = (Ok d, snd found)) as H2 by (vm_compute; reflexivity).
  assert (Discover.outputFiles d ++ themeFiles d ≠ []) as H3 by done.
  assert (transformTokens (host := Demo.demo_host) d (outputDir options)
            (snd found)
          = (Ok (results, stats), snd transformed)) as H4
    by (vm_compute; reflexivity).
  destruct (X21_successful_run (host := Demo.demo_host)
              (system := Desk.desk_system) options s _ _ d _ _ _ _
              H1 H2 H3 H4)
    as (s' & lines & Ha & Hb & Hc & Hd & _).
  eexists s', _. exact (conj Ha (conj Hb (conj Hc Hd))).
Defined.

(** X22 at a path where there is no file. *)
Lemma X22_hints_witness :
  ∃ e st',
    extractZip (host := Demo.demo_host) (system := Desk.desk_system)
      "/home/user/missing.zip" (Demo.start Desk.home) = (Throw e, st') ∧
    last (console (inner (snd (catch_block (host := Demo.demo_host)
                                 (system := Desk.desk_system) e
                                 Desk.start))))
    = Some (INFO, "Hint: Check that the zip file path is correct").
Proof.
  destruct (X22_hints (host := Demo.demo_host) (system := Desk.desk_system))
    as (Hmissing & _).
  apply Hmissing. by vm_compute.
Defined.
